(** * Wormhole guardian node: codecs, admin RPC and processor checks

    A shallow embedding of parts of the guardian node (Go) and proofs of
    properties of its cross-chain-query (CCQ) request codec, its governance
    body serializers, the admin RPC helpers, the processor's governor tick
    and the signed-VAA store.

    Conventions.
    - A Go [byte] is a [Byte.byte]; a [[]byte] is a [list byte].
    - A Go unsigned integer of width w is a [Z]; conversions to a narrower
      type are written out as [mod 2^w].
    - A Go [error] value is an [option error] ([None] is [nil]); a function
      returning [(T, error)] returns a [result T].
    - [fmt.Errorf] keeps its format string, its operands and the error it
      wraps, instead of the rendered text.
    - A function that may panic returns a [panics T]. *)

From Stdlib Require Import ZArith Lia.
From Stdlib Require Import Strings.Byte.
From stdpp Require Import base list strings gmap.

Local Open Scope Z_scope.

(** ** Errors and results *)

(** An operand of a format verb: [%d] takes an integer, [%s] a string. *)
Inductive fmtarg : Type :=
| ArgInt (z : Z)
| ArgStr (s : string).

Inductive error : Type :=
| EOF                   (* io.EOF *)
| ErrUnexpectedEOF      (* io.ErrUnexpectedEOF *)
| DeadlineExceeded      (* context.DeadlineExceeded *)
| Errorf (fmt : string) (args : list fmtarg)                  (* no [%w] operand, or a nil one *)
| Wrapf (fmt : string) (args : list fmtarg) (wrapped : error). (* the [%w] operand *)

(** [errors.New]. *)
Definition errors_New (msg : string) : error := Errorf msg [].

Inductive result (A : Type) : Type :=
| Ok (a : A)
| Err (e : error).
Arguments Ok {A} a.
Arguments Err {A} e.

(** A call that may panic: it returns, or it panics with a value (the
    message, kept like an error's). *)
Inductive panics (A : Type) : Type :=
| Returned (a : A)
| Panic (value : error).
Arguments Returned {A} a.
Arguments Panic {A} value.

(** ** Bytes and big-endian integers ([encoding/binary]) *)

Definition Z_of_byte (b : byte) : Z := Z.of_N (Byte.to_N b).

(** Go's conversion [byte(v)]: the low eight bits. *)
Definition byte_of_Z (z : Z) : byte :=
  default Byte.x00 (Byte.of_N (Z.to_N (z mod 256))).

(** [binary.BigEndian.PutUintN]: byte [i] (from the end) is [byte(v >> 8i)]. *)
Fixpoint BigEndian_put (n : nat) (v : Z) : list byte :=
  match n with
  | O => []
  | S n' => byte_of_Z (Z.shiftr v (8 * Z.of_nat n')) :: BigEndian_put n' v
  end.

(** [binary.BigEndian.UintN]: the bytes read as a base-256 numeral. *)
Definition BigEndian_get (bs : list byte) : Z :=
  fold_left (fun acc b => acc * 256 + Z_of_byte b) bs 0.

(** Conversions to a narrower unsigned type, and [len]. *)
Definition uint8 (v : Z) : Z := v mod 2 ^ 8.
Definition uint16 (v : Z) : Z := v mod 2 ^ 16.
Definition uint32 (v : Z) : Z := v mod 2 ^ 32.
Definition len {A} (l : list A) : Z := Z.of_nat (length l).
Definition strlen (s : string) : Z := Z.of_nat (String.length s).

(** [[]byte(s)] and [string(b)]. *)
Definition bytes_of_string (s : string) : list byte := String.list_byte_of_string s.
Definition string_of_bytes (b : list byte) : string := String.string_of_list_byte b.

(** [bytes.Equal]. *)
Fixpoint bytes_Equal (a b : list byte) : bool :=
  match a, b with
  | [], [] => true
  | x :: a', y :: b' => Byte.eqb x y && bytes_Equal a' b'
  | _, _ => false
  end.

(** ** Hexadecimal text ([encoding/hex]) *)

Definition hex_digit (n : N) : Ascii.ascii :=
  Ascii.ascii_of_N (if (n <? 10)%N then 48 + n else 87 + n).

Definition hex_EncodeToString (bs : list byte) : string :=
  fold_right (fun b s => String (hex_digit (Byte.to_N b / 16))
                           (String (hex_digit (Byte.to_N b mod 16)) s))
    EmptyString bs.

Definition hex_value (c : Ascii.ascii) : option Z :=
  let n := Z.of_N (Ascii.N_of_ascii c) in
  if (48 <=? n) && (n <=? 57) then Some (n - 48)
  else if (97 <=? n) && (n <=? 102) then Some (n - 87)
  else if (65 <=? n) && (n <=? 70) then Some (n - 55)
  else None.

Fixpoint hex_DecodeString (s : string) : option (list byte) :=
  match s with
  | EmptyString => Some []
  | String hi (String lo rest) =>
      match hex_value hi, hex_value lo, hex_DecodeString rest with
      | Some h, Some l, Some bs => Some (byte_of_Z (16 * h + l) :: bs)
      | _, _, _ => None
      end
  | String _ EmptyString => None
  end.

(** The bytes a hexadecimal literal of the tests stands for. *)
Definition unhex (s : string) : list byte := default [] (hex_DecodeString s).

(** ** A reader over a byte slice ([bytes.Reader]) *)

(** The state is the unread part of the slice. *)
Definition Reader (A : Type) : Type := list byte -> result (A * list byte).

Definition ret {A} (a : A) : Reader A := fun r => Ok (a, r).
Definition fail {A} (e : error) : Reader A := fun _ => Err e.
Definition bind {A B} (p : Reader A) (f : A -> Reader B) : Reader B :=
  fun r => match p r with
           | Ok (a, r') => f a r'
           | Err e => Err e
           end.

Notation "x <- p ;; q" := (bind p (fun x => q))
  (at level 100, p at next level, right associativity).

(** [if err := ...; err != nil { return fmt.Errorf(msg + ": %w", err) }]. *)
Definition wrap {A} (msg : string) (p : Reader A) : Reader A :=
  fun r => match p r with
           | Ok x => Ok x
           | Err e => Err (Wrapf msg [] e)
           end.

(** [binary.Read(reader, binary.BigEndian, &v)] for an unsigned integer of
    [n] bytes ([n > 0]): [io.ReadFull] gives [io.EOF] when nothing is left
    and [io.ErrUnexpectedEOF] when fewer than [n] bytes are left. *)
Definition binary_Read (n : nat) : Reader Z :=
  fun r => match r with
           | [] => Err EOF
           | _ => if decide (length r < n)%nat then Err ErrUnexpectedEOF
                  else Ok (BigEndian_get (take n r), drop n r)
           end.

(** [n, err := reader.Read(buf)] with [len(buf) = len]: at the end of the
    slice the result is [(0, io.EOF)], also for an empty [buf]; otherwise
    [min len remaining] bytes are copied and [err] is [nil].  The caller
    fails when [err != nil || n != len], reporting [n] and [err]. *)
Definition Reader_Read (len : nat) (r : list byte) : list byte * nat * option error * list byte :=
  match r with
  | [] => ([], 0%nat, Some EOF, [])
  | _ => (take len r, Nat.min len (length r), None, drop len r)
  end.

Definition read_exact (msg : string) (len : nat) : Reader (list byte) :=
  fun r => match Reader_Read len r with
           | (buf, n, Some e, _) => Err (Wrapf msg [ArgInt (Z.of_nat n)] e)
           | (buf, n, None, r') =>
               if decide (n <> len) then Err (Errorf msg [ArgInt (Z.of_nat n)])
               else Ok (buf, r')
           end.

(** [for count := 0; count < n; count++ { x := p(); acc = append(acc, x) }]. *)
Fixpoint read_loop {A} (n : nat) (p : Reader A) (acc : list A) : Reader (list A) :=
  match n with
  | O => ret acc
  | S n' => x <- p ;; read_loop n' p (acc ++ [x])
  end.

(** A reader is stable when bytes appended to an input it accepts are left
    unread: it returns the same value and the longer remainder. *)
Definition stable {A} (p : Reader A) : Prop :=
  forall data x rest extra,
    p data = Ok (x, rest) -> p (data ++ extra) = Ok (x, rest ++ extra).

(** * The CCQ request codec (package [query]) *)

Module Query.

(** ** Data model *)

Definition MSG_VERSION : Z := 1.
Definition SolanaAccountQueryRequestType : Z := 4.
Definition SolanaPdaQueryRequestType : Z := 5.
Definition SolanaPublicKeyLength : nat := 32.
Definition SolanaMaxCommitmentLength : nat := 12.
Definition SolanaMaxAccountsPerQuery : nat := 100.
Definition SolanaMaxSeeds : nat := 16.
Definition SolanaMaxSeedLen : nat := 32.
Definition MaxUint8 : Z := 255.
Definition MaxUint32 : Z := 4294967295.

(** [Accounts] is a slice of [[32]byte]; the fixed length is part of
    [wf_SolanaAccountQueryRequest] below. *)
Record SolanaAccountQueryRequest : Type := {
  saq_Commitment : string;
  saq_MinContextSlot : Z;
  saq_DataSliceOffset : Z;
  saq_DataSliceLength : Z;
  saq_Accounts : list (list byte)
}.

Record SolanaPDAEntry : Type := {
  ProgramAddress : list byte;
  Seeds : list (list byte)
}.

Record SolanaPdaQueryRequest : Type := {
  spda_Commitment : string;
  spda_MinContextSlot : Z;
  spda_DataSliceOffset : Z;
  spda_DataSliceLength : Z;
  spda_PDAs : list SolanaPDAEntry
}.

(** The two implementors of the [ChainSpecificQuery] interface. *)
Inductive ChainSpecificQuery : Type :=
| SolAccount (q : SolanaAccountQueryRequest)
| SolPda (q : SolanaPdaQueryRequest).

(** [Query] is an interface value: [None] is the nil interface. *)
Record PerChainQueryRequest : Type := {
  ChainId : Z;
  Query : option ChainSpecificQuery
}.

(** [PerChainQueries] is a slice of pointers; the model takes every
    pointer in it to be non-nil. *)
Record QueryRequest : Type := {
  Nonce : Z;
  PerChainQueries : list PerChainQueryRequest
}.

(** The ranges Go's types give the fields. *)
Definition is_uint (w : Z) (v : Z) : Prop := 0 <= v < 2 ^ w.

Definition wf_SolanaAccountQueryRequest (q : SolanaAccountQueryRequest) : Prop :=
  is_uint 64 (saq_MinContextSlot q) /\ is_uint 64 (saq_DataSliceOffset q) /\
  is_uint 64 (saq_DataSliceLength q) /\
  Forall (fun a => length a = SolanaPublicKeyLength) (saq_Accounts q).

Definition wf_SolanaPDAEntry (p : SolanaPDAEntry) : Prop :=
  length (ProgramAddress p) = SolanaPublicKeyLength.

Definition wf_SolanaPdaQueryRequest (q : SolanaPdaQueryRequest) : Prop :=
  is_uint 64 (spda_MinContextSlot q) /\ is_uint 64 (spda_DataSliceOffset q) /\
  is_uint 64 (spda_DataSliceLength q) /\
  Forall wf_SolanaPDAEntry (spda_PDAs q).

Definition wf_ChainSpecificQuery (q : ChainSpecificQuery) : Prop :=
  match q with
  | SolAccount a => wf_SolanaAccountQueryRequest a
  | SolPda p => wf_SolanaPdaQueryRequest p
  end.

Definition wf_PerChainQueryRequest (p : PerChainQueryRequest) : Prop :=
  is_uint 16 (ChainId p) /\
  match Query p with Some q => wf_ChainSpecificQuery q | None => True end.

Definition wf_QueryRequest (q : QueryRequest) : Prop :=
  is_uint 32 (Nonce q) /\ Forall wf_PerChainQueryRequest (PerChainQueries q).

(** The message [commitment must be "finalized"], quotes included. *)
Definition commitment_must_be_finalized : string :=
  "commitment must be " +:+ String (Ascii.ascii_of_nat 34) "finalized"
    +:+ String (Ascii.ascii_of_nat 34) EmptyString.

(** ** [QueryRequestDigest] *)

(** Modelled from the spec: the declaration of [common.Environment] is not
    among the sources.  The spec names the tags [UnsafeDevNet], [TestNet]
    and [MainNet]; [OtherEnvironment] stands for any further value of the
    type. *)
Inductive Environment : Type :=
| UnsafeDevNet
| TestNet
| MainNet
| OtherEnvironment (tag : string).

Definition Environment_eqb (a b : Environment) : bool :=
  match a, b with
  | UnsafeDevNet, UnsafeDevNet | TestNet, TestNet | MainNet, MainNet => true
  | OtherEnvironment s, OtherEnvironment t => bool_decide (s = t)
  | _, _ => false
  end.

Section Digest.
(** [ethCrypto.Keccak256Hash] is a library function. *)
Variable Hash : Type.
Variable Keccak256Hash : list byte -> Hash.

Definition QueryRequestDigest (env : Environment) (b : list byte) : Hash :=
  let queryRequestPrefix :=
    if Environment_eqb env MainNet
    then bytes_of_string "mainnet_query_request_000000000000|"
    else if Environment_eqb env TestNet
    then bytes_of_string "testnet_query_request_000000000000|"
    else bytes_of_string "devnet_query_request_0000000000000|" in
  Keccak256Hash (queryRequestPrefix ++ b).
End Digest.

(** [vaa.ChainID.String] and [vaa.ChainIDFromString] belong to the SDK's
    chain table, which is not among the sources: the codec takes them as an
    interface. *)
Class ChainTable : Type := {
  ChainID_String : Z -> string;
  ChainIDFromString : string -> result Z
}.

Section Codec.
Context {chains : ChainTable}.

(** ** Validation *)

Definition ValidatePerChainQueryRequestType (qt : Z) : option error :=
  if negb (qt =? SolanaAccountQueryRequestType) && negb (qt =? SolanaPdaQueryRequestType)
  then Some (Errorf "invalid query request type: %d" [ArgInt qt])
  else None.

Fixpoint validate_accounts (accts : list (list byte)) : option error :=
  match accts with
  | [] => None
  | acct :: rest =>
      if negb (length acct =? SolanaPublicKeyLength)%nat
      then Some (errors_New "invalid account length")
      else validate_accounts rest
  end.

Definition SolanaAccountQueryRequest_Validate (saq : SolanaAccountQueryRequest) : option error :=
  if (SolanaMaxCommitmentLength <? String.length (saq_Commitment saq))%nat
  then Some (errors_New "commitment too long")
  else if negb (String.eqb (saq_Commitment saq) "finalized")
  then Some (errors_New commitment_must_be_finalized)
  else if (saq_DataSliceLength saq =? 0) && negb (saq_DataSliceOffset saq =? 0)
  then Some (errors_New "data slice offset may not be set if data slice length is zero")
  else if (length (saq_Accounts saq) <=? 0)%nat
  then Some (errors_New "does not contain any account entries")
  else if (SolanaMaxAccountsPerQuery <? length (saq_Accounts saq))%nat
  then Some (Errorf "too many account entries, may not be more than %d"
               [ArgInt (Z.of_nat SolanaMaxAccountsPerQuery)])
  else validate_accounts (saq_Accounts saq).

Fixpoint validate_seeds (seeds : list (list byte)) : option error :=
  match seeds with
  | [] => None
  | seed :: rest =>
      if (length seed =? 0)%nat then Some (errors_New "seed is null")
      else if (SolanaMaxSeedLen <? length seed)%nat then Some (errors_New "seed is too long")
      else validate_seeds rest
  end.

Fixpoint validate_pdas (pdas : list SolanaPDAEntry) : option error :=
  match pdas with
  | [] => None
  | pda :: rest =>
      if negb (length (ProgramAddress pda) =? SolanaPublicKeyLength)%nat
      then Some (errors_New "invalid program address length")
      else if (length (Seeds pda) =? 0)%nat
      then Some (errors_New "PDA does not contain any seeds")
      else if (SolanaMaxSeeds <? length (Seeds pda))%nat
      then Some (errors_New "PDA contains too many seeds")
      else match validate_seeds (Seeds pda) with
           | Some e => Some e
           | None => validate_pdas rest
           end
  end.

Definition SolanaPdaQueryRequest_Validate (spda : SolanaPdaQueryRequest) : option error :=
  if (SolanaMaxCommitmentLength <? String.length (spda_Commitment spda))%nat
  then Some (errors_New "commitment too long")
  else if negb (String.eqb (spda_Commitment spda) "finalized")
  then Some (errors_New commitment_must_be_finalized)
  else if (spda_DataSliceLength spda =? 0) && negb (spda_DataSliceOffset spda =? 0)
  then Some (errors_New "data slice offset may not be set if data slice length is zero")
  else if (length (spda_PDAs spda) <=? 0)%nat
  then Some (errors_New "does not contain any PDAs entries")
  else if (SolanaMaxAccountsPerQuery <? length (spda_PDAs spda))%nat
  then Some (Errorf "too many PDA entries, may not be more than %d"
               [ArgInt (Z.of_nat SolanaMaxAccountsPerQuery)])
  else validate_pdas (spda_PDAs spda).

(** The interface methods [Type] and [Validate]. *)
Definition ChainSpecificQuery_Type (q : ChainSpecificQuery) : Z :=
  match q with
  | SolAccount _ => SolanaAccountQueryRequestType
  | SolPda _ => SolanaPdaQueryRequestType
  end.

Definition ChainSpecificQuery_Validate (q : ChainSpecificQuery) : option error :=
  match q with
  | SolAccount a => SolanaAccountQueryRequest_Validate a
  | SolPda p => SolanaPdaQueryRequest_Validate p
  end.

Definition PerChainQueryRequest_Validate (perChainQuery : PerChainQueryRequest) : option error :=
  match ChainIDFromString (ChainID_String (ChainId perChainQuery)) with
  | Err _ => Some (Errorf "invalid chainID: %d" [ArgInt (ChainId perChainQuery)])
  | Ok _ =>
      match Query perChainQuery with
      | None => Some (errors_New "query is nil")
      | Some q =>
          match ValidatePerChainQueryRequestType (ChainSpecificQuery_Type q) with
          | Some e => Some e
          | None =>
              match ChainSpecificQuery_Validate q with
              | Some e => Some (Wrapf "chain specific query is invalid: %w" [] e)
              | None => None
              end
          end
      end
  end.

Fixpoint validate_perChainQueries (idx : Z) (pcqs : list PerChainQueryRequest) : option error :=
  match pcqs with
  | [] => None
  | perChainQuery :: rest =>
      match PerChainQueryRequest_Validate perChainQuery with
      | Some e => Some (Wrapf "failed to validate per chain query %d: %w" [ArgInt idx] e)
      | None => validate_perChainQueries (idx + 1) rest
      end
  end.

Definition QueryRequest_Validate (queryRequest : QueryRequest) : option error :=
  if (length (PerChainQueries queryRequest) <=? 0)%nat
  then Some (errors_New "request does not contain any per chain queries")
  else if MaxUint8 <? len (PerChainQueries queryRequest)
  then Some (errors_New "too many per chain queries")
  else validate_perChainQueries 0 (PerChainQueries queryRequest).

(** ** Marshaling *)

Definition SolanaAccountQueryRequest_Marshal (saq : SolanaAccountQueryRequest)
  : result (list byte) :=
  match SolanaAccountQueryRequest_Validate saq with
  | Some e => Err e
  | None =>
      Ok (BigEndian_put 4 (uint32 (strlen (saq_Commitment saq)))
          ++ bytes_of_string (saq_Commitment saq)
          ++ BigEndian_put 8 (saq_MinContextSlot saq)
          ++ BigEndian_put 8 (saq_DataSliceOffset saq)
          ++ BigEndian_put 8 (saq_DataSliceLength saq)
          ++ BigEndian_put 1 (uint8 (len (saq_Accounts saq)))
          ++ concat (saq_Accounts saq))
  end.

Definition marshal_seed (seed : list byte) : list byte :=
  BigEndian_put 4 (uint32 (len seed)) ++ seed.

Definition marshal_pda (pda : SolanaPDAEntry) : list byte :=
  ProgramAddress pda
  ++ BigEndian_put 1 (uint8 (len (Seeds pda)))
  ++ concat (map marshal_seed (Seeds pda)).

Definition SolanaPdaQueryRequest_Marshal (spda : SolanaPdaQueryRequest)
  : result (list byte) :=
  match SolanaPdaQueryRequest_Validate spda with
  | Some e => Err e
  | None =>
      Ok (BigEndian_put 4 (uint32 (strlen (spda_Commitment spda)))
          ++ bytes_of_string (spda_Commitment spda)
          ++ BigEndian_put 8 (spda_MinContextSlot spda)
          ++ BigEndian_put 8 (spda_DataSliceOffset spda)
          ++ BigEndian_put 8 (spda_DataSliceLength spda)
          ++ BigEndian_put 1 (uint8 (len (spda_PDAs spda)))
          ++ concat (map marshal_pda (spda_PDAs spda)))
  end.

Definition ChainSpecificQuery_Marshal (q : ChainSpecificQuery) : result (list byte) :=
  match q with
  | SolAccount a => SolanaAccountQueryRequest_Marshal a
  | SolPda p => SolanaPdaQueryRequest_Marshal p
  end.

Definition PerChainQueryRequest_Marshal (perChainQuery : PerChainQueryRequest)
  : result (list byte) :=
  match PerChainQueryRequest_Validate perChainQuery with
  | Some e => Err e
  | None =>
      match Query perChainQuery with
      | None => Err (errors_New "query is nil") (* excluded by Validate *)
      | Some q =>
          match ChainSpecificQuery_Marshal q with
          | Err e => Err e
          | Ok queryBuf =>
              if MaxUint32 <? len queryBuf then Err (errors_New "query too long")
              else Ok (BigEndian_put 2 (ChainId perChainQuery)
                       ++ BigEndian_put 1 (ChainSpecificQuery_Type q)
                       ++ BigEndian_put 4 (uint32 (len queryBuf))
                       ++ queryBuf)
          end
      end
  end.

Fixpoint marshal_perChainQueries (pcqs : list PerChainQueryRequest) (buf : list byte)
  : result (list byte) :=
  match pcqs with
  | [] => Ok buf
  | perChainQuery :: rest =>
      match PerChainQueryRequest_Marshal perChainQuery with
      | Err e => Err (Wrapf "failed to marshal per chain query: %w" [] e)
      | Ok pcqBuf => marshal_perChainQueries rest (buf ++ pcqBuf)
      end
  end.

Definition QueryRequest_Marshal (queryRequest : QueryRequest) : result (list byte) :=
  match QueryRequest_Validate queryRequest with
  | Some e => Err e
  | None =>
      marshal_perChainQueries (PerChainQueries queryRequest)
        (BigEndian_put 1 MSG_VERSION
         ++ BigEndian_put 4 (Nonce queryRequest)
         ++ BigEndian_put 1 (uint8 (len (PerChainQueries queryRequest))))
  end.

(** ** Unmarshaling

    Each [UnmarshalFromReader] fills a fresh (zero) receiver and is a
    [Reader] of the value it leaves there on success. *)

Definition SolanaAccountQueryRequest_UnmarshalFromReader : Reader SolanaAccountQueryRequest :=
  len <- wrap "failed to read commitment len: %w" (binary_Read 4) ;;
  if Z.of_nat SolanaMaxCommitmentLength <? len
  then fail (Errorf "commitment string is too long, may not be more than %d characters"
               [ArgInt (Z.of_nat SolanaMaxCommitmentLength)])
  else
    commitment <- read_exact "failed to read commitment [%d]: %w" (Z.to_nat len) ;;
    minContextSlot <- wrap "failed to read min slot: %w" (binary_Read 8) ;;
    dataSliceOffset <- wrap "failed to read data slice offset: %w" (binary_Read 8) ;;
    dataSliceLength <- wrap "failed to read data slice length: %w" (binary_Read 8) ;;
    numAccounts <- wrap "failed to read number of account entries: %w" (binary_Read 1) ;;
    accounts <- read_loop (Z.to_nat numAccounts)
                  (read_exact "failed to read account [%d]: %w" SolanaPublicKeyLength) [] ;;
    ret {| saq_Commitment := string_of_bytes commitment;
           saq_MinContextSlot := minContextSlot;
           saq_DataSliceOffset := dataSliceOffset;
           saq_DataSliceLength := dataSliceLength;
           saq_Accounts := accounts |}.

Definition unmarshal_seed : Reader (list byte) :=
  seedLen <- wrap "failed to read call Data len: %w" (binary_Read 4) ;;
  read_exact "failed to read seed [%d]: %w" (Z.to_nat seedLen).

Definition unmarshal_pda : Reader SolanaPDAEntry :=
  programAddress <- read_exact "failed to read program address [%d]: %w" SolanaPublicKeyLength ;;
  numSeeds <- wrap "failed to read number of seeds: %w" (binary_Read 1) ;;
  seeds <- read_loop (Z.to_nat numSeeds) unmarshal_seed [] ;;
  ret {| ProgramAddress := programAddress; Seeds := seeds |}.

Definition SolanaPdaQueryRequest_UnmarshalFromReader : Reader SolanaPdaQueryRequest :=
  len <- wrap "failed to read commitment len: %w" (binary_Read 4) ;;
  if Z.of_nat SolanaMaxCommitmentLength <? len
  then fail (Errorf "commitment string is too long, may not be more than %d characters"
               [ArgInt (Z.of_nat SolanaMaxCommitmentLength)])
  else
    commitment <- read_exact "failed to read commitment [%d]: %w" (Z.to_nat len) ;;
    minContextSlot <- wrap "failed to read min slot: %w" (binary_Read 8) ;;
    dataSliceOffset <- wrap "failed to read data slice offset: %w" (binary_Read 8) ;;
    dataSliceLength <- wrap "failed to read data slice length: %w" (binary_Read 8) ;;
    numPDAs <- wrap "failed to read number of PDAs: %w" (binary_Read 1) ;;
    pdas <- read_loop (Z.to_nat numPDAs) unmarshal_pda [] ;;
    ret {| spda_Commitment := string_of_bytes commitment;
           spda_MinContextSlot := minContextSlot;
           spda_DataSliceOffset := dataSliceOffset;
           spda_DataSliceLength := dataSliceLength;
           spda_PDAs := pdas |}.

Definition PerChainQueryRequest_UnmarshalFromReader : Reader PerChainQueryRequest :=
  chainId <- wrap "failed to read request chain: %w" (binary_Read 2) ;;
  qt <- wrap "failed to read request type: %w" (binary_Read 1) ;;
  match ValidatePerChainQueryRequestType qt with
  | Some e => fail e
  | None =>
      (* Skip the query length. *)
      queryLength <- wrap "failed to read query length: %w" (binary_Read 4) ;;
      if qt =? SolanaAccountQueryRequestType then
        q <- wrap "failed to unmarshal solana account query request: %w"
               SolanaAccountQueryRequest_UnmarshalFromReader ;;
        ret {| ChainId := chainId; Query := Some (SolAccount q) |}
      else if qt =? SolanaPdaQueryRequestType then
        q <- wrap "failed to unmarshal solana PDA query request: %w"
               SolanaPdaQueryRequest_UnmarshalFromReader ;;
        ret {| ChainId := chainId; Query := Some (SolPda q) |}
      else fail (Errorf "unsupported query type: %d" [ArgInt qt])
  end.

Definition PerChainQueryRequest_Unmarshal (data : list byte) : result PerChainQueryRequest :=
  match PerChainQueryRequest_UnmarshalFromReader data with
  | Ok (q, _) => Ok q
  | Err e => Err e
  end.

(** The part of [QueryRequest.UnmarshalFromReader] that consumes input:
    version, nonce, count and that many per-chain queries. *)
Definition QueryRequest_readFields : Reader QueryRequest :=
  version <- wrap "failed to read message version: %w" (binary_Read 1) ;;
  if negb (version =? MSG_VERSION)
  then fail (Errorf "unsupported message version: %d" [ArgInt version])
  else
    nonce <- wrap "failed to read request nonce: %w" (binary_Read 4) ;;
    numPerChainQueries <- wrap "failed to read number of per chain queries: %w" (binary_Read 1) ;;
    perChainQueries <- read_loop (Z.to_nat numPerChainQueries)
                         (wrap "failed to Unmarshal per chain query: %w"
                            PerChainQueryRequest_UnmarshalFromReader) [] ;;
    ret {| Nonce := nonce; PerChainQueries := perChainQueries |}.

(** The two checks that follow: [reader.Len() != 0] and [Validate]. *)
Definition QueryRequest_UnmarshalFromReader : Reader QueryRequest :=
  queryRequest <- QueryRequest_readFields ;;
  fun reader =>
    if negb (length reader =? 0)%nat then Err (Errorf "excess bytes in unmarshal" [])
    else match QueryRequest_Validate queryRequest with
         | Some e => Err (Wrapf "unmarshaled request failed validation: %w" [] e)
         | None => Ok (queryRequest, reader)
         end.

Definition QueryRequest_Unmarshal (data : list byte) : result QueryRequest :=
  match QueryRequest_UnmarshalFromReader data with
  | Ok (q, _) => Ok q
  | Err e => Err e
  end.

(** ** Equality *)

(** [for idx := range left { if !eq(left[idx], right[idx]) { return false } }]
    after the lengths were found equal. *)
Fixpoint all_equal {A} (eq : A -> A -> bool) (left right : list A) : bool :=
  match left, right with
  | l :: left', r :: right' => eq l r && all_equal eq left' right'
  | _, _ => true
  end.

Definition SolanaAccountQueryRequest_Equal (left right : SolanaAccountQueryRequest) : bool :=
  if negb (String.eqb (saq_Commitment left) (saq_Commitment right))
     || negb (saq_MinContextSlot left =? saq_MinContextSlot right)
     || negb (saq_DataSliceOffset left =? saq_DataSliceOffset right)
     || negb (saq_DataSliceLength left =? saq_DataSliceLength right)
  then false
  else if negb (length (saq_Accounts left) =? length (saq_Accounts right))%nat then false
  else all_equal bytes_Equal (saq_Accounts left) (saq_Accounts right).

Definition SolanaPDAEntry_equal (left right : SolanaPDAEntry) : bool :=
  if negb (bytes_Equal (ProgramAddress left) (ProgramAddress right)) then false
  else if negb (length (Seeds left) =? length (Seeds right))%nat then false
  else all_equal bytes_Equal (Seeds left) (Seeds right).

Definition SolanaPdaQueryRequest_Equal (left right : SolanaPdaQueryRequest) : bool :=
  if negb (String.eqb (spda_Commitment left) (spda_Commitment right))
     || negb (spda_MinContextSlot left =? spda_MinContextSlot right)
     || negb (spda_DataSliceOffset left =? spda_DataSliceOffset right)
     || negb (spda_DataSliceLength left =? spda_DataSliceLength right)
  then false
  else if negb (length (spda_PDAs left) =? length (spda_PDAs right))%nat then false
  else all_equal SolanaPDAEntry_equal (spda_PDAs left) (spda_PDAs right).

(** The type switch panics on mismatched variants; the comparison of
    [Type()] before it makes those branches unreachable. *)
Definition PerChainQueryRequest_Equal (left right : PerChainQueryRequest) : bool :=
  if negb (ChainId left =? ChainId right) then false
  else match Query left, Query right with
       | None, None => true
       | None, _ | _, None => false
       | Some l, Some r =>
           if negb (ChainSpecificQuery_Type l =? ChainSpecificQuery_Type r) then false
           else match l, r with
                | SolAccount leftQuery, SolAccount rightQuery =>
                    SolanaAccountQueryRequest_Equal leftQuery rightQuery
                | SolPda leftQuery, SolPda rightQuery =>
                    SolanaPdaQueryRequest_Equal leftQuery rightQuery
                | _, _ => false
                end
       end.

Definition QueryRequest_Equal (left right : QueryRequest) : bool :=
  if negb (Nonce left =? Nonce right) then false
  else if negb (length (PerChainQueries left) =? length (PerChainQueries right))%nat then false
  else all_equal PerChainQueryRequest_Equal (PerChainQueries left) (PerChainQueries right).

(** ** The validator's conditions, as the specification words them *)

Definition commitment_ok (c : string) : Prop :=
  (String.length c <= 12)%nat /\ c = "finalized"%string.

Definition data_slice_ok (offset length : Z) : Prop := length = 0 -> offset = 0.

Definition seed_ok (seed : list byte) : Prop := (1 <= length seed <= 32)%nat.

Definition pda_ok (pda : SolanaPDAEntry) : Prop :=
  (1 <= length (Seeds pda) <= 16)%nat /\ Forall seed_ok (Seeds pda).

Definition query_ok (q : ChainSpecificQuery) : Prop :=
  match q with
  | SolAccount a =>
      commitment_ok (saq_Commitment a) /\
      data_slice_ok (saq_DataSliceOffset a) (saq_DataSliceLength a) /\
      (1 <= length (saq_Accounts a) <= 100)%nat
  | SolPda p =>
      commitment_ok (spda_Commitment p) /\
      data_slice_ok (spda_DataSliceOffset p) (spda_DataSliceLength p) /\
      (1 <= length (spda_PDAs p) <= 100)%nat /\
      Forall pda_ok (spda_PDAs p)
  end.

(** A chain id is known when the chain table maps its name back to an id. *)
Definition known_chain (c : Z) : Prop :=
  exists c', ChainIDFromString (ChainID_String c) = Ok c'.

Definition per_chain_ok (p : PerChainQueryRequest) : Prop :=
  known_chain (ChainId p) /\
  exists q, Query p = Some q /\
    (ChainSpecificQuery_Type q = 4 \/ ChainSpecificQuery_Type q = 5) /\
    query_ok q.

Definition request_ok (q : QueryRequest) : Prop :=
  (1 <= length (PerChainQueries q) <= 255)%nat /\
  Forall per_chain_ok (PerChainQueries q).


(** ** Notions the statements about the decoder use *)

(** The error for bytes left over after the last per-chain query. *)
Definition excess_bytes : error := Errorf "excess bytes in unmarshal" [].

(** [b] with the four bytes of its query length field replaced by [l]. *)
Definition set_query_len (b l : list byte) : list byte := take 3 b ++ l ++ drop 7 b.

End Codec.

(** The prefix the digest is computed over, by environment. *)
Definition digest_prefix (env : Environment) : string :=
  match env with
  | MainNet => "mainnet_query_request_000000000000|"
  | TestNet => "testnet_query_request_000000000000|"
  | _ => "devnet_query_request_0000000000000|"
  end.

(** ** The values of the codec tests *)

Definition ChainIDSolana : Z := 1.

(** A chain table that knows Solana alone. *)
Definition solana_only : ChainTable := {|
  ChainID_String := fun c => if c =? ChainIDSolana then "solana"%string
                             else "unknown chain ID"%string;
  ChainIDFromString := fun s => if String.eqb s "solana" then Ok ChainIDSolana
                                else Err (Errorf "unknown chain ID: %s" [ArgStr s])
|}.

Definition perChainQuery1 : PerChainQueryRequest := {|
  ChainId := ChainIDSolana;
  Query := Some (SolAccount {|
    saq_Commitment := "finalized";
    saq_MinContextSlot := 0;
    saq_DataSliceOffset := 0;
    saq_DataSliceLength := 0;
    saq_Accounts :=
      [unhex "9999bac44d09a7f69ee7941819b0a19c59ccb1969640cc513be09ef95ed2d8e2";
       unhex "9999bac44d09a7f69ee7941819b0a19c59ccb1969640cc513be09ef95ed2d8e3"] |})
|}.

Definition createSolanaAccountQueryRequestForTesting : QueryRequest :=
  {| Nonce := 1; PerChainQueries := [perChainQuery1] |}.

(** The encoding of the SDK test vector for a [sol_account] query. *)
Definition sdk_vector : list byte :=
  unhex "010000002a01000104000000660000000966696e616c697a65640000000000000000000000000000000000000000000000000202c806312cbe5b79ef8aa6c17e3f423d8fdfe1d46909fb1f6cdf65ee8e2e6faa95f83a27e90c622a98c037353f271fd8f5f57b4dc18ebf5ff75a934724bd0491".

Definition sdk_request : QueryRequest := {|
  Nonce := 42;
  PerChainQueries := [{|
    ChainId := ChainIDSolana;
    Query := Some (SolAccount {|
      saq_Commitment := "finalized";
      saq_MinContextSlot := 0;
      saq_DataSliceOffset := 0;
      saq_DataSliceLength := 0;
      saq_Accounts :=
        [unhex "02c806312cbe5b79ef8aa6c17e3f423d8fdfe1d46909fb1f6cdf65ee8e2e6faa";
         unhex "95f83a27e90c622a98c037353f271fd8f5f57b4dc18ebf5ff75a934724bd0491"] |}) |}]
|}.

(** The encoding of the SDK test vector for a [sol_pda] query. *)
Definition sdk_pda_vector : list byte :=
  unhex "010000002b010001050000005e0000000966696e616c697a656400000000000008ff000000000000000c00000000000000140102c806312cbe5b79ef8aa6c17e3f423d8fdfe1d46909fb1f6cdf65ee8e2e6faa020000000b477561726469616e5365740000000400000000".

Definition sdk_pda_request : QueryRequest := {|
  Nonce := 43;
  PerChainQueries := [{|
    ChainId := ChainIDSolana;
    Query := Some (SolPda {|
      spda_Commitment := "finalized";
      spda_MinContextSlot := 2303;
      spda_DataSliceOffset := 12;
      spda_DataSliceLength := 20;
      spda_PDAs :=
        [{| ProgramAddress :=
              unhex "02c806312cbe5b79ef8aa6c17e3f423d8fdfe1d46909fb1f6cdf65ee8e2e6faa";
            Seeds := [bytes_of_string "GuardianSet"; replicate 4 Byte.x00] |}] |}) |}]
|}.

(** The encoding of [perChainQuery1]: chain 1, type 4, length 0x66, body. *)
Definition perChainQuery1_bytes : list byte :=
  unhex "000104000000660000000966696e616c697a6564000000000000000000000000000000000000000000000000029999bac44d09a7f69ee7941819b0a19c59ccb1969640cc513be09ef95ed2d8e29999bac44d09a7f69ee7941819b0a19c59ccb1969640cc513be09ef95ed2d8e3".

End Query.

(** * Governance bodies (package [vaa]) *)

Module Vaa.

(** [CoreModule]: the name "Core" left-padded with zeroes to 32 bytes. *)
Definition CoreModule : list byte :=
  replicate 28 Byte.x00 ++ [Byte.x43; Byte.x6f; Byte.x72; Byte.x65].

Definition ActionContractUpgrade : Z := 1.
Definition ActionGuardianSetUpdate : Z := 2.

(** [NewContract] is a [vaa.Address], 32 bytes. *)
Record BodyContractUpgrade : Type := {
  ChainID : Z;
  NewContract : list byte
}.

(** [Keys] is a slice of [common.Address], 20 bytes each. *)
Record BodyGuardianSetUpdate : Type := {
  Keys : list (list byte);
  NewIndex : Z
}.

Definition BodyContractUpgrade_Serialize (b : BodyContractUpgrade) : list byte :=
  CoreModule                                    (* Module *)
  ++ BigEndian_put 1 ActionContractUpgrade      (* Action *)
  ++ BigEndian_put 2 (uint16 (ChainID b))       (* ChainID *)
  ++ NewContract b.

Definition BodyGuardianSetUpdate_Serialize (b : BodyGuardianSetUpdate) : list byte :=
  CoreModule                                    (* Module *)
  ++ BigEndian_put 1 ActionGuardianSetUpdate    (* Action *)
  ++ BigEndian_put 2 (uint16 0)                 (* ChainID - 0 for universal *)
  ++ BigEndian_put 4 (NewIndex b)
  ++ BigEndian_put 1 (uint8 (len (Keys b)))
  ++ concat (Keys b).

(** ** The bridge and relayer bodies *)

(** [WormholeRelayerModule]: "WormholeRelayer" left-padded to 32 bytes. *)
Definition WormholeRelayerModule : list byte :=
  replicate 17 Byte.x00
  ++ [Byte.x57; Byte.x6f; Byte.x72; Byte.x6d; Byte.x68; Byte.x6f; Byte.x6c; Byte.x65;
      Byte.x52; Byte.x65; Byte.x6c; Byte.x61; Byte.x79; Byte.x65; Byte.x72].

Definition WormholeRelayerModuleStr : string := string_of_bytes WormholeRelayerModule.

Definition ActionCoreRecoverChainId : Z := 5.
Definition ActionRegisterChain : Z := 1.
Definition ActionUpgradeTokenBridge : Z := 2.
Definition ActionTokenBridgeRecoverChainId : Z := 3.
Definition WormholeRelayerSetDefaultDeliveryProvider : Z := 3.

Record BodyTokenBridgeRegisterChain : Type := {
  rc_Module : string;
  rc_ChainID : Z;
  rc_EmitterAddress : list byte
}.

Record BodyTokenBridgeUpgradeContract : Type := {
  uc_Module : string;
  uc_TargetChainID : Z;
  uc_NewContract : list byte
}.

(** [EvmChainID] points to a 256-bit unsigned integer. *)
Record BodyRecoverChainId : Type := {
  rci_Module : string;
  rci_EvmChainID : Z;
  rci_NewChainID : Z
}.

Record BodyWormholeRelayerSetDefaultDeliveryProvider : Type := {
  dp_ChainID : Z;
  dp_NewDefaultDeliveryProviderAddress : list byte
}.

(** [for i := 0; i < n; i++ { buf.WriteByte(0x00) }]. *)
Fixpoint write_zeros (n : nat) (buf : list byte) : list byte :=
  match n with
  | O => buf
  | S n' => write_zeros n' (buf ++ [Byte.x00])
  end.

(** [LeftPadBytes]; [length] is an [int]. *)
Definition LeftPadBytes (payload : string) (length : Z) : panics (list byte) :=
  if length <? 0
  then Panic (errors_New "cannot prepend bytes to a negative length buffer")
  else if length <? strlen payload
  then Panic (Errorf "payload longer than %d bytes" [ArgInt length])
  else Returned (write_zeros (Z.to_nat (length - strlen payload)) []
                 ++ bytes_of_string payload).

Definition serializeBridgeGovernanceVaa (module : string) (actionId chainId : Z)
    (payload : list byte) : panics (list byte) :=
  match LeftPadBytes module 32 with
  | Panic v => Panic v
  | Returned buf =>
      Returned (buf
                ++ BigEndian_put 1 actionId    (* Write action ID *)
                ++ BigEndian_put 2 chainId     (* Write target chain *)
                ++ payload)
  end.

Definition BodyTokenBridgeRegisterChain_Serialize (r : BodyTokenBridgeRegisterChain)
  : panics (list byte) :=
  let payload := BigEndian_put 2 (rc_ChainID r) ++ rc_EmitterAddress r in
  (* target chain 0 = universal *)
  serializeBridgeGovernanceVaa (rc_Module r) ActionRegisterChain 0 payload.

Definition BodyTokenBridgeUpgradeContract_Serialize (r : BodyTokenBridgeUpgradeContract)
  : panics (list byte) :=
  serializeBridgeGovernanceVaa (uc_Module r) ActionUpgradeTokenBridge (uc_TargetChainID r)
    (uc_NewContract r).

(** [EvmChainID.Bytes32()] is the integer on 32 bytes, big-endian. *)
Definition BodyRecoverChainId_Serialize (r : BodyRecoverChainId) : panics (list byte) :=
  match LeftPadBytes (rci_Module r) 32 with
  | Panic v => Panic v
  | Returned buf =>
      let action := if String.eqb (rci_Module r) "Core"
                    then ActionCoreRecoverChainId
                    else ActionTokenBridgeRecoverChainId in
      Returned (buf
                ++ BigEndian_put 1 action
                ++ BigEndian_put 32 (rci_EvmChainID r)
                ++ BigEndian_put 2 (rci_NewChainID r))
  end.

Definition BodyWormholeRelayerSetDefaultDeliveryProvider_Serialize
    (r : BodyWormholeRelayerSetDefaultDeliveryProvider) : panics (list byte) :=
  serializeBridgeGovernanceVaa WormholeRelayerModuleStr
    WormholeRelayerSetDefaultDeliveryProvider (dp_ChainID r)
    (dp_NewDefaultDeliveryProviderAddress r).

Definition EmptyPayloadVaa (module : string) (actionId chainId : Z) : panics (list byte) :=
  serializeBridgeGovernanceVaa module actionId chainId [].

(** The ranges Go's types give a guardian set update: the index is a
    [uint32] and a key is 20 bytes. *)
Definition wf_BodyGuardianSetUpdate (b : BodyGuardianSetUpdate) : Prop :=
  0 <= NewIndex b < 2 ^ 32 /\ Forall (fun k => length k = 20%nat) (Keys b).

(** [hex.EncodeToString] of what a serializer returns, as the tests compare
    it. *)
Definition hex_of (r : panics (list byte)) : panics string :=
  match r with
  | Returned b => Returned (hex_EncodeToString b)
  | Panic v => Panic v
  end.

(** The values of the serializer tests. *)
Definition addr : list byte := replicate 31 Byte.x00 ++ [Byte.x04].

Definition test_keys : list (list byte) :=
  [unhex "5aaeb6053f3e94c9b9a09f33669435e7ef1beaed";
   unhex "5aaeb6053f3e94c9b9a09f33669435e7ef1beaee"].

End Vaa.

(** * The processor's governor tick (package [processor]) *)

Module Processor.

(** What the [govTimer] case of [Processor.Run] calls: the governor and
    [handleMessage], which are not among the sources. *)
Class Handlers : Type := {
  MessagePublication : Type;
  MessageIDString : MessagePublication -> string;
  ChainGovernor : Type;
  CheckPending : ChainGovernor -> ChainGovernor * result (list MessagePublication);
  IsGovernedMsg : ChainGovernor -> MessagePublication -> result bool;
  aggregationState : Type;
  handleMessage : MessagePublication -> aggregationState -> aggregationState
}.

Section Run.
Context {handlers : Handlers}.

(** The fields of [Processor] the case touches; [governor] may be nil. *)
Record Processor : Type := {
  governor : option ChainGovernor;
  state : aggregationState
}.

(** One pass of the [select] loop either goes round again or returns. *)
Inductive outcome : Type :=
| Continue (p : Processor)
| Return (p : Processor) (err : error).

(** [for _, k := range toBePublished { ... p.handleMessage(k) }]. *)
Fixpoint publishPending (g : ChainGovernor) (toBePublished : list MessagePublication)
    (st : aggregationState) : aggregationState * option error :=
  match toBePublished with
  | [] => (st, None)
  | k :: rest =>
      match IsGovernedMsg g k with
      | Err err =>
          (st, Some (Wrapf "governor failed to determine if message should be governed: `%s`: %w"
                       [ArgStr (MessageIDString k)] err))
      | Ok false =>
          (st, Some (Errorf "governor published a message that should not be governed: `%s`"
                       [ArgStr (MessageIDString k)]))
      | Ok true => publishPending g rest (handleMessage k st)
      end
  end.

(** [case <-govTimer.C:]. *)
Definition govTimerCase (p : Processor) : outcome :=
  match governor p with
  | None => Continue p
  | Some g =>
      match CheckPending g with
      | (g', Err err) => Return {| governor := Some g'; state := state p |} err
      | (g', Ok toBePublished) =>
          match publishPending g' toBePublished (state p) with
          | (st', Some err) => Return {| governor := Some g'; state := st' |} err
          | (st', None) => Continue {| governor := Some g'; state := st' |}
          end
      end
  end.

(** The state after [handleMessage] was called on each of [ks] in turn. *)
Definition handled (ks : list MessagePublication) (st : aggregationState) : aggregationState :=
  fold_left (fun s k => handleMessage k s) ks st.

(** The re-check passes for [k]. *)
Definition governed (g : ChainGovernor) (k : MessagePublication) : Prop :=
  IsGovernedMsg g k = Ok true.

End Run.
(** ** A small instance

    Messages are numbers; the governor holds its pending list and releases
    all of it; it governs the messages below 100 and fails on negative ones;
    handling a message appends it to the state. *)
Definition small_handlers : Handlers := {|
  MessagePublication := Z;
  MessageIDString := fun _ => "message"%string;
  ChainGovernor := list Z;
  CheckPending := fun g => ([], Ok g);
  IsGovernedMsg := fun _ k => if k <? 0 then Err (errors_New "cannot parse")
                              else Ok (k <? 100);
  aggregationState := list Z;
  handleMessage := fun k st => st ++ [k]
|}.

(** A processor whose governor holds [pending] and which has handled the
    messages [done]. *)
Definition small_processor (pending done : list Z) : @Processor small_handlers :=
  @Build_Processor small_handlers (@Some (list Z) pending) done.

End Processor.

(** * The admin RPC service (package [adminrpc]) *)

Module AdminRpc.

(** ** [adminGuardianSetUpdateToVAA] *)

Record Guardian : Type := {
  Pubkey : string;
  Name : string
}.

Record GuardianSetUpdate : Type := {
  Guardians : list Guardian
}.

(** What the function takes from other packages: [common.MaxGuardianCount],
    go-ethereum's [IsHexAddress] and [HexToAddress] (an address is 20 bytes)
    and the SDK's [vaa.CreateGovernanceVAA]. *)
Class Deps : Type := {
  MaxGuardianCount : Z;
  IsHexAddress : string -> bool;
  HexToAddress : string -> list byte;
  VAA : Type;
  CreateGovernanceVAA : Z -> Z -> Z -> Z -> list byte -> VAA
}.

Section GuardianSetUpdate.
Context {deps : Deps}.

(** [for j, pk := range addrs { if pk == ethAddr { ... } }]: the index of the
    first entry equal to [ethAddr]. *)
Fixpoint find_duplicate (j : Z) (addrs : list (list byte)) (ethAddr : list byte) : option Z :=
  match addrs with
  | [] => None
  | pk :: rest => if bytes_Equal pk ethAddr then Some j
                  else find_duplicate (j + 1) rest ethAddr
  end.

(** The loop over [req.Guardians]; [addrs] starts as [len(req.Guardians)]
    zero addresses and entry [i] is written when guardian [i] passes. *)
Fixpoint convert_guardians (i : nat) (guardians : list Guardian) (addrs : list (list byte))
  : result (list (list byte)) :=
  match guardians with
  | [] => Ok addrs
  | g :: rest =>
      if negb (IsHexAddress (Pubkey g))
      then Err (Errorf "invalid pubkey format at index %d (%s)"
                  [ArgInt (Z.of_nat i); ArgStr (Name g)])
      else
        let ethAddr := HexToAddress (Pubkey g) in
        match find_duplicate 0 addrs ethAddr with
        | Some j => Err (Errorf "duplicate pubkey at index %d (duplicate of %d): %s"
                           [ArgInt (Z.of_nat i); ArgInt j; ArgStr (Name g)])
        | None => convert_guardians (S i) rest (<[i := ethAddr]> addrs)
        end
  end.

Definition adminGuardianSetUpdateToVAA (req : GuardianSetUpdate)
    (timestamp guardianSetIndex nonce sequence : Z) : result VAA :=
  if len (Guardians req) =? 0
  then Err (errors_New "empty guardian set specified")
  else if MaxGuardianCount <? len (Guardians req)
  then Err (Errorf "too many guardians - %d, maximum is %d"
              [ArgInt (len (Guardians req)); ArgInt MaxGuardianCount])
  else
    match convert_guardians 0 (Guardians req)
            (replicate (length (Guardians req)) (replicate 20 Byte.x00)) with
    | Err e => Err e
    | Ok addrs =>
        Ok (CreateGovernanceVAA timestamp nonce sequence guardianSetIndex
              (Vaa.BodyGuardianSetUpdate_Serialize
                 {| Vaa.Keys := addrs; Vaa.NewIndex := uint32 (guardianSetIndex + 1) |}))
    end.

End GuardianSetUpdate.

(** ** [fetchMissing] and [FindMissingMessages] *)

(** The URL [fmt.Sprintf("%s/v1/signed_vaa/%d/%s/%d", node, chain, addr, seq)],
    kept as its four operands. *)
Definition url : Type := string * Z * string * Z.

(** What [c.Do(req)] gives when the context's deadline does not interfere:
    an error, or a response with a status code and a body. *)
Inductive reply : Type :=
| NoResponse (err : error)
| Response (StatusCode : Z) (Body : list byte).

(** The surroundings of the service: the random source of [rand.Shuffle],
    [http.NewRequestWithContext] (which rejects a malformed URL), the
    network (for each URL the time in nanoseconds until the exchange is
    over, and its result), the JSON decoding of a body into its [vaaBytes]
    field, [base64.StdEncoding.DecodeString] and the store's
    [FindEmitterSequenceGap] (missing ids, first and last sequence). *)
Class World : Type := {
  rng : Type;
  rand_Shuffle : rng -> list string -> rng * list string;
  http_NewRequest : url -> option error;
  roundTrip : url -> Z * reply;
  json_Decode : list byte -> result string;
  base64_DecodeString : string -> result (list byte);
  FindEmitterSequenceGap : Z -> list byte -> result (list Z * Z * Z)
}.

Section Backfill.
Context {world : World}.

(** The parts of the service and of its surroundings that the two functions
    change: the random source, the VAAs sent on [signedInC] and, to observe
    which nodes were asked, the URLs requested, both oldest first. *)
Record service : Type := {
  rand : rng;
  signedInC : list (list byte);
  requested : list url
}.

Definition http_StatusOK : Z := 200.
Definition http_StatusNotFound : Z := 404.

(** [time.Second], in nanoseconds. *)
Definition time_Second : Z := 1000000000.

(** [c.Do(req)] for a request made [elapsed] nanoseconds after the context
    with its deadline of [time.Second] was created: when the exchange would
    last until the deadline or longer, the call fails at the deadline. *)
Definition client_Do (elapsed : Z) (u : url) : reply * Z :=
  let '(latency, r) := roundTrip u in
  if time_Second <=? elapsed + latency
  then (NoResponse DeadlineExceeded, Z.max elapsed time_Second)
  else (r, elapsed + latency).

(** [for _, node := range nodes { ... }] of [fetchMissing]. *)
Fixpoint tryNodes (nodes : list string) (chain : Z) (addr : string) (seq : Z)
    (elapsed : Z) (s : service) : service * result bool :=
  match nodes with
  | [] => (s, Ok false)
  | node :: rest =>
      let u : url := (node, chain, addr, seq) in
      match http_NewRequest u with
      | Some err => (s, Err (Wrapf "failed to create request: %w" [] err))
      | None =>
          let '(r, elapsed') := client_Do elapsed u in
          let s' := {| rand := rand s; signedInC := signedInC s;
                       requested := requested s ++ [u] |} in
          match r with
          | NoResponse _ => tryNodes rest chain addr seq elapsed' s'
          | Response StatusCode Body =>
              if StatusCode =? http_StatusNotFound
              then tryNodes rest chain addr seq elapsed' s'
              else if StatusCode =? http_StatusOK
              then match json_Decode Body with
                   | Err _ => tryNodes rest chain addr seq elapsed' s'
                   | Ok VaaBytes =>
                       match base64_DecodeString VaaBytes with
                       | Err _ => tryNodes rest chain addr seq elapsed' s'
                       | Ok vaaBytes =>
                           ({| rand := rand s'; signedInC := signedInC s' ++ [vaaBytes];
                               requested := requested s' |}, Ok true)
                       end
                   end
              else (s', Err (Errorf "unexpected response status: %d" [ArgInt StatusCode]))
          end
      end
  end.

(** [fetchMissing]: the shuffle permutes the caller's slice in place, so the
    new order is returned with the result. *)
Definition fetchMissing (nodes : list string) (chain : Z) (addr : string) (seq : Z)
    (s : service) : service * list string * result bool :=
  let '(rand', nodes') := rand_Shuffle (rand s) nodes in
  let s' := {| rand := rand'; signedInC := signedInC s; requested := requested s |} in
  let '(s'', r) := tryNodes nodes' chain addr seq 0 s' in
  (s'', nodes', r).

Record FindMissingMessagesRequest : Type := {
  EmitterChain : Z;
  EmitterAddress : string;
  RpcBackfill : bool;
  BackfillNodes : list string
}.

(** [MissingMessages] holds the operands of ["%d/%s/%d"]. *)
Record FindMissingMessagesResponse : Type := {
  MissingMessages : list (Z * string * Z);
  FirstSequence : Z;
  LastSequence : Z
}.

(** [status.Errorf(code, format + ": %v", err)]. *)
Definition status_Errorf (code fmt : string) (err : error) : error :=
  Wrapf fmt [ArgStr code] err.

(** [for _, id := range ids { ... }] of [FindMissingMessages]. *)
Fixpoint backfill (ids : list Z) (nodes : list string) (chain : Z) (addr : string)
    (unfilled : list Z) (s : service) : service * result (list Z) :=
  match ids with
  | [] => (s, Ok unfilled)
  | id :: rest =>
      match fetchMissing nodes chain addr id s with
      | (s', _, Err err) =>
          (s', Err (status_Errorf "Internal" "failed to backfill VAA: %v" err))
      | (s', nodes', Ok true) => backfill rest nodes' chain addr unfilled s'
      | (s', nodes', Ok false) => backfill rest nodes' chain addr (unfilled ++ [id]) s'
      end
  end.

(** [copy(emitterAddress[:], b)] into a zeroed [vaa.Address]. *)
Definition to_Address (b : list byte) : list byte :=
  take 32 b ++ replicate (32 - length b) Byte.x00.

(** [req.EmitterChain] is a [uint32]: the store and the nodes are asked for
    [vaa.ChainID(req.EmitterChain)], its low 16 bits, while the messages of
    the response print [req.EmitterChain] itself. *)
Definition FindMissingMessages (req : FindMissingMessagesRequest) (s : service)
  : service * result FindMissingMessagesResponse :=
  match hex_DecodeString (EmitterAddress req) with
  | None => (s, Err (Errorf "invalid emitter address encoding: %v" [ArgStr "InvalidArgument"]))
  | Some b =>
      let emitterAddress := to_Address b in
      match FindEmitterSequenceGap (uint16 (EmitterChain req)) emitterAddress with
      | Err err => (s, Err (status_Errorf "Internal" "database operation failed: %v" err))
      | Ok (ids, first, last) =>
          let emitter := hex_EncodeToString emitterAddress in
          let '(s', r) :=
            if RpcBackfill req
            then backfill ids (BackfillNodes req) (uint16 (EmitterChain req)) emitter [] s
            else (s, Ok ids) in
          match r with
          | Err err => (s', Err err)
          | Ok ids' =>
              (s', Ok {| MissingMessages := map (fun v => (EmitterChain req, emitter, v)) ids';
                         FirstSequence := first;
                         LastSequence := last |})
          end
      end
  end.

(** ** Notions the statements about the backfill use *)

(** What a reply makes the loop of [fetchMissing] do. *)
Inductive verdict : Type :=
| TryNext
| Filled (vaaBytes : list byte)
| Abort (StatusCode : Z).

Definition classify (r : reply) : verdict :=
  match r with
  | NoResponse _ => TryNext
  | Response StatusCode Body =>
      if StatusCode =? 404 then TryNext
      else if StatusCode =? 200
      then match json_Decode Body with
           | Err _ => TryNext
           | Ok VaaBytes =>
               match base64_DecodeString VaaBytes with
               | Err _ => TryNext
               | Ok vaaBytes => Filled vaaBytes
               end
           end
      else Abort StatusCode
  end.

Definition log_request (s : service) (u : url) : service :=
  {| rand := rand s; signedInC := signedInC s; requested := requested s ++ [u] |}.

Definition send_vaa (s : service) (vaaBytes : list byte) : service :=
  {| rand := rand s; signedInC := signedInC s ++ [vaaBytes]; requested := requested s |}.

Definition urls (nodes : list string) (chain : Z) (addr : string) (seq : Z) : list url :=
  map (fun node => (node, chain, addr, seq)) nodes.

(** A status the loop has a case for. *)
Definition expected_status (r : reply) : Prop :=
  match r with
  | NoResponse _ => True
  | Response StatusCode _ => StatusCode = 200 \/ StatusCode = 404
  end.

(** The clock once the nodes of a list were asked in turn, the first of
    them at [elapsed]. *)
Fixpoint elapsed_after (nodes : list string) (chain : Z) (addr : string) (seq : Z)
    (elapsed : Z) : Z :=
  match nodes with
  | [] => elapsed
  | node :: rest =>
      elapsed_after rest chain addr seq (client_Do elapsed (node, chain, addr, seq)).2
  end.

(** Every node of a list, asked in turn from [elapsed], makes the loop go
    on: its request can be created and its reply says to try the next. *)
Fixpoint passed_over (nodes : list string) (chain : Z) (addr : string) (seq : Z)
    (elapsed : Z) : Prop :=
  match nodes with
  | [] => True
  | node :: rest =>
      http_NewRequest (node, chain, addr, seq) = None /\
      classify (client_Do elapsed (node, chain, addr, seq)).1 = TryNext /\
      passed_over rest chain addr seq (client_Do elapsed (node, chain, addr, seq)).2
  end.

(** The service once the nodes of a list were asked and these VAAs sent. *)
Definition after_pass (s : service) (asked : list url) (sent : list (list byte)) : service :=
  {| rand := rand s; signedInC := signedInC s ++ sent; requested := requested s ++ asked |}.

End Backfill.
(** ** The converters of the other governance messages *)

Record ContractUpgrade : Type := {
  cu_ChainId : Z;
  cu_NewContract : string
}.

Record BridgeRegisterChain : Type := {
  brc_Module : string;
  brc_ChainId : Z;
  brc_EmitterAddress : string
}.

Record BridgeUpgradeContract : Type := {
  buc_Module : string;
  buc_TargetChainId : Z;
  buc_NewContract : string
}.

Record WormholeRelayerSetDefaultDeliveryProvider : Type := {
  sdp_ChainId : Z;
  sdp_NewDefaultDeliveryProviderAddress : string
}.

Definition MaxUint16 : Z := 65535.

Section Converters.
Context {deps : Deps}.

Definition adminContractUpgradeToVAA (req : ContractUpgrade)
    (timestamp guardianSetIndex nonce sequence : Z) : result VAA :=
  match hex_DecodeString (cu_NewContract req) with
  | None => Err (errors_New "invalid new contract address encoding (expected hex)")
  | Some b =>
      if negb (length b =? 32)%nat
      then Err (errors_New "invalid new_contract address")
      else if MaxUint16 <? cu_ChainId req
      then Err (errors_New "invalid chain_id")
      else
        Ok (CreateGovernanceVAA timestamp nonce sequence guardianSetIndex
              (Vaa.BodyContractUpgrade_Serialize
                 {| Vaa.ChainID := uint16 (cu_ChainId req);
                    Vaa.NewContract := to_Address b |}))
  end.

(** The serializer pads [req.Module] and panics when it is too long; the
    converter does not recover. *)
Definition tokenBridgeRegisterChain (req : BridgeRegisterChain)
    (timestamp guardianSetIndex nonce sequence : Z) : panics (result VAA) :=
  if MaxUint16 <? brc_ChainId req
  then Returned (Err (errors_New "invalid chain_id"))
  else
    match hex_DecodeString (brc_EmitterAddress req) with
    | None => Returned (Err (errors_New "invalid emitter address encoding (expected hex)"))
    | Some b =>
        if negb (length b =? 32)%nat
        then Returned (Err (errors_New "invalid emitter address (expected 32 bytes)"))
        else
          match Vaa.BodyTokenBridgeRegisterChain_Serialize
                  {| Vaa.rc_Module := brc_Module req;
                     Vaa.rc_ChainID := uint16 (brc_ChainId req);
                     Vaa.rc_EmitterAddress := to_Address b |} with
          | Panic v => Panic v
          | Returned payload =>
              Returned (Ok (CreateGovernanceVAA timestamp nonce sequence guardianSetIndex
                              payload))
          end
    end.

Definition tokenBridgeUpgradeContract (req : BridgeUpgradeContract)
    (timestamp guardianSetIndex nonce sequence : Z) : panics (result VAA) :=
  if MaxUint16 <? buc_TargetChainId req
  then Returned (Err (errors_New "invalid target_chain_id"))
  else
    match hex_DecodeString (buc_NewContract req) with
    | None => Returned (Err (errors_New "invalid new contract address (expected hex)"))
    | Some b =>
        if negb (length b =? 32)%nat
        then Returned (Err (errors_New "invalid new contract address (expected 32 bytes)"))
        else
          match Vaa.BodyTokenBridgeUpgradeContract_Serialize
                  {| Vaa.uc_Module := buc_Module req;
                     Vaa.uc_TargetChainID := uint16 (buc_TargetChainId req);
                     Vaa.uc_NewContract := to_Address b |} with
          | Panic v => Panic v
          | Returned payload =>
              Returned (Ok (CreateGovernanceVAA timestamp nonce sequence guardianSetIndex
                              payload))
          end
    end.

Definition wormholeRelayerSetDefaultDeliveryProvider
    (req : WormholeRelayerSetDefaultDeliveryProvider)
    (timestamp guardianSetIndex nonce sequence : Z) : panics (result VAA) :=
  if MaxUint16 <? sdp_ChainId req
  then Returned (Err (errors_New "invalid target_chain_id"))
  else
    match hex_DecodeString (sdp_NewDefaultDeliveryProviderAddress req) with
    | None =>
        Returned (Err (errors_New
                         "invalid new default delivery provider address (expected hex)"))
    | Some b =>
        if negb (length b =? 32)%nat
        then Returned (Err (errors_New
                              "invalid new default delivery provider address (expected 32 bytes)"))
        else
          match Vaa.BodyWormholeRelayerSetDefaultDeliveryProvider_Serialize
                  {| Vaa.dp_ChainID := uint16 (sdp_ChainId req);
                     Vaa.dp_NewDefaultDeliveryProviderAddress := to_Address b |} with
          | Panic v => Panic v
          | Returned payload =>
              Returned (Ok (CreateGovernanceVAA timestamp nonce sequence guardianSetIndex
                              payload))
          end
    end.

(** ** Notions the statements about the converters use *)

(** The zero [common.Address]. *)
Definition zero_address : list byte := replicate 20 Byte.x00.

(** The addresses of the guardians of a request, in order. *)
Definition guardian_addresses (guardians : list Guardian) : list (list byte) :=
  map (fun g => HexToAddress (Pubkey g)) guardians.

(** What [adminGuardianSetUpdateToVAA] asks of a request. *)
Definition guardian_set_ok (req : GuardianSetUpdate) : Prop :=
  1 <= len (Guardians req) <= MaxGuardianCount /\
  Forall (fun g => IsHexAddress (Pubkey g) = true) (Guardians req) /\
  NoDup (guardian_addresses (Guardians req)) /\
  zero_address ∉ guardian_addresses (Guardians req).

End Converters.

(** A hexadecimal digit, in either case. *)
Definition is_hex_digit (c : Ascii.ascii) : Prop := hex_value c <> None.

(** A string of exactly [2 * n] hexadecimal digits. *)
Definition hex_of_length (n : nat) (s : string) : Prop :=
  String.length s = (2 * n)%nat /\ Forall is_hex_digit (String.list_ascii_of_string s).

(** ** Small worlds

    Two nodes: ["a"] answers after [latency_a] nanoseconds with the status
    [status_a] and an empty body, ["b"] after a millisecond with 200 and a
    body that decodes to one byte; the shuffle reverses the list; the gap is
    sequence 7 between 5 and 9. *)
Definition two_nodes (latency_a status_a : Z) : World := {|
  rng := unit;
  rand_Shuffle := fun r nodes => (r, rev nodes);
  http_NewRequest := fun _ => None;
  roundTrip := fun u => if String.eqb u.1.1.1 "a" then (latency_a, Response status_a [])
                        else (1000000, Response 200 [Byte.x7b]);
  json_Decode := fun body => match body with
                             | [] => Err (errors_New "EOF")
                             | _ => Ok "AQ=="%string
                             end;
  base64_DecodeString := fun _ => Ok [Byte.x01];
  FindEmitterSequenceGap := fun _ _ => Ok ([7], 5, 9)
|}.

(** The service in such a world, given what it has sent and requested. *)
Definition service_of (latency_a status_a : Z) (sent : list (list byte)) (urls : list url)
  : @service (two_nodes latency_a status_a) :=
  @Build_service (two_nodes latency_a status_a) tt sent urls.

Definition emitter_04 : string :=
  "0000000000000000000000000000000000000000000000000000000000000004".

Definition backfill_request : FindMissingMessagesRequest := {|
  EmitterChain := 1;
  EmitterAddress := emitter_04;
  RpcBackfill := true;
  BackfillNodes := ["b"; "a"]%string
|}.

End AdminRpc.

(** * The signed-VAA store (package [db]) *)

#[global] Instance byte_eq_dec : EqDecision byte := Byte.byte_eq_dec.

#[global] Program Instance byte_countable : Countable byte :=
  inj_countable' Byte.to_N (fun n => default Byte.x00 (Byte.of_N n)) _.
Next Obligation. intros b. simpl. now rewrite Byte.of_to_N. Qed.

Module Db.

(** The fields of a VAA that the store and the purge tests use; [Timestamp]
    is in seconds since the epoch. *)
Record VAA : Type := {
  Version : Z;
  GuardianSetIndex : Z;
  Timestamp : Z;
  Nonce : Z;
  Sequence : Z;
  ConsistencyLevel : Z;
  EmitterChain : Z;
  EmitterAddress : list byte;
  Payload : list byte
}.

#[global] Instance VAA_eq_dec : EqDecision VAA.
Proof. solve_decision. Defined.

(** Modelled from the spec: the store key [VAAID], the triple of emitter
    chain, 32-byte emitter address and sequence; its declaration is not
    among the sources. *)
Definition VAAID : Type := Z * list byte * Z.

Definition VaaIDFromVAA (v : VAA) : VAAID :=
  (EmitterChain v, EmitterAddress v, Sequence v).

(** Modelled from the spec: the database, a key-value store from [VAAID] to
    the stored VAA.  The spec stores the marshaled VAA and decodes it where
    a field is needed; the model keeps the VAA itself. *)
Abbreviation Database := (gmap VAAID VAA).

(** Modelled from the spec: [StoreSignedVAA], the idempotent put of a VAA
    under its key; the function is not among the sources. *)
Definition StoreSignedVAA (v : VAA) (db : Database) : Database :=
  <[VaaIDFromVAA v := v]> db.

Definition zeroAddress : list byte := replicate 32 Byte.x00.

(** A key lies in a prefix when it has the prefix's chain and address.  The
    purge tests pass a prefix with a chain and the zero address to purge the
    VAAs of every emitter of that chain, so the zero address stands for any
    address. *)
Definition in_prefix (prefix k : VAAID) : Prop :=
  k.1.1 = prefix.1.1 /\ (prefix.1.2 = zeroAddress \/ k.1.2 = prefix.1.2).

#[global] Instance in_prefix_dec (prefix k : VAAID) : Decision (in_prefix prefix k).
Proof. unfold in_prefix. apply _. Defined.

(** [v.Timestamp.Before(oldestTime)] for an entry in the prefix. *)
Definition purgeable (prefix : VAAID) (oldestTime : Z) (kv : VAAID * VAA) : Prop :=
  in_prefix prefix kv.1 /\ Timestamp kv.2 < oldestTime.

#[global] Instance purgeable_dec (prefix : VAAID) (oldestTime : Z) (kv : VAAID * VAA) :
  Decision (purgeable prefix oldestTime kv).
Proof. unfold purgeable. apply _. Defined.

(** Modelled from the spec: [PurgeVaas], which is not among the sources
    (its tests are): "delete (or count) all keys in the prefix whose stored
    VAA's timestamp is strictly before older_than".  The result is the
    database afterwards and the number of entries deleted (with [logOnly],
    the number that would be). *)
Definition PurgeVaas (prefix : VAAID) (oldestTime : Z) (logOnly : bool) (db : Database)
  : Database * nat :=
  (if logOnly then db else filter (fun kv => ~ purgeable prefix oldestTime kv) db,
   size (filter (purgeable prefix oldestTime) db)).

(** ** The database of [TestPurgingVAAsForOneEmitterAddress] *)

Definition ChainIDSolana : Z := 1.
Definition payload : list byte := replicate 6 Byte.x61.
Definition SolanaEmitterAddress1 : list byte := replicate 31 Byte.x00 ++ [Byte.x01].
Definition SolanaEmitterAddress2 : list byte := replicate 31 Byte.x00 ++ [Byte.x02].

Definition testVAA (timeStamp : Z) (emitterAddress : list byte) (seqNum : Z) : VAA :=
  {| Version := 1; GuardianSetIndex := 1; Timestamp := timeStamp; Nonce := 1;
     Sequence := seqNum; ConsistencyLevel := 32; EmitterChain := ChainIDSolana;
     EmitterAddress := emitterAddress; Payload := payload |}.

(** [count] rounds of the test's loop: a VAA for each emitter, then
    [solanaSeqNum++]. *)
Fixpoint storeVAAs (count : nat) (timeStamp solanaSeqNum : Z) (db : Database) : Database :=
  match count with
  | O => db
  | S count' =>
      storeVAAs count' timeStamp (solanaSeqNum + 1)
        (StoreSignedVAA (testVAA timeStamp SolanaEmitterAddress2 solanaSeqNum)
           (StoreSignedVAA (testVAA timeStamp SolanaEmitterAddress1 solanaSeqNum) db))
  end.

(** [count] VAAs of the first emitter alone. *)
Fixpoint storeVAAs1 (count : nat) (timeStamp solanaSeqNum : Z) (db : Database) : Database :=
  match count with
  | O => db
  | S count' =>
      storeVAAs1 count' timeStamp (solanaSeqNum + 1)
        (StoreSignedVAA (testVAA timeStamp SolanaEmitterAddress1 solanaSeqNum) db)
  end.

Definition hour : Z := 3600.

(** Fifty VAAs per emitter from 73 hours before [now], then seventy-five
    from 71 hours before. *)
Definition testDatabase (now : Z) : Database :=
  storeVAAs 75 (now - (3 * 24 - 1) * hour) 10050
    (storeVAAs 50 (now - (3 * 24 + 1) * hour) 10000 ∅).

Definition test_now : Z := 1700000000.

End Db.

(** * Proofs *)

(** ** Bytes *)

Lemma Z_of_byte_of_Z (z : Z) : Z_of_byte (byte_of_Z z) = z mod 256.
Proof.
  unfold Z_of_byte, byte_of_Z.
  pose proof (Z.mod_pos_bound z 256 eq_refl) as Hb.
  destruct (Byte.of_N (Z.to_N (z mod 256))) as [b|] eqn:E; simpl.
  - apply Byte.to_of_N in E. rewrite E. lia.
  - apply Byte.of_N_None_iff in E. lia.
Qed.

Lemma BigEndian_put_length (n : nat) (v : Z) : length (BigEndian_put n v) = n.
Proof. induction n; simpl; congruence. Qed.

Lemma BigEndian_get_acc (bs : list byte) (acc : Z) :
  fold_left (fun a b => a * 256 + Z_of_byte b) bs acc
  = acc * 256 ^ Z.of_nat (length bs) + BigEndian_get bs.
Proof.
  unfold BigEndian_get. revert acc.
  induction bs as [|b bs IH]; intros acc; simpl fold_left.
  - simpl. lia.
  - rewrite IH. rewrite (IH (0 * 256 + Z_of_byte b)).
    rewrite length_cons, Nat2Z.inj_succ, Z.pow_succ_r by lia. lia.
Qed.

Lemma BigEndian_get_put (n : nat) (v : Z) :
  BigEndian_get (BigEndian_put n v) = v mod 256 ^ Z.of_nat n.
Proof.
  induction n as [|n IH].
  - simpl. now rewrite Z.mod_1_r.
  - cbn [BigEndian_put]. unfold BigEndian_get. cbn [fold_left].
    rewrite BigEndian_get_acc, IH, BigEndian_put_length, Z_of_byte_of_Z.
    rewrite Z.shiftr_div_pow2 by lia.
    rewrite Nat2Z.inj_succ, Z.pow_succ_r by lia.
    replace (2 ^ (8 * Z.of_nat n)) with (256 ^ Z.of_nat n)
      by (rewrite Z.pow_mul_r by lia; reflexivity).
    assert (0 < 256 ^ Z.of_nat n) by (apply Z.pow_pos_nonneg; lia).
    rewrite (Z.mul_comm 256), Z.rem_mul_r by lia. lia.
Qed.

Lemma bytes_Equal_refl (a : list byte) : bytes_Equal a a = true.
Proof.
  induction a as [|x a IH]; simpl; [reflexivity|].
  rewrite IH, (Byte.byte_dec_lb eq_refl). reflexivity.
Qed.

(** ** Reader steps on a marshaled prefix *)

Lemma binary_Read_put (n : nat) (v : Z) (rest : list byte) :
  n <> O -> binary_Read n (BigEndian_put n v ++ rest) = Ok (v mod 256 ^ Z.of_nat n, rest).
Proof.
  intros Hn. unfold binary_Read.
  pose proof (BigEndian_put_length n v) as Hl.
  destruct (BigEndian_put n v ++ rest) as [|b l] eqn:E.
  - apply (f_equal length) in E. rewrite length_app, Hl in E. simpl in E. lia.
  - rewrite <- E. case_decide as Hlt.
    + rewrite length_app, Hl in Hlt. lia.
    + rewrite take_app_length' by (symmetry; exact Hl).
      rewrite drop_app_length' by (symmetry; exact Hl).
      now rewrite BigEndian_get_put.
Qed.

Lemma bind_wrap_binary_Read {B} (msg : string) (n : nat) (v : Z)
    (f : Z -> Reader B) (rest : list byte) :
  n <> O ->
  bind (wrap msg (binary_Read n)) f (BigEndian_put n v ++ rest)
  = f (v mod 256 ^ Z.of_nat n) rest.
Proof. intros Hn. unfold bind, wrap. now rewrite binary_Read_put. Qed.

Lemma read_exact_app (msg : string) (bs rest : list byte) :
  bs <> [] -> read_exact msg (length bs) (bs ++ rest) = Ok (bs, rest).
Proof.
  intros Hne. unfold read_exact, Reader_Read.
  destruct (bs ++ rest) as [|b l] eqn:E.
  - destruct bs; [congruence | discriminate].
  - rewrite <- E. rewrite take_app_length, drop_app_length.
    case_decide as Hd; [|reflexivity].
    rewrite length_app in Hd. lia.
Qed.

Lemma bind_read_exact {B} (msg : string) (n : nat) (bs rest : list byte)
    (f : list byte -> Reader B) :
  length bs = n -> n <> O ->
  bind (read_exact msg n) f (bs ++ rest) = f bs rest.
Proof.
  intros <- Hn. unfold bind. rewrite read_exact_app; [reflexivity|].
  destruct bs; [simpl in Hn; lia | discriminate].
Qed.

Lemma read_loop_concat {A} (p : Reader A) (xs acc : list A) (bss : list (list byte))
    (rest : list byte) :
  Forall2 (fun x bs => forall r, p (bs ++ r) = Ok (x, r)) xs bss ->
  read_loop (length xs) p acc (concat bss ++ rest) = Ok (acc ++ xs, rest).
Proof.
  intros H. revert acc. induction H as [|x bs xs bss Hx _ IH]; intros acc; simpl.
  - unfold ret. now rewrite app_nil_r.
  - unfold bind. rewrite <- app_assoc, Hx, IH, <- app_assoc. reflexivity.
Qed.

Lemma mod_small_uint (n : nat) (v : Z) :
  0 <= v < 2 ^ (8 * Z.of_nat n) -> v mod 256 ^ Z.of_nat n = v.
Proof.
  intros H. apply Z.mod_small.
  replace (256 ^ Z.of_nat n) with (2 ^ (8 * Z.of_nat n)); [exact H|].
  rewrite Z.pow_mul_r by lia. reflexivity.
Qed.

Lemma concat_length_bound {A} (k : nat) (l : list (list A)) :
  Forall (fun x => (length x <= k)%nat) l -> (length (concat l) <= length l * k)%nat.
Proof.
  induction 1 as [|x l Hx _ IH]; simpl; [lia|]. rewrite length_app. lia.
Qed.

(** ** What the validators accept *)


Section Validation.
Import Query.
Context {chains : ChainTable}.

Lemma validate_accounts_None (accts : list (list byte)) :
  validate_accounts accts = None <->
  Forall (fun a => length a = SolanaPublicKeyLength) accts.
Proof.
  induction accts as [|a accts IH]; simpl.
  - split; [constructor | reflexivity].
  - destruct (Nat.eqb_spec (length a) SolanaPublicKeyLength) as [E|E]; simpl.
    + rewrite IH. split; [now constructor | now inversion 1].
    + split; [discriminate | inversion 1; contradiction].
Qed.

Lemma commitment_check (c : string) :
  (SolanaMaxCommitmentLength <? String.length c)%nat = false /\
  String.eqb c "finalized" = true <-> commitment_ok c.
Proof.
  unfold commitment_ok, SolanaMaxCommitmentLength.
  rewrite Nat.ltb_ge, String.eqb_eq. reflexivity.
Qed.

Lemma data_slice_check (offset length : Z) :
  (length =? 0) && negb (offset =? 0) = false <-> data_slice_ok offset length.
Proof.
  unfold data_slice_ok.
  destruct (Z.eqb_spec length 0), (Z.eqb_spec offset 0); simpl; intuition congruence.
Qed.

Lemma SolanaAccountQueryRequest_Validate_None (saq : SolanaAccountQueryRequest) :
  SolanaAccountQueryRequest_Validate saq = None <->
  query_ok (SolAccount saq) /\
  Forall (fun a => length a = SolanaPublicKeyLength) (saq_Accounts saq).
Proof.
  unfold SolanaAccountQueryRequest_Validate. cbn [query_ok].
  rewrite <- commitment_check, <- data_slice_check, <- validate_accounts_None.
  unfold SolanaMaxAccountsPerQuery.
  destruct (_ <? String.length _)%nat; [intuition discriminate|].
  destruct (String.eqb _ _); simpl negb; cbv iota; [|intuition discriminate].
  destruct (_ && _); [intuition discriminate|].
  destruct (Nat.leb_spec (length (saq_Accounts saq)) 0);
    [split; [discriminate | intros (( _ & _ & ?) & _); lia]|].
  destruct (Nat.ltb_spec 100 (length (saq_Accounts saq)));
    [split; [discriminate | intros (( _ & _ & ?) & _); lia]|].
  intuition lia.
Qed.

Lemma validate_seeds_None (seeds : list (list byte)) :
  validate_seeds seeds = None <-> Forall seed_ok seeds.
Proof.
  unfold seed_ok, SolanaMaxSeedLen.
  induction seeds as [|s seeds IH]; simpl.
  - split; [constructor | reflexivity].
  - destruct (Nat.eqb_spec (length s) 0);
      [split; [discriminate | inversion 1; lia]|].
    unfold SolanaMaxSeedLen.
    destruct (Nat.ltb_spec 32 (length s));
      [split; [discriminate | inversion 1; lia]|].
    rewrite IH. split; [constructor; [lia|assumption] | now inversion 1].
Qed.

Lemma validate_pdas_None (pdas : list SolanaPDAEntry) :
  validate_pdas pdas = None <->
  Forall pda_ok pdas /\ Forall wf_SolanaPDAEntry pdas.
Proof.
  unfold pda_ok, wf_SolanaPDAEntry.
  induction pdas as [|p pdas IH]; simpl.
  - split; [split; constructor | reflexivity].
  - rewrite !Forall_cons.
    destruct (Nat.eqb_spec (length (ProgramAddress p)) SolanaPublicKeyLength);
      simpl; [|split; [discriminate | intros (_ & ? & _); contradiction]].
    destruct (Nat.eqb_spec (length (Seeds p)) 0);
      [split; [discriminate | intros (((? & _) & _) & _); lia]|].
    unfold SolanaMaxSeeds.
    destruct (Nat.ltb_spec 16 (length (Seeds p)));
      [split; [discriminate | intros (((? & _) & _) & _); lia]|].
    pose proof (validate_seeds_None (Seeds p)) as Hs.
    destruct (validate_seeds (Seeds p)).
    + split; [discriminate|]. intros (((_ & Hf) & _) & _).
      apply Hs in Hf. discriminate.
    + rewrite IH. destruct Hs as [Hs _]. specialize (Hs eq_refl).
      intuition lia.
Qed.

Lemma SolanaPdaQueryRequest_Validate_None (spda : SolanaPdaQueryRequest) :
  SolanaPdaQueryRequest_Validate spda = None <->
  query_ok (SolPda spda) /\ Forall wf_SolanaPDAEntry (spda_PDAs spda).
Proof.
  unfold SolanaPdaQueryRequest_Validate. cbn [query_ok].
  rewrite <- commitment_check, <- data_slice_check.
  unfold SolanaMaxAccountsPerQuery.
  destruct (_ <? String.length _)%nat; [intuition discriminate|].
  destruct (String.eqb _ _); simpl negb; cbv iota; [|intuition discriminate].
  destruct (_ && _); [intuition discriminate|].
  destruct (Nat.leb_spec (length (spda_PDAs spda)) 0);
    [split; [discriminate | intros (( _ & _ & ? & _) & _); lia]|].
  destruct (Nat.ltb_spec 100 (length (spda_PDAs spda)));
    [split; [discriminate | intros (( _ & _ & ? & _) & _); lia]|].
  rewrite validate_pdas_None. intuition lia.
Qed.

Lemma ChainSpecificQuery_Validate_None (q : ChainSpecificQuery) :
  wf_ChainSpecificQuery q ->
  ChainSpecificQuery_Validate q = None <-> query_ok q.
Proof.
  destruct q as [a|p]; simpl; intros Hwf.
  - rewrite SolanaAccountQueryRequest_Validate_None.
    destruct Hwf as (_ & _ & _ & Hlen). split; [now intros [? _] | now split].
  - rewrite SolanaPdaQueryRequest_Validate_None.
    destruct Hwf as (_ & _ & _ & Hlen). split; [now intros [? _] | now split].
Qed.

Lemma ChainSpecificQuery_Type_valid (q : ChainSpecificQuery) :
  ValidatePerChainQueryRequestType (ChainSpecificQuery_Type q) = None.
Proof. destruct q; reflexivity. Qed.

Lemma PerChainQueryRequest_Validate_None (p : PerChainQueryRequest) :
  wf_PerChainQueryRequest p ->
  PerChainQueryRequest_Validate p = None <-> per_chain_ok p.
Proof.
  intros [_ Hwf]. unfold PerChainQueryRequest_Validate, per_chain_ok, known_chain.
  destruct (ChainIDFromString _) as [c'|e];
    [|split; [discriminate | intros [[c' Hc] _]; discriminate]].
  destruct (Query p) as [q|];
    [|split; [discriminate | intros [_ (q & Hq & _)]; discriminate]].
  rewrite ChainSpecificQuery_Type_valid.
  pose proof (ChainSpecificQuery_Validate_None q Hwf) as Hq.
  destruct (ChainSpecificQuery_Validate q).
  - split; [discriminate|]. intros [_ (q' & [= <-] & _ & Hok)].
    apply Hq in Hok. discriminate.
  - split; [|reflexivity]. intros _. split; [eauto|].
    exists q. split; [reflexivity|]. split; [destruct q; auto | now apply Hq].
Qed.

Lemma validate_perChainQueries_None (pcqs : list PerChainQueryRequest) (idx : Z) :
  Forall wf_PerChainQueryRequest pcqs ->
  validate_perChainQueries idx pcqs = None <-> Forall per_chain_ok pcqs.
Proof.
  intros Hwf. revert idx. induction Hwf as [|p pcqs Hp _ IH]; intros idx; simpl.
  - split; [constructor | reflexivity].
  - pose proof (PerChainQueryRequest_Validate_None p Hp) as Hv.
    destruct (PerChainQueryRequest_Validate p).
    + split; [discriminate|]. inversion 1; subst.
      assert (Some e = None) by now apply Hv. discriminate.
    + rewrite IH, Forall_cons. intuition.
Qed.

(** C4.  For a request whose fields have the ranges and lengths of their Go
    types, [QueryRequest.Validate] (the validator [Marshal] and
    [UnmarshalFromReader] both call) returns nil exactly when: there are 1
    to 255 per-chain queries; each has a known chain id and a non-nil query
    of type 4 or 5; the commitment is at most 12 bytes and equals
    "finalized"; the data slice offset is zero when the data slice length
    is zero; there are 1 to 100 accounts or PDAs; every PDA has 1 to 16
    seeds of 1 to 32 bytes each. *)
Theorem ccq_validator_accepts_iff (q : QueryRequest) :
  wf_QueryRequest q ->
  QueryRequest_Validate q = None <-> request_ok q.
Proof.
  intros [_ Hwf]. unfold QueryRequest_Validate, request_ok, len, MaxUint8.
  destruct (Nat.leb_spec (length (PerChainQueries q)) 0);
    [split; [discriminate | intros [? _]; lia]|].
  destruct (Z.ltb_spec 255 (Z.of_nat (length (PerChainQueries q))));
    [split; [discriminate | intros [? _]; lia]|].
  rewrite validate_perChainQueries_None by exact Hwf.
  intuition lia.
Qed.
End Validation.

(** ** Round trip of the request codec *)

Section RoundTrip.
Import Query.
Context {chains : ChainTable}.

Ltac read_int :=
  rewrite <- ?app_assoc;
  rewrite bind_wrap_binary_Read by discriminate;
  rewrite ?mod_small_uint by (simpl; unfold is_uint in *; lia).

Local Opaque BigEndian_put.

Ltac fields :=
  cbn [saq_Commitment saq_MinContextSlot saq_DataSliceOffset saq_DataSliceLength
       saq_Accounts spda_Commitment spda_MinContextSlot spda_DataSliceOffset
       spda_DataSliceLength spda_PDAs ProgramAddress Seeds ChainId Query Nonce
       PerChainQueries query_ok] in *.

Lemma read_account (msg : string) (a r : list byte) :
  length a = SolanaPublicKeyLength ->
  read_exact msg SolanaPublicKeyLength (a ++ r) = Ok (a, r).
Proof.
  intros Hl. rewrite <- Hl. apply read_exact_app.
  destruct a; [discriminate Hl | discriminate].
Qed.

Lemma SolanaAccountQueryRequest_roundtrip (saq : SolanaAccountQueryRequest)
    (bs rest : list byte) :
  wf_SolanaAccountQueryRequest saq ->
  SolanaAccountQueryRequest_Marshal saq = Ok bs ->
  SolanaAccountQueryRequest_UnmarshalFromReader (bs ++ rest) = Ok (saq, rest).
Proof.
  intros (Hmin & Hoff & Hlen & Haccts). unfold SolanaAccountQueryRequest_Marshal.
  destruct (SolanaAccountQueryRequest_Validate saq) eqn:Hv; [discriminate|].
  intros [= <-].
  apply SolanaAccountQueryRequest_Validate_None in Hv as [([_ Hc] & _ & Hn) _].
  destruct saq as [c mn off ln accts]; fields. subst c.
  unfold SolanaAccountQueryRequest_UnmarshalFromReader.
  change (uint32 (strlen "finalized")) with 9. read_int.
  change (Z.of_nat SolanaMaxCommitmentLength <? 9) with false. cbv iota.
  rewrite <- ?app_assoc.
  rewrite bind_read_exact by (reflexivity || discriminate).
  do 3 read_int.
  unfold uint8, len. rewrite (Z.mod_small _ (2 ^ 8)) by lia.
  read_int. rewrite Nat2Z.id.
  unfold bind.
  rewrite (read_loop_concat _ accts [] accts rest).
  - unfold ret, string_of_bytes, bytes_of_string.
    now rewrite String.string_of_list_byte_of_string.
  - clear Hn. induction Haccts; constructor; [|assumption].
    intros r. now apply read_account.
Qed.

Lemma unmarshal_seed_marshal (seed r : list byte) :
  seed_ok seed -> unmarshal_seed (marshal_seed seed ++ r) = Ok (seed, r).
Proof.
  unfold seed_ok, unmarshal_seed, marshal_seed, uint32, len. intros Hs.
  rewrite (Z.mod_small _ (2 ^ 32)) by lia.
  read_int. rewrite Nat2Z.id.
  apply read_exact_app. destruct seed; [simpl in Hs; lia | discriminate].
Qed.

Lemma unmarshal_pda_marshal (pda : SolanaPDAEntry) (r : list byte) :
  wf_SolanaPDAEntry pda -> pda_ok pda ->
  unmarshal_pda (marshal_pda pda ++ r) = Ok (pda, r).
Proof.
  unfold wf_SolanaPDAEntry, pda_ok, unmarshal_pda, marshal_pda, uint8, len.
  destruct pda as [addr seeds]; fields. intros Hl [Hn Hseeds].
  rewrite <- ?app_assoc.
  rewrite bind_read_exact by (assumption || discriminate).
  rewrite (Z.mod_small _ (2 ^ 8)) by lia.
  read_int. rewrite Nat2Z.id.
  unfold bind.
  rewrite (read_loop_concat _ seeds [] (map marshal_seed seeds) r); [reflexivity|].
  clear Hn. induction Hseeds; constructor; [|assumption].
  intros r'. now apply unmarshal_seed_marshal.
Qed.

Lemma SolanaPdaQueryRequest_roundtrip (spda : SolanaPdaQueryRequest)
    (bs rest : list byte) :
  wf_SolanaPdaQueryRequest spda ->
  SolanaPdaQueryRequest_Marshal spda = Ok bs ->
  SolanaPdaQueryRequest_UnmarshalFromReader (bs ++ rest) = Ok (spda, rest).
Proof.
  intros (Hmin & Hoff & Hlen & Hwf). unfold SolanaPdaQueryRequest_Marshal.
  destruct (SolanaPdaQueryRequest_Validate spda) eqn:Hv; [discriminate|].
  intros [= <-].
  apply SolanaPdaQueryRequest_Validate_None in Hv as [([_ Hc] & _ & Hn & Hok) _].
  destruct spda as [c mn off ln pdas]; fields. subst c.
  unfold SolanaPdaQueryRequest_UnmarshalFromReader.
  change (uint32 (strlen "finalized")) with 9. read_int.
  change (Z.of_nat SolanaMaxCommitmentLength <? 9) with false. cbv iota.
  rewrite <- ?app_assoc.
  rewrite bind_read_exact by (reflexivity || discriminate).
  do 3 read_int.
  unfold uint8, len. rewrite (Z.mod_small _ (2 ^ 8)) by lia.
  read_int. rewrite Nat2Z.id.
  unfold bind.
  rewrite (read_loop_concat _ pdas [] (map marshal_pda pdas) rest).
  - unfold ret, string_of_bytes, bytes_of_string.
    now rewrite String.string_of_list_byte_of_string.
  - clear Hn. induction Hok as [|p pdas Hp _ IH]; constructor.
    + intros r. apply unmarshal_pda_marshal; [now inversion Hwf | assumption].
    + apply IH. now inversion Hwf.
Qed.

Lemma PerChainQueryRequest_roundtrip (p : PerChainQueryRequest) (bs rest : list byte) :
  wf_PerChainQueryRequest p ->
  PerChainQueryRequest_Marshal p = Ok bs ->
  PerChainQueryRequest_UnmarshalFromReader (bs ++ rest) = Ok (p, rest).
Proof.
  intros [Hchain Hwf]. unfold PerChainQueryRequest_Marshal.
  destruct (PerChainQueryRequest_Validate p); [discriminate|].
  destruct p as [c [q|]]; fields; [|discriminate].
  destruct (ChainSpecificQuery_Marshal q) as [queryBuf|] eqn:Hq; [|discriminate].
  destruct (MaxUint32 <? len queryBuf); [discriminate|].
  intros [= <-]. unfold PerChainQueryRequest_UnmarshalFromReader.
  read_int. rewrite <- ?app_assoc, bind_wrap_binary_Read by discriminate.
  destruct q as [a|pq]; cbn [ChainSpecificQuery_Type ChainSpecificQuery_Marshal
                               wf_ChainSpecificQuery] in *.
  - change (SolanaAccountQueryRequestType mod 256 ^ Z.of_nat 1) with 4.
    change (ValidatePerChainQueryRequestType 4) with (@None error). cbv iota.
    read_int. change (4 =? SolanaAccountQueryRequestType) with true. cbv iota.
    unfold bind, wrap.
    now rewrite (SolanaAccountQueryRequest_roundtrip a queryBuf rest Hwf Hq).
  - change (SolanaPdaQueryRequestType mod 256 ^ Z.of_nat 1) with 5.
    change (ValidatePerChainQueryRequestType 5) with (@None error). cbv iota.
    read_int.
    change (5 =? SolanaAccountQueryRequestType) with false.
    change (5 =? SolanaPdaQueryRequestType) with true. cbv iota.
    unfold bind, wrap.
    now rewrite (SolanaPdaQueryRequest_roundtrip pq queryBuf rest Hwf Hq).
Qed.

(** *** Marshaling succeeds on what the validator accepts *)

Lemma ChainSpecificQuery_Marshal_ok (q : ChainSpecificQuery) :
  wf_ChainSpecificQuery q -> ChainSpecificQuery_Validate q = None ->
  exists queryBuf, ChainSpecificQuery_Marshal q = Ok queryBuf /\ len queryBuf <= MaxUint32.
Proof.
  destruct q as [a|p]; cbn [wf_ChainSpecificQuery ChainSpecificQuery_Validate
                             ChainSpecificQuery_Marshal].
  - intros (_ & _ & _ & Hl) Hv.
    unfold SolanaAccountQueryRequest_Marshal. rewrite Hv.
    apply SolanaAccountQueryRequest_Validate_None in Hv as [([_ Hc] & _ & Hn) _].
    eexists; split; [reflexivity|]. fields. rewrite Hc.
    assert (length (concat (saq_Accounts a)) <= length (saq_Accounts a) * 32)%nat as Hb.
    { apply concat_length_bound. eapply Forall_impl; [exact Hl|].
      unfold SolanaPublicKeyLength. intros; simpl in *; lia. }
    unfold len, MaxUint32, bytes_of_string.
    rewrite !length_app, !BigEndian_put_length.
    change (length (String.list_byte_of_string "finalized")) with 9%nat. lia.
  - intros (_ & _ & _ & Hl) Hv.
    unfold SolanaPdaQueryRequest_Marshal. rewrite Hv.
    apply SolanaPdaQueryRequest_Validate_None in Hv as [([_ Hc] & _ & Hn & Hok) _].
    eexists; split; [reflexivity|]. fields. rewrite Hc.
    assert (length (concat (map marshal_pda (spda_PDAs p)))
            <= length (map marshal_pda (spda_PDAs p)) * 609)%nat as Hb.
    { apply concat_length_bound. apply Forall_map.
      clear Hn. induction Hok as [|x l [Hx Hs] _ IH]; constructor.
      - inversion Hl as [|? ? Hwx]; subst. unfold wf_SolanaPDAEntry in Hwx.
        unfold marshal_pda.
        assert (length (concat (map marshal_seed (Seeds x)))
                <= length (map marshal_seed (Seeds x)) * 36)%nat as Hb.
        { apply concat_length_bound. apply Forall_map.
          eapply Forall_impl; [exact Hs|]. unfold seed_ok, marshal_seed. intros s Hs'.
          simpl. rewrite length_app, BigEndian_put_length. lia. }
        rewrite length_map in Hb.
        rewrite !length_app, BigEndian_put_length, Hwx.
        unfold SolanaPublicKeyLength. lia.
      - apply IH. now inversion Hl. }
    rewrite length_map in Hb.
    unfold len, MaxUint32, bytes_of_string.
    rewrite !length_app, !BigEndian_put_length.
    change (length (String.list_byte_of_string "finalized")) with 9%nat. lia.
Qed.

Lemma PerChainQueryRequest_Marshal_ok (p : PerChainQueryRequest) :
  wf_PerChainQueryRequest p -> PerChainQueryRequest_Validate p = None ->
  exists bs, PerChainQueryRequest_Marshal p = Ok bs.
Proof.
  intros [_ Hwf] Hv. unfold PerChainQueryRequest_Marshal. rewrite Hv.
  unfold PerChainQueryRequest_Validate in Hv.
  destruct (ChainIDFromString _); [|discriminate].
  destruct (Query p) as [q|]; [|discriminate].
  destruct (ValidatePerChainQueryRequestType _); [discriminate|].
  destruct (ChainSpecificQuery_Validate q) eqn:Hq; [discriminate|].
  destruct (ChainSpecificQuery_Marshal_ok q Hwf Hq) as (queryBuf & -> & Hlen).
  destruct (Z.ltb_spec MaxUint32 (len queryBuf)); [lia|]. eauto.
Qed.

Lemma marshal_perChainQueries_ok (pcqs : list PerChainQueryRequest) :
  Forall wf_PerChainQueryRequest pcqs ->
  forall idx, validate_perChainQueries idx pcqs = None ->
  exists bss, Forall2 (fun p bs => PerChainQueryRequest_Marshal p = Ok bs) pcqs bss /\
    forall buf, marshal_perChainQueries pcqs buf = Ok (buf ++ concat bss).
Proof.
  induction 1 as [|p pcqs Hp _ IH]; intros idx Hv; simpl in *.
  - exists []. split; [constructor|]. intros buf. now rewrite app_nil_r.
  - destruct (PerChainQueryRequest_Validate p) eqn:Hvp; [discriminate|].
    destruct (PerChainQueryRequest_Marshal_ok p Hp Hvp) as [bs Hbs].
    destruct (IH _ Hv) as (bss & Hall & Hm).
    exists (bs :: bss). split; [now constructor|].
    intros buf. rewrite Hbs, Hm. simpl. now rewrite app_assoc.
Qed.

(** *** [Equal] is reflexive *)

Lemma all_equal_refl {A} (eq : A -> A -> bool) (l : list A) :
  (forall x, eq x x = true) -> all_equal eq l l = true.
Proof. intros H. induction l; simpl; [reflexivity|]. now rewrite H, IHl. Qed.

Lemma SolanaAccountQueryRequest_Equal_refl q : SolanaAccountQueryRequest_Equal q q = true.
Proof.
  unfold SolanaAccountQueryRequest_Equal.
  rewrite String.eqb_refl, !Z.eqb_refl, Nat.eqb_refl. simpl.
  apply all_equal_refl, bytes_Equal_refl.
Qed.

Lemma SolanaPDAEntry_equal_refl p : SolanaPDAEntry_equal p p = true.
Proof.
  unfold SolanaPDAEntry_equal. rewrite bytes_Equal_refl, Nat.eqb_refl. simpl.
  apply all_equal_refl, bytes_Equal_refl.
Qed.

Lemma SolanaPdaQueryRequest_Equal_refl q : SolanaPdaQueryRequest_Equal q q = true.
Proof.
  unfold SolanaPdaQueryRequest_Equal.
  rewrite String.eqb_refl, !Z.eqb_refl, Nat.eqb_refl. simpl.
  apply all_equal_refl, SolanaPDAEntry_equal_refl.
Qed.

Lemma PerChainQueryRequest_Equal_refl p : PerChainQueryRequest_Equal p p = true.
Proof.
  unfold PerChainQueryRequest_Equal. rewrite Z.eqb_refl. simpl.
  destruct (Query p) as [[a|q]|]; rewrite ?Z.eqb_refl; simpl;
    auto using SolanaAccountQueryRequest_Equal_refl, SolanaPdaQueryRequest_Equal_refl.
Qed.

Lemma QueryRequest_Equal_refl q : QueryRequest_Equal q q = true.
Proof.
  unfold QueryRequest_Equal. rewrite Z.eqb_refl, Nat.eqb_refl. simpl.
  apply all_equal_refl, PerChainQueryRequest_Equal_refl.
Qed.

(** *** The request as a whole *)

Lemma QueryRequest_Marshal_refuses (q : QueryRequest) (e : error) :
  QueryRequest_Validate q = Some e -> QueryRequest_Marshal q = Err e.
Proof. intros H. unfold QueryRequest_Marshal. now rewrite H. Qed.

Lemma QueryRequest_Marshal_Unmarshal (q : QueryRequest) :
  wf_QueryRequest q -> QueryRequest_Validate q = None ->
  exists bs, QueryRequest_Marshal q = Ok bs /\ QueryRequest_Unmarshal bs = Ok q.
Proof.
  intros [Hnonce Hwf] Hv. unfold QueryRequest_Marshal. rewrite Hv.
  pose proof Hv as Hv'. unfold QueryRequest_Validate in Hv'.
  destruct (Nat.leb_spec (length (PerChainQueries q)) 0) as [|Hpos]; [discriminate|].
  destruct (Z.ltb_spec MaxUint8 (len (PerChainQueries q))) as [|Hmax]; [discriminate|].
  destruct (marshal_perChainQueries_ok _ Hwf _ Hv') as (bss & Hall & ->).
  eexists; split; [reflexivity|].
  unfold QueryRequest_Unmarshal, QueryRequest_UnmarshalFromReader.
  unfold bind at 1. unfold QueryRequest_readFields.
  rewrite <- (app_nil_r (_ ++ concat bss)). rewrite <- ?app_assoc.
  rewrite (bind_wrap_binary_Read _ 1 MSG_VERSION) by discriminate.
  change (negb (MSG_VERSION mod 256 ^ Z.of_nat 1 =? MSG_VERSION)) with false. cbv iota.
  read_int. unfold uint8, len, MaxUint8 in *.
  rewrite (Z.mod_small _ (2 ^ 8)) by lia.
  read_int. rewrite Nat2Z.id. unfold bind.
  rewrite (read_loop_concat _ (PerChainQueries q) [] bss []).
  - unfold ret. simpl. destruct q as [nonce pcqs]. fields. now rewrite Hv.
  - clear -Hall Hwf. induction Hall as [|p bs pcqs bss Hp _ IH]; constructor.
    + intros r. unfold wrap.
      rewrite (PerChainQueryRequest_roundtrip p bs r); [reflexivity | | exact Hp].
      now inversion Hwf.
    + apply IH. now inversion Hwf.
Qed.

(** C1.  For a request whose fields have the ranges and lengths of their Go
    types: when [Validate] accepts it, [Marshal] succeeds and [Unmarshal] of
    the bytes succeeds with a request that is [Equal] to it (indeed the same
    request); when [Validate] rejects it, [Marshal] returns the validator's
    error. *)
Theorem ccq_request_round_trip (q : QueryRequest) :
  wf_QueryRequest q ->
  match QueryRequest_Validate q with
  | None =>
      exists bs q', QueryRequest_Marshal q = Ok bs /\
                    QueryRequest_Unmarshal bs = Ok q' /\
                    QueryRequest_Equal q q' = true /\ q' = q
  | Some e => QueryRequest_Marshal q = Err e
  end.
Proof.
  intros Hwf. destruct (QueryRequest_Validate q) as [e|] eqn:Hv.
  - now apply QueryRequest_Marshal_refuses.
  - destruct (QueryRequest_Marshal_Unmarshal q Hwf Hv) as (bs & Hm & Hu).
    exists bs, q. auto using QueryRequest_Equal_refl.
Qed.
End RoundTrip.

(** ** Trailing bytes and the query length field *)

Lemma stable_ret {A} (a : A) : stable (ret a).
Proof. intros data x rest extra [= <- <-]. reflexivity. Qed.

Lemma stable_fail {A} (e : error) : stable (@fail A e).
Proof. intros data x rest extra [=]. Qed.

Lemma stable_bind {A B} (p : Reader A) (f : A -> Reader B) :
  stable p -> (forall a, stable (f a)) -> stable (bind p f).
Proof.
  intros Hp Hf data x rest extra. unfold bind.
  destruct (p data) as [[a r']|e] eqn:E; [|discriminate].
  rewrite (Hp _ _ _ extra E). apply Hf.
Qed.

Lemma stable_wrap {A} (msg : string) (p : Reader A) : stable p -> stable (wrap msg p).
Proof.
  intros Hp data x rest extra. unfold wrap.
  destruct (p data) as [[a r']|e] eqn:E; [|discriminate].
  intros [= <- <-]. now rewrite (Hp _ _ _ extra E).
Qed.

Lemma stable_binary_Read (n : nat) : stable (binary_Read n).
Proof.
  intros data x rest extra. unfold binary_Read.
  destruct data as [|b data]; [discriminate|].
  case_decide as Hlt; [discriminate|]. intros [= <- <-].
  cbn [app]. case_decide as Hlt'.
  - cbn [length] in Hlt, Hlt'. rewrite length_app in Hlt'. lia.
  - change (b :: data ++ extra) with ((b :: data) ++ extra).
    rewrite take_app_le, drop_app_le by lia. reflexivity.
Qed.

Lemma stable_read_exact (msg : string) (n : nat) : stable (read_exact msg n).
Proof.
  intros data x rest extra. unfold read_exact, Reader_Read.
  destruct data as [|b data]; [discriminate|].
  case_decide as Hn; [discriminate|]. intros [= <- <-].
  cbn [app]. case_decide as Hn'.
  - cbn [length] in Hn, Hn'. rewrite length_app in Hn'. lia.
  - change (b :: data ++ extra) with ((b :: data) ++ extra).
    rewrite take_app_le, drop_app_le by lia. reflexivity.
Qed.

Lemma stable_read_loop {A} (n : nat) (p : Reader A) (acc : list A) :
  stable p -> stable (read_loop n p acc).
Proof.
  intros Hp. revert acc. induction n as [|n IH]; intros acc; simpl.
  - apply stable_ret.
  - apply stable_bind; [exact Hp | intros a; apply IH].
Qed.

Create HintDb stable discriminated.
#[export] Hint Resolve stable_ret stable_fail stable_wrap stable_binary_Read
  stable_read_exact stable_read_loop : stable.

Ltac stable_steps :=
  repeat first
    [ apply stable_bind; [| intros ?]
    | match goal with |- stable (if ?c then _ else _) => destruct c end
    | match goal with |- stable (match ?c with _ => _ end) => destruct c end
    | solve [auto with stable] ].

Section Trailing.
Import Query.
Context {chains : ChainTable}.

Local Opaque BigEndian_put.

Lemma stable_SolanaAccountQueryRequest : stable SolanaAccountQueryRequest_UnmarshalFromReader.
Proof. unfold SolanaAccountQueryRequest_UnmarshalFromReader. stable_steps. Qed.

Lemma stable_unmarshal_seed : stable unmarshal_seed.
Proof. unfold unmarshal_seed. stable_steps. Qed.

Lemma stable_unmarshal_pda : stable unmarshal_pda.
Proof.
  unfold unmarshal_pda. pose proof stable_unmarshal_seed. stable_steps.
Qed.

Lemma stable_SolanaPdaQueryRequest : stable SolanaPdaQueryRequest_UnmarshalFromReader.
Proof.
  unfold SolanaPdaQueryRequest_UnmarshalFromReader.
  pose proof stable_unmarshal_pda. stable_steps.
Qed.

Lemma stable_PerChainQueryRequest : stable PerChainQueryRequest_UnmarshalFromReader.
Proof.
  unfold PerChainQueryRequest_UnmarshalFromReader.
  pose proof stable_SolanaAccountQueryRequest.
  pose proof stable_SolanaPdaQueryRequest. stable_steps.
Qed.

Lemma stable_QueryRequest_readFields : stable QueryRequest_readFields.
Proof.
  unfold QueryRequest_readFields. pose proof stable_PerChainQueryRequest. stable_steps.
Qed.

Lemma QueryRequest_Unmarshal_excess (data rest : list byte) (q : QueryRequest) :
  QueryRequest_readFields data = Ok (q, rest) -> rest <> [] ->
  QueryRequest_Unmarshal data = Err excess_bytes.
Proof.
  intros Hf Hne. unfold QueryRequest_Unmarshal, QueryRequest_UnmarshalFromReader, bind.
  rewrite Hf. destruct rest; [congruence | reflexivity].
Qed.

(** C9.  When the version, the nonce, the count and the declared number of
    per-chain queries have been read from [data] with [rest] left over, and
    [data] is followed by [extra], then [Unmarshal] of the whole returns the
    error "excess bytes in unmarshal" unless both [rest] and [extra] are
    empty.  With [extra] empty this is the check on the bytes left in the
    reader; with [rest] empty it says that an encoding followed by any
    trailing bytes is rejected. *)
Theorem ccq_unmarshal_rejects_trailing_bytes
    (data rest extra : list byte) (q : QueryRequest) :
  QueryRequest_readFields data = Ok (q, rest) ->
  rest ++ extra <> [] ->
  QueryRequest_Unmarshal (data ++ extra) = Err excess_bytes.
Proof.
  intros Hf Hne. eapply QueryRequest_Unmarshal_excess; [|exact Hne].
  apply stable_QueryRequest_readFields, Hf.
Qed.

(** An accepted input has been consumed to its end. *)
Lemma QueryRequest_Unmarshal_Ok_inv (data : list byte) (q : QueryRequest) :
  QueryRequest_Unmarshal data = Ok q ->
  QueryRequest_readFields data = Ok (q, []) /\ QueryRequest_Validate q = None.
Proof.
  unfold QueryRequest_Unmarshal, QueryRequest_UnmarshalFromReader, bind.
  destruct (QueryRequest_readFields data) as [[q' r]|]; [|discriminate].
  destruct r; simpl; [|discriminate].
  destruct (QueryRequest_Validate q') eqn:E; [discriminate|].
  now intros [= <-].
Qed.

Corollary QueryRequest_Unmarshal_no_trailing_garbage
    (data extra : list byte) (q : QueryRequest) :
  QueryRequest_Unmarshal data = Ok q -> extra <> [] ->
  QueryRequest_Unmarshal (data ++ extra) = Err excess_bytes.
Proof.
  intros Hu Hne. apply QueryRequest_Unmarshal_Ok_inv in Hu as [Hf _].
  eapply QueryRequest_Unmarshal_excess.
  - apply stable_QueryRequest_readFields, Hf.
  - now destruct extra.
Qed.

(** *** The query length field is skipped *)

Lemma binary_Read_app (n : nat) (bs rest : list byte) :
  length bs = n -> n <> O ->
  binary_Read n (bs ++ rest) = Ok (BigEndian_get bs, rest).
Proof.
  intros Hl Hn. unfold binary_Read.
  destruct (bs ++ rest) as [|b l] eqn:E.
  - apply (f_equal length) in E. rewrite length_app, Hl in E. simpl in E. lia.
  - rewrite <- E. case_decide as Hlt; [rewrite length_app in Hlt; lia|].
    rewrite take_app_length', drop_app_length' by (symmetry; exact Hl).
    reflexivity.
Qed.

Lemma bind_wrap_binary_Read_app {B} (msg : string) (n : nat) (bs rest : list byte)
    (f : Z -> Reader B) :
  length bs = n -> n <> O ->
  bind (wrap msg (binary_Read n)) f (bs ++ rest) = f (BigEndian_get bs) rest.
Proof. intros Hl Hn. unfold bind, wrap. now rewrite binary_Read_app. Qed.

Lemma PerChainQueryRequest_query_len_ignored (hd l1 l2 body : list byte) :
  length hd = 3%nat -> length l1 = 4%nat -> length l2 = 4%nat ->
  PerChainQueryRequest_UnmarshalFromReader (hd ++ l1 ++ body)
  = PerChainQueryRequest_UnmarshalFromReader (hd ++ l2 ++ body).
Proof.
  intros Hhd H1 H2.
  rewrite <- (take_drop 2 hd), <- !app_assoc.
  unfold PerChainQueryRequest_UnmarshalFromReader.
  rewrite !(bind_wrap_binary_Read_app _ 2 (take 2 hd)) by (rewrite ?length_take; lia).
  rewrite !(bind_wrap_binary_Read_app _ 1 (drop 2 hd)) by (rewrite ?length_drop; lia).
  destruct (ValidatePerChainQueryRequestType _); [reflexivity|].
  rewrite (bind_wrap_binary_Read_app _ 4 l1), (bind_wrap_binary_Read_app _ 4 l2) by lia.
  reflexivity.
Qed.

(** C10.  In the encoding of a per-chain query that [Marshal] produces,
    the four bytes of the query length field can be replaced by any four
    bytes: [UnmarshalFromReader] still succeeds, and any two such inputs
    decode to [Equal] requests (both to the request that was marshaled). *)
Theorem per_chain_query_len_unchecked
    (p : PerChainQueryRequest) (b l1 l2 : list byte) :
  wf_PerChainQueryRequest p ->
  PerChainQueryRequest_Marshal p = Ok b ->
  length l1 = 4%nat -> length l2 = 4%nat ->
  exists p1 p2,
    PerChainQueryRequest_Unmarshal (set_query_len b l1) = Ok p1 /\
    PerChainQueryRequest_Unmarshal (set_query_len b l2) = Ok p2 /\
    PerChainQueryRequest_Equal p1 p2 = true /\ p1 = p /\ p2 = p.
Proof.
  intros Hwf Hm H1 H2.
  pose proof (PerChainQueryRequest_roundtrip p b [] Hwf Hm) as Hr.
  rewrite app_nil_r in Hr.
  assert (exists hd l0 body, b = hd ++ l0 ++ body /\ length hd = 3%nat /\ length l0 = 4%nat)
    as (hd & l0 & body & -> & Hhd & Hl0).
  { unfold PerChainQueryRequest_Marshal in Hm.
    destruct (PerChainQueryRequest_Validate p); [discriminate|].
    destruct (Query p); [|discriminate].
    destruct (ChainSpecificQuery_Marshal _); [|discriminate].
    destruct (_ <? _); [discriminate|]. injection Hm as <-.
    eexists (_ ++ _), _, _. rewrite <- app_assoc.
    split; [reflexivity|]. rewrite length_app, !BigEndian_put_length. lia. }
  assert (forall l, length l = 4%nat ->
            PerChainQueryRequest_Unmarshal (set_query_len (hd ++ l0 ++ body) l) = Ok p)
    as Hset.
  { intros l Hl. unfold set_query_len, PerChainQueryRequest_Unmarshal.
    rewrite take_app_length' by lia.
    replace (drop 7 (hd ++ l0 ++ body)) with body.
    - rewrite (PerChainQueryRequest_query_len_ignored hd l l0 body), Hr by assumption.
      reflexivity.
    - rewrite app_assoc, drop_app_length' by (rewrite length_app; lia). reflexivity. }
  exists p, p. rewrite !Hset by assumption.
  auto using PerChainQueryRequest_Equal_refl.
Qed.
End Trailing.

(** ** The signing digest of a query request *)

(** C6.  For every environment and byte string, [QueryRequestDigest] is the
    Keccak-256 hash of the environment's prefix followed by the bytes; the
    prefix is the mainnet one for [MainNet], the testnet one for [TestNet]
    and the devnet one otherwise, and each prefix is 35 bytes long. *)
Theorem query_request_digest_prefix {Hash : Type} (Keccak256Hash : list byte -> Hash)
    (env : Query.Environment) (b : list byte) :
  Query.QueryRequestDigest Hash Keccak256Hash env b
  = Keccak256Hash (bytes_of_string (Query.digest_prefix env) ++ b) /\
  length (bytes_of_string (Query.digest_prefix env)) = 35%nat.
Proof. destruct env; split; reflexivity. Qed.

(** ** Governance bodies *)

(** C5.  The contract upgrade body for chain 1 and the address ending in 04,
    and the guardian set update body for the two test keys and new index 1,
    serialize to the hexadecimal vectors of the serializer tests; in general
    a body is the 32-byte Core module, the action byte (1, resp. 2), the
    chain id on two bytes (the body's, resp. 0) and the action's fields (the
    new contract; resp. the new index on four bytes, the number of keys on
    one byte and the keys in order). *)
Theorem governance_bodies_serialize :
  hex_EncodeToString
    (Vaa.BodyContractUpgrade_Serialize {| Vaa.ChainID := 1; Vaa.NewContract := Vaa.addr |})
  = "00000000000000000000000000000000000000000000000000000000436f72650100010000000000000000000000000000000000000000000000000000000000000004"%string /\
  hex_EncodeToString
    (Vaa.BodyGuardianSetUpdate_Serialize {| Vaa.Keys := Vaa.test_keys; Vaa.NewIndex := 1 |})
  = "00000000000000000000000000000000000000000000000000000000436f726502000000000001025aaeb6053f3e94c9b9a09f33669435e7ef1beaed5aaeb6053f3e94c9b9a09f33669435e7ef1beaee"%string /\
  (forall b,
     Vaa.BodyContractUpgrade_Serialize b
     = unhex "00000000000000000000000000000000000000000000000000000000436f7265"
       ++ [Byte.x01] ++ BigEndian_put 2 (uint16 (Vaa.ChainID b)) ++ Vaa.NewContract b) /\
  (forall b,
     Vaa.BodyGuardianSetUpdate_Serialize b
     = unhex "00000000000000000000000000000000000000000000000000000000436f7265"
       ++ [Byte.x02] ++ [Byte.x00; Byte.x00] ++ BigEndian_put 4 (Vaa.NewIndex b)
       ++ [byte_of_Z (len (Vaa.Keys b))] ++ concat (Vaa.Keys b)).
Proof.
  split; [vm_compute; reflexivity|]. split; [vm_compute; reflexivity|].
  split; intros b; unfold Vaa.BodyContractUpgrade_Serialize, Vaa.BodyGuardianSetUpdate_Serialize.
  - reflexivity.
  - change (Vaa.CoreModule)
      with (unhex "00000000000000000000000000000000000000000000000000000000436f7265").
    do 4 f_equal. cbn [BigEndian_put app]. f_equal.
    unfold byte_of_Z, uint8. rewrite Z.shiftr_0_r.
    now rewrite Z.mod_mod by discriminate.
Qed.

(** ** [adminGuardianSetUpdateToVAA] *)

(** C7.  With an empty guardian list the function returns the error "empty
    guardian set specified" and no VAA, whatever the timestamp, guardian set
    index, nonce and sequence. *)
Theorem guardian_set_update_empty_rejected {deps : AdminRpc.Deps}
    (timestamp guardianSetIndex nonce sequence : Z) :
  AdminRpc.adminGuardianSetUpdateToVAA {| AdminRpc.Guardians := [] |}
    timestamp guardianSetIndex nonce sequence
  = Err (errors_New "empty guardian set specified").
Proof. reflexivity. Qed.

(** ** The governor tick of the processor *)

Section GovernorTick.
Context {handlers : Processor.Handlers}.
Import Processor.

Lemma publishPending_all (g : ChainGovernor) (ks : list MessagePublication)
    (st : aggregationState) :
  Forall (governed g) ks -> publishPending g ks st = (handled ks st, None).
Proof.
  intros H. revert st. induction H as [|k ks Hk _ IH]; intros st; simpl.
  - reflexivity.
  - unfold governed in Hk. rewrite Hk. apply IH.
Qed.

Lemma publishPending_first_failure (g : ChainGovernor) (ks : list MessagePublication)
    (i : nat) (k : MessagePublication) (st : aggregationState) :
  ks !! i = Some k -> Forall (governed g) (take i ks) -> ~ governed g k ->
  exists err, publishPending g ks st = (handled (take i ks) st, Some err).
Proof.
  revert i st. induction ks as [|k0 ks IH]; intros i st Hk Hpre Hbad; [discriminate|].
  destruct i as [|i]; simpl in *.
  - injection Hk as ->. unfold governed in Hbad.
    destruct (IsGovernedMsg g k) as [[|]|e]; [congruence | eauto | eauto].
  - inversion Hpre as [|? ? Hk0 Hpre']; subst. unfold governed in Hk0.
    rewrite Hk0. now apply IH.
Qed.

(** C8.  When the governor is configured and [CheckPending] returns a list,
    the entries are re-checked with [IsGovernedMsg] in order, each before it
    is handed to [handleMessage].  If entry [i] is the first whose re-check
    is not a plain true (false, or an error), the entries before it have
    been handled, entry [i] and all later ones have not, and the loop
    returns an error; if every entry passes, all are handled and the loop
    goes on. *)
Theorem gov_timer_rechecks_pending (p : Processor) (g g' : ChainGovernor)
    (toBePublished : list MessagePublication) :
  governor p = Some g ->
  CheckPending g = (g', Ok toBePublished) ->
  (forall i k,
     toBePublished !! i = Some k ->
     Forall (governed g') (take i toBePublished) -> ~ governed g' k ->
     exists err,
       govTimerCase p
       = Return {| governor := Some g'; state := handled (take i toBePublished) (state p) |} err) /\
  (Forall (governed g') toBePublished ->
   govTimerCase p
   = Continue {| governor := Some g'; state := handled toBePublished (state p) |}).
Proof.
  intros Hg Hc. unfold govTimerCase. rewrite Hg, Hc. split.
  - intros i k Hk Hpre Hbad.
    destruct (publishPending_first_failure g' _ i k (state p) Hk Hpre Hbad) as [err ->].
    eauto.
  - intros Hall. now rewrite publishPending_all.
Qed.
End GovernorTick.

(** ** Purging the store *)

Section Purge.
Import Db.

Lemma PurgeVaas_lookup (db : gmap VAAID VAA) (prefix : VAAID) (oldestTime : Z) (k : VAAID) :
  (PurgeVaas prefix oldestTime false db).1 !! k
  = match db !! k with
    | Some v => if decide (in_prefix prefix k /\ Timestamp v < oldestTime)
                then None else Some v
    | None => None
    end.
Proof.
  unfold PurgeVaas. cbn [fst]. cbv iota. rewrite map_lookup_filter.
  destruct (db !! k) as [v|]; [|reflexivity]. simpl.
  unfold purgeable. simpl.
  case_decide as H; [rewrite option_guard_False by tauto | rewrite option_guard_True by tauto];
    reflexivity.
Qed.

(** C3.  [PurgeVaas prefix oldestTime false] deletes exactly the entries in
    the prefix whose timestamp is strictly before [oldestTime] and leaves
    every other entry as it was.  On the database of the purge test (for
    each of two emitters, 50 VAAs from 73 hours ago and 75 from 71 hours
    ago), purging the first emitter with the cutoff 72 hours ago deletes 50
    entries, leaves exactly its 75 newer VAAs under the prefix and leaves
    the other emitter's 125 untouched. *)
Theorem purge_deletes_exactly_the_old :
  (forall (db : gmap VAAID VAA) (prefix : VAAID) (oldestTime : Z) (k : VAAID),
     (PurgeVaas prefix oldestTime false db).1 !! k
     = match db !! k with
       | Some v => if decide (in_prefix prefix k /\ Timestamp v < oldestTime)
                   then None else Some v
       | None => None
       end) /\
  (let db := testDatabase test_now in
   let prefix : VAAID := (ChainIDSolana, SolanaEmitterAddress1, 0) in
   let purged := PurgeVaas prefix (test_now - 3 * 24 * hour) false db in
   size (filter (fun kv => in_prefix prefix kv.1 /\ Timestamp kv.2 < test_now - 3 * 24 * hour) db)
     = 50%nat /\
   size (filter (fun kv => in_prefix prefix kv.1 /\ ~ Timestamp kv.2 < test_now - 3 * 24 * hour) db)
     = 75%nat /\
   purged.2 = 50%nat /\
   filter (fun kv => in_prefix prefix kv.1) purged.1
     = storeVAAs1 75 (test_now - (3 * 24 - 1) * hour) 10050 ∅ /\
   filter (fun kv => ~ in_prefix prefix kv.1) purged.1
     = filter (fun kv => ~ in_prefix prefix kv.1) db /\
   size (filter (fun kv => ~ in_prefix prefix kv.1) db) = 125%nat).
Proof.
  split; [apply PurgeVaas_lookup|].
  cbv zeta.
  split; [vm_compute; reflexivity|].
  split; [vm_compute; reflexivity|].
  split; [vm_compute; reflexivity|].
  split; [apply (bool_decide_unpack _); vm_compute; exact I|].
  split; [apply (bool_decide_unpack _); vm_compute; exact I|].
  vm_compute; reflexivity.
Qed.
End Purge.

(** ** RPC backfill *)

Section BackfillFacts.
Context {world : AdminRpc.World}.
Import AdminRpc.

Lemma tryNodes_cons (node : string) (rest : list string) (chain : Z) (addr : string)
    (seq elapsed : Z) (s : service) :
  http_NewRequest (node, chain, addr, seq) = None ->
  tryNodes (node :: rest) chain addr seq elapsed s
  = match classify (client_Do elapsed (node, chain, addr, seq)).1 with
    | TryNext =>
        tryNodes rest chain addr seq (client_Do elapsed (node, chain, addr, seq)).2
          (log_request s (node, chain, addr, seq))
    | Filled vaaBytes =>
        (send_vaa (log_request s (node, chain, addr, seq)) vaaBytes, Ok true)
    | Abort StatusCode =>
        (log_request s (node, chain, addr, seq),
         Err (Errorf "unexpected response status: %d" [ArgInt StatusCode]))
    end.
Proof.
  intros Hreq. cbn [tryNodes]. rewrite Hreq.
  destruct (client_Do elapsed (node, chain, addr, seq)) as [r elapsed'].
  cbn [fst snd]. unfold classify, http_StatusNotFound, http_StatusOK.
  destruct r as [err|code body]; [reflexivity|].
  destruct (code =? 404); [reflexivity|].
  destruct (code =? 200); [|reflexivity].
  destruct (json_Decode body) as [v|]; [|reflexivity].
  destruct (base64_DecodeString v); reflexivity.
Qed.

(** Past the deadline every request fails, and the clock stays there. *)
Lemma client_Do_late (elapsed : Z) (u : url) :
  0 <= (roundTrip u).1 -> time_Second <= elapsed ->
  client_Do elapsed u = (NoResponse DeadlineExceeded, elapsed).
Proof.
  intros Hlat Hlate. unfold client_Do. destruct (roundTrip u) as [latency r].
  simpl in Hlat. destruct (Z.leb_spec time_Second (elapsed + latency)); [|lia].
  f_equal. lia.
Qed.

(** A request that runs into the deadline leaves the clock at or past it. *)
Lemma client_Do_timeout (elapsed : Z) (u : url) :
  time_Second <= elapsed + (roundTrip u).1 ->
  (client_Do elapsed u).1 = NoResponse DeadlineExceeded /\
  time_Second <= (client_Do elapsed u).2.
Proof.
  intros Hlate. unfold client_Do. destruct (roundTrip u) as [latency r].
  simpl in Hlate. destruct (Z.leb_spec time_Second (elapsed + latency)); [|lia].
  simpl. split; [reflexivity | lia].
Qed.

Lemma tryNodes_late (nodes : list string) (chain : Z) (addr : string)
    (seq elapsed : Z) (s : service) :
  (forall u, http_NewRequest u = None) -> (forall u, 0 <= (roundTrip u).1) ->
  time_Second <= elapsed ->
  tryNodes nodes chain addr seq elapsed s
  = ({| rand := rand s; signedInC := signedInC s;
        requested := requested s ++ urls nodes chain addr seq |}, Ok false).
Proof.
  intros Hreq Hlat Hlate. revert s.
  induction nodes as [|node rest IH]; intros s.
  - simpl. rewrite app_nil_r. now destruct s.
  - rewrite tryNodes_cons by apply Hreq.
    rewrite client_Do_late by auto. cbn [fst snd classify].
    rewrite IH. unfold log_request. cbn [rand signedInC requested urls map].
    now rewrite <- app_assoc.
Qed.

Lemma classify_expected (r : reply) :
  expected_status r -> forall c, classify r <> Abort c.
Proof.
  destruct r as [err|code body]; simpl; [discriminate|].
  intros [-> | ->] c; simpl; [|discriminate].
  destruct (json_Decode body) as [v|]; [|discriminate].
  destruct (base64_DecodeString v); discriminate.
Qed.

Lemma client_Do_expected (elapsed : Z) (u : url) :
  expected_status (roundTrip u).2 -> expected_status (client_Do elapsed u).1.
Proof.
  unfold client_Do. destruct (roundTrip u) as [latency r]. simpl.
  destruct (_ <=? _); simpl; auto.
Qed.

Lemma tryNodes_expected (nodes : list string) (chain : Z) (addr : string)
    (seq elapsed : Z) (s : service) :
  (forall u, http_NewRequest u = None) -> (forall u, expected_status (roundTrip u).2) ->
  exists s' ok, tryNodes nodes chain addr seq elapsed s = (s', Ok ok).
Proof.
  intros Hreq Hexp. revert elapsed s.
  induction nodes as [|node rest IH]; intros elapsed s; [simpl; eauto|].
  rewrite tryNodes_cons by apply Hreq.
  pose proof (classify_expected _ (client_Do_expected elapsed (node, chain, addr, seq)
                                     (Hexp _))) as Hc.
  destruct (classify _) as [|b|c]; [apply IH | eauto | now destruct (Hc c)].
Qed.

Lemma backfill_expected (ids : list Z) (nodes : list string) (chain : Z) (addr : string)
    (unfilled : list Z) (s : service) :
  (forall u, http_NewRequest u = None) -> (forall u, expected_status (roundTrip u).2) ->
  exists s' missing,
    backfill ids nodes chain addr unfilled s = (s', Ok (unfilled ++ missing)) /\
    sublist missing ids.
Proof.
  intros Hreq Hexp. revert nodes unfilled s.
  induction ids as [|id rest IH]; intros nodes unfilled s; simpl.
  - exists s, []. rewrite app_nil_r. split; [reflexivity | constructor].
  - unfold fetchMissing.
    destruct (rand_Shuffle (rand s) nodes) as [rand' nodes'].
    destruct (tryNodes_expected nodes' chain addr id 0
                {| rand := rand'; signedInC := signedInC s; requested := requested s |}
                Hreq Hexp) as (s' & ok & ->).
    destruct ok.
    + destruct (IH nodes' unfilled s') as (s'' & missing & -> & Hsub).
      exists s'', missing. split; [reflexivity | now constructor].
    + destruct (IH nodes' (unfilled ++ [id]) s') as (s'' & missing & -> & Hsub).
      exists s'', (id :: missing). rewrite <- app_assoc. split; [reflexivity | now constructor].
Qed.

(** The order of a pass comes from [rand.Shuffle]. *)
Lemma fetchMissing_order (nodes : list string) (chain : Z) (addr : string) (seq : Z)
    (s : service) :
  fetchMissing nodes chain addr seq s
  = let sh := rand_Shuffle (rand s) nodes in
    let r := tryNodes sh.2 chain addr seq 0
               {| rand := sh.1; signedInC := signedInC s; requested := requested s |} in
    (r.1, sh.2, r.2).
Proof.
  unfold fetchMissing. destruct (rand_Shuffle (rand s) nodes) as [rand' nodes'].
  cbn [fst snd]. now destruct (tryNodes _ _ _ _ _ _).
Qed.

Lemma backfill_abort (id : Z) (rest : list Z) (nodes nodes' : list string) (chain : Z)
    (addr : string) (unfilled : list Z) (s s' : service) (err : error) :
  fetchMissing nodes chain addr id s = (s', nodes', Err err) ->
  backfill (id :: rest) nodes chain addr unfilled s
  = (s', Err (status_Errorf "Internal" "failed to backfill VAA: %v" err)).
Proof. intros H. simpl. now rewrite H. Qed.

Lemma after_pass_nil (s : service) : after_pass s [] [] = s.
Proof. destruct s. unfold after_pass. cbn. now rewrite !app_nil_r. Qed.

Lemma after_pass_log_request (s : service) (u : url) (asked : list url)
    (sent : list (list byte)) :
  after_pass (log_request s u) asked sent = after_pass s (u :: asked) sent.
Proof. unfold after_pass, log_request. cbn. now rewrite <- app_assoc. Qed.

(** Where a pass over the nodes ends. *)
Lemma tryNodes_outcome (nodes : list string) (chain : Z) (addr : string) (seq elapsed : Z)
    (s : service) :
  match tryNodes nodes chain addr seq elapsed s with
  | (s', Ok true) =>
      exists tried node rest vaaBytes,
        nodes = tried ++ node :: rest /\
        passed_over tried chain addr seq elapsed /\
        http_NewRequest (node, chain, addr, seq) = None /\
        classify (client_Do (elapsed_after tried chain addr seq elapsed)
                    (node, chain, addr, seq)).1 = Filled vaaBytes /\
        s' = after_pass s (urls (tried ++ [node]) chain addr seq) [vaaBytes]
  | (s', Ok false) =>
      passed_over nodes chain addr seq elapsed /\
      s' = after_pass s (urls nodes chain addr seq) []
  | (s', Err e) =>
      exists tried node rest,
        nodes = tried ++ node :: rest /\
        passed_over tried chain addr seq elapsed /\
        ((exists err,
            http_NewRequest (node, chain, addr, seq) = Some err /\
            e = Wrapf "failed to create request: %w" [] err /\
            s' = after_pass s (urls tried chain addr seq) []) \/
         (exists StatusCode,
            http_NewRequest (node, chain, addr, seq) = None /\
            classify (client_Do (elapsed_after tried chain addr seq elapsed)
                        (node, chain, addr, seq)).1 = Abort StatusCode /\
            e = Errorf "unexpected response status: %d" [ArgInt StatusCode] /\
            s' = after_pass s (urls (tried ++ [node]) chain addr seq) []))
  end.
Proof.
  revert elapsed s. induction nodes as [|node rest IH]; intros elapsed s.
  - cbn [tryNodes]. split; [exact I | symmetry; apply after_pass_nil].
  - destruct (http_NewRequest (node, chain, addr, seq)) as [err|] eqn:Hreq.
    { cbn [tryNodes]. rewrite Hreq. exists [], node, rest.
      split; [reflexivity|]. split; [exact I|]. left. exists err.
      split; [exact Hreq|]. split; [reflexivity | symmetry; apply after_pass_nil]. }
    rewrite tryNodes_cons by exact Hreq.
    destruct (classify (client_Do elapsed (node, chain, addr, seq)).1)
      as [|vaaBytes|StatusCode] eqn:Ec.
    + specialize (IH (client_Do elapsed (node, chain, addr, seq)).2
                    (log_request s (node, chain, addr, seq))).
      destruct (tryNodes rest chain addr seq _ _) as [s' [[|]|e]].
      * destruct IH as (tried & node' & rest' & v & -> & Hp & Hr & Hc & ->).
        exists (node :: tried), node', rest', v.
        split; [reflexivity|]. split; [cbn [passed_over]; auto|].
        split; [exact Hr|]. split; [exact Hc|]. apply after_pass_log_request.
      * destruct IH as (Hp & ->).
        split; [cbn [passed_over]; auto | apply after_pass_log_request].
      * destruct IH as (tried & node' & rest' & -> & Hp & Hcase).
        exists (node :: tried), node', rest'.
        split; [reflexivity|]. split; [cbn [passed_over]; auto|].
        destruct Hcase as [(err & Hr & -> & ->) | (c & Hr & Hc & -> & ->)].
        -- left. exists err. split; [exact Hr|]. split; [reflexivity|].
           apply after_pass_log_request.
        -- right. exists c. split; [exact Hr|]. split; [exact Hc|].
           split; [reflexivity | apply after_pass_log_request].
    + exists [], node, rest, vaaBytes.
      split; [reflexivity|]. split; [exact I|]. split; [exact Hreq|].
      split; [exact Ec | reflexivity].
    + exists [], node, rest. split; [reflexivity|]. split; [exact I|].
      right. exists StatusCode. split; [exact Hreq|]. split; [exact Ec|].
      split; [reflexivity|]. unfold after_pass, log_request. cbn.
      now rewrite app_nil_r.
Qed.

(** What [fetchMissing] sends on [signedInC]. *)
Lemma fetchMissing_sends (nodes : list string) (chain : Z) (addr : string) (seq : Z)
    (s : service) :
  match (fetchMissing nodes chain addr seq s).2 with
  | Ok true =>
      exists vaaBytes,
        signedInC (fetchMissing nodes chain addr seq s).1.1 = signedInC s ++ [vaaBytes]
  | _ => signedInC (fetchMissing nodes chain addr seq s).1.1 = signedInC s
  end.
Proof.
  unfold fetchMissing.
  destruct (rand_Shuffle (rand s) nodes) as [rand' nodes'].
  set (s0 := {| rand := rand'; signedInC := signedInC s; requested := requested s |}).
  pose proof (tryNodes_outcome nodes' chain addr seq 0 s0) as H.
  destruct (tryNodes nodes' chain addr seq 0 s0) as [s' [[|]|e]]; cbn [fst snd].
  - destruct H as (tried & node & rest & v & _ & _ & _ & _ & ->). now exists v.
  - destruct H as (_ & ->). cbn. apply app_nil_r.
  - destruct H as (tried & node & rest & _ & _ & [(err & _ & _ & ->) | (c & _ & _ & _ & ->)]);
      cbn; apply app_nil_r.
Qed.

(** The steps of the loop over the missing ids. *)
Lemma backfill_step (id : Z) (rest : list Z) (nodes nodes' : list string) (chain : Z)
    (addr : string) (unfilled : list Z) (s s' : service) (ok : bool) :
  fetchMissing nodes chain addr id s = (s', nodes', Ok ok) ->
  backfill (id :: rest) nodes chain addr unfilled s
  = backfill rest nodes' chain addr (if ok then unfilled else unfilled ++ [id]) s'.
Proof. intros H. cbn [backfill]. rewrite H. now destruct ok. Qed.

(** The loop over the missing ids sends one VAA for each id it does not
    report. *)
Lemma backfill_accounting (ids : list Z) (nodes : list string) (chain : Z) (addr : string)
    (unfilled : list Z) (s : service) :
  exists sent,
    signedInC (backfill ids nodes chain addr unfilled s).1 = signedInC s ++ sent /\
    match (backfill ids nodes chain addr unfilled s).2 with
    | Ok unfilled' =>
        exists missing, unfilled' = unfilled ++ missing /\
                        (length sent + length missing = length ids)%nat
    | Err _ => (length sent < length ids)%nat
    end.
Proof.
  revert nodes unfilled s. induction ids as [|id rest IH]; intros nodes unfilled s.
  - exists []. simpl. rewrite app_nil_r. split; [reflexivity|].
    exists []. now rewrite app_nil_r.
  - cbn [backfill].
    pose proof (fetchMissing_sends nodes chain addr id s) as Hres.
    destruct (fetchMissing nodes chain addr id s) as [[s' nodes'] r].
    cbn [fst snd] in Hres.
    destruct r as [[|]|err].
    + destruct Hres as (v & Hv).
      destruct (IH nodes' unfilled s') as (sent & Hsent & Hr).
      exists (v :: sent). rewrite Hsent, Hv, <- app_assoc. split; [reflexivity|].
      destruct ((backfill rest nodes' chain addr unfilled s').2) as [un|e].
      * destruct Hr as (missing & -> & Hlen). exists missing. simpl. split; [reflexivity | lia].
      * simpl. lia.
    + rename Hres into Hv.
      destruct (IH nodes' (unfilled ++ [id]) s') as (sent & Hsent & Hr).
      exists sent. rewrite Hsent, Hv. split; [reflexivity|].
      destruct ((backfill rest nodes' chain addr (unfilled ++ [id]) s').2) as [un|e].
      * destruct Hr as (missing & -> & Hlen). exists (id :: missing).
        rewrite <- app_assoc. simpl. split; [reflexivity | lia].
      * simpl. lia.
    + exists []. cbn [fst snd]. rewrite app_nil_r. split; [exact Hres | simpl; lia].
Qed.

(** With nothing but statuses the loop has a case for, every missing id is
    either sent on as a VAA or reported. *)
Lemma backfill_expected_accounting (ids : list Z) (nodes : list string) (chain : Z)
    (addr : string) (s : service) :
  (forall u, http_NewRequest u = None) -> (forall u, expected_status (roundTrip u).2) ->
  exists s' missing sent,
    backfill ids nodes chain addr [] s = (s', Ok missing) /\
    sublist missing ids /\
    signedInC s' = signedInC s ++ sent /\
    (length sent + length missing = length ids)%nat.
Proof.
  intros Hreq Hexp.
  destruct (backfill_expected ids nodes chain addr [] s Hreq Hexp) as (s' & missing & Hb & Hsub).
  destruct (backfill_accounting ids nodes chain addr [] s) as (sent & Hsent & Hr).
  rewrite Hb in Hsent, Hr. cbn [fst snd app] in *.
  destruct Hr as (missing' & -> & Hlen).
  exists s', missing', sent. rewrite Hb. auto.
Qed.

(** C2, as the code has it.  With [rpc_backfill] set, the nodes are tried
    for each missing sequence in the order [rand.Shuffle] leaves them in (a
    permutation of the list), under one deadline of a second for the whole
    pass: once it has passed, every remaining node is asked in vain.  A
    request that fails (the deadline included), a 404 and a 200 whose body
    does not decode make the pass go on to the next node; a 200 that decodes
    ends it with the VAA sent on; any other status ends it with an error,
    which fails the whole operation with an Internal error.  A sequence
    whose pass found a VAA is not reported, one whose pass found none is,
    and the response lists what the loop over the gap leaves.  The store
    and the nodes are asked for the low 16 bits of the emitter chain.  When
    every request can be created and no node answers with an unexpected
    status, the operation returns a response: its missing messages are a
    sublist of the gap, and the VAAs sent on and the messages reported are
    together as many as the gap has sequences. *)
Theorem find_missing_messages_backfill :
  (forall r nodes, Permutation (rand_Shuffle r nodes).2 nodes) ->
  (forall nodes chain addr seq s,
     fetchMissing nodes chain addr seq s
     = let sh := rand_Shuffle (rand s) nodes in
       let r := tryNodes sh.2 chain addr seq 0
                  {| rand := sh.1; signedInC := signedInC s; requested := requested s |} in
       (r.1, sh.2, r.2)) /\
  (forall nodes chain addr seq s, Permutation (fetchMissing nodes chain addr seq s).1.2 nodes) /\
  (forall node rest chain addr seq elapsed s,
     http_NewRequest (node, chain, addr, seq) = None ->
     tryNodes (node :: rest) chain addr seq elapsed s
     = match classify (client_Do elapsed (node, chain, addr, seq)).1 with
       | TryNext =>
           tryNodes rest chain addr seq (client_Do elapsed (node, chain, addr, seq)).2
             (log_request s (node, chain, addr, seq))
       | Filled vaaBytes =>
           (send_vaa (log_request s (node, chain, addr, seq)) vaaBytes, Ok true)
       | Abort StatusCode =>
           (log_request s (node, chain, addr, seq),
            Err (Errorf "unexpected response status: %d" [ArgInt StatusCode]))
       end) /\
  (forall elapsed u,
     time_Second <= elapsed + (roundTrip u).1 ->
     (client_Do elapsed u).1 = NoResponse DeadlineExceeded /\
     time_Second <= (client_Do elapsed u).2) /\
  (forall nodes chain addr seq elapsed s,
     (forall u, http_NewRequest u = None) -> (forall u, 0 <= (roundTrip u).1) ->
     time_Second <= elapsed ->
     tryNodes nodes chain addr seq elapsed s
     = ({| rand := rand s; signedInC := signedInC s;
           requested := requested s ++ urls nodes chain addr seq |}, Ok false)) /\
  (forall id rest nodes nodes' chain addr unfilled s s' err,
     fetchMissing nodes chain addr id s = (s', nodes', Err err) ->
     backfill (id :: rest) nodes chain addr unfilled s
     = (s', Err (status_Errorf "Internal" "failed to backfill VAA: %v" err))) /\
  (forall req s b ids first last s' err,
     RpcBackfill req = true ->
     hex_DecodeString (EmitterAddress req) = Some b ->
     FindEmitterSequenceGap (EmitterChain req mod 2 ^ 16) (to_Address b)
     = Ok (ids, first, last) ->
     backfill ids (BackfillNodes req) (EmitterChain req mod 2 ^ 16)
       (hex_EncodeToString (to_Address b)) [] s = (s', Err err) ->
     FindMissingMessages req s = (s', Err err)) /\
  (forall nodes chain addr seq elapsed s,
     match tryNodes nodes chain addr seq elapsed s with
     | (s', Ok true) =>
         exists tried node rest vaaBytes,
           nodes = tried ++ node :: rest /\
           passed_over tried chain addr seq elapsed /\
           http_NewRequest (node, chain, addr, seq) = None /\
           classify (client_Do (elapsed_after tried chain addr seq elapsed)
                       (node, chain, addr, seq)).1 = Filled vaaBytes /\
           s' = after_pass s (urls (tried ++ [node]) chain addr seq) [vaaBytes]
     | (s', Ok false) =>
         passed_over nodes chain addr seq elapsed /\
         s' = after_pass s (urls nodes chain addr seq) []
     | (s', Err e) =>
         exists tried node rest,
           nodes = tried ++ node :: rest /\
           passed_over tried chain addr seq elapsed /\
           ((exists err,
               http_NewRequest (node, chain, addr, seq) = Some err /\
               e = Wrapf "failed to create request: %w" [] err /\
               s' = after_pass s (urls tried chain addr seq) []) \/
            (exists StatusCode,
               http_NewRequest (node, chain, addr, seq) = None /\
               classify (client_Do (elapsed_after tried chain addr seq elapsed)
                           (node, chain, addr, seq)).1 = Abort StatusCode /\
               e = Errorf "unexpected response status: %d" [ArgInt StatusCode] /\
               s' = after_pass s (urls (tried ++ [node]) chain addr seq) []))
     end) /\
  (forall nodes chain addr unfilled s,
     backfill [] nodes chain addr unfilled s = (s, Ok unfilled)) /\
  (forall id rest nodes nodes' chain addr unfilled s s' ok,
     fetchMissing nodes chain addr id s = (s', nodes', Ok ok) ->
     backfill (id :: rest) nodes chain addr unfilled s
     = backfill rest nodes' chain addr (if ok then unfilled else unfilled ++ [id]) s') /\
  (forall req s b ids first last s' missing,
     RpcBackfill req = true ->
     hex_DecodeString (EmitterAddress req) = Some b ->
     FindEmitterSequenceGap (EmitterChain req mod 2 ^ 16) (to_Address b)
     = Ok (ids, first, last) ->
     backfill ids (BackfillNodes req) (EmitterChain req mod 2 ^ 16)
       (hex_EncodeToString (to_Address b)) [] s = (s', Ok missing) ->
     FindMissingMessages req s
     = (s', Ok {| MissingMessages :=
                    map (fun v => (EmitterChain req, hex_EncodeToString (to_Address b), v))
                      missing;
                  FirstSequence := first; LastSequence := last |})) /\
  (forall req s b ids first last,
     RpcBackfill req = true ->
     hex_DecodeString (EmitterAddress req) = Some b ->
     FindEmitterSequenceGap (EmitterChain req mod 2 ^ 16) (to_Address b)
     = Ok (ids, first, last) ->
     (forall u, http_NewRequest u = None) ->
     (forall u, expected_status (roundTrip u).2) ->
     exists s' missing sent,
       FindMissingMessages req s
       = (s', Ok {| MissingMessages :=
                      map (fun v => (EmitterChain req, hex_EncodeToString (to_Address b), v))
                        missing;
                    FirstSequence := first; LastSequence := last |}) /\
       sublist missing ids /\
       signedInC s' = signedInC s ++ sent /\
       (length sent + length missing = length ids)%nat).
Proof.
  intros Hperm.
  split; [apply fetchMissing_order|].
  split; [intros; rewrite fetchMissing_order; apply Hperm|].
  split; [apply tryNodes_cons|].
  split; [apply client_Do_timeout|].
  split; [apply tryNodes_late|].
  split; [apply backfill_abort|].
  split.
  { intros req s b ids first last s' err Hrpc Hhex Hgap Hb.
    unfold FindMissingMessages, uint16. now rewrite Hhex, Hgap, Hrpc, Hb. }
  split; [apply tryNodes_outcome|].
  split; [reflexivity|].
  split; [apply backfill_step|].
  split.
  { intros req s b ids first last s' missing Hrpc Hhex Hgap Hb.
    unfold FindMissingMessages, uint16. now rewrite Hhex, Hgap, Hrpc, Hb. }
  intros req s b ids first last Hrpc Hhex Hgap Hreq Hexp.
  unfold FindMissingMessages, uint16. rewrite Hhex, Hgap, Hrpc.
  destruct (backfill_expected_accounting ids (BackfillNodes req) (EmitterChain req mod 2 ^ 16)
              (hex_EncodeToString (to_Address b)) s Hreq Hexp)
    as (s' & missing & sent & -> & Hsub & Hsent & Hlen).
  exists s', missing, sent. auto.
Qed.
End BackfillFacts.

(** * The statements at concrete inputs *)

Section Instances.
Import Query.

(** The decoder and the encoder on the two SDK vectors of the codec tests. *)
Example sdk_vectors_decode :
  QueryRequest_Unmarshal (chains := solana_only) sdk_vector = Ok sdk_request /\
  QueryRequest_Marshal (chains := solana_only) sdk_request = Ok sdk_vector /\
  QueryRequest_Unmarshal (chains := solana_only) sdk_pda_vector = Ok sdk_pda_request /\
  QueryRequest_Marshal (chains := solana_only) sdk_pda_request = Ok sdk_pda_vector.
Proof. repeat split; vm_compute; reflexivity. Qed.

Lemma wf_createSolanaAccountQueryRequestForTesting :
  wf_QueryRequest createSolanaAccountQueryRequestForTesting.
Proof.
  split; [split; [discriminate | reflexivity]|].
  repeat constructor; discriminate.
Defined.

Lemma ccq_request_round_trip_witness :
  wf_QueryRequest createSolanaAccountQueryRequestForTesting /\
  QueryRequest_Validate (chains := solana_only) createSolanaAccountQueryRequestForTesting = None /\
  exists bs q',
    QueryRequest_Marshal (chains := solana_only) createSolanaAccountQueryRequestForTesting = Ok bs /\
    QueryRequest_Unmarshal (chains := solana_only) bs = Ok q' /\
    QueryRequest_Equal createSolanaAccountQueryRequestForTesting q' = true /\
    q' = createSolanaAccountQueryRequestForTesting.
Proof.
  split; [exact wf_createSolanaAccountQueryRequestForTesting|].
  split; [vm_compute; reflexivity|].
  exact (ccq_request_round_trip (chains := solana_only)
           createSolanaAccountQueryRequestForTesting
           wf_createSolanaAccountQueryRequestForTesting).
Defined.

Lemma ccq_validator_accepts_iff_witness :
  wf_QueryRequest createSolanaAccountQueryRequestForTesting /\
  (QueryRequest_Validate (chains := solana_only) createSolanaAccountQueryRequestForTesting = None
   <-> request_ok (chains := solana_only) createSolanaAccountQueryRequestForTesting).
Proof.
  split; [exact wf_createSolanaAccountQueryRequestForTesting|].
  exact (ccq_validator_accepts_iff (chains := solana_only)
           createSolanaAccountQueryRequestForTesting
           wf_createSolanaAccountQueryRequestForTesting).
Defined.

Lemma ccq_unmarshal_rejects_trailing_bytes_witness :
  QueryRequest_readFields sdk_vector = Ok (sdk_request, []) /\
  [] ++ [Byte.x00] <> [] /\
  QueryRequest_Unmarshal (chains := solana_only) (sdk_vector ++ [Byte.x00]) = Err excess_bytes.
Proof.
  assert (QueryRequest_readFields sdk_vector = Ok (sdk_request, []))
    as Hf by (vm_compute; reflexivity).
  assert ([] ++ [Byte.x00] <> @nil byte) as Hne by discriminate.
  split; [exact Hf|]. split; [exact Hne|].
  exact (ccq_unmarshal_rejects_trailing_bytes (chains := solana_only)
           sdk_vector [] [Byte.x00] sdk_request Hf Hne).
Defined.

Lemma wf_perChainQuery1 : wf_PerChainQueryRequest perChainQuery1.
Proof.
  split; [split; [discriminate | reflexivity]|].
  repeat constructor; discriminate.
Defined.

Lemma per_chain_query_len_unchecked_witness :
  wf_PerChainQueryRequest perChainQuery1 /\
  PerChainQueryRequest_Marshal (chains := solana_only) perChainQuery1 = Ok perChainQuery1_bytes /\
  length (replicate 4 Byte.x00) = 4%nat /\ length (replicate 4 Byte.xff) = 4%nat /\
  exists p1 p2,
    PerChainQueryRequest_Unmarshal (set_query_len perChainQuery1_bytes (replicate 4 Byte.x00))
      = Ok p1 /\
    PerChainQueryRequest_Unmarshal (set_query_len perChainQuery1_bytes (replicate 4 Byte.xff))
      = Ok p2 /\
    PerChainQueryRequest_Equal p1 p2 = true /\ p1 = perChainQuery1 /\ p2 = perChainQuery1.
Proof.
  assert (PerChainQueryRequest_Marshal (chains := solana_only) perChainQuery1
          = Ok perChainQuery1_bytes) as Hm by (vm_compute; reflexivity).
  split; [exact wf_perChainQuery1|]. split; [exact Hm|].
  split; [reflexivity|]. split; [reflexivity|].
  exact (per_chain_query_len_unchecked (chains := solana_only)
           perChainQuery1 perChainQuery1_bytes (replicate 4 Byte.x00) (replicate 4 Byte.xff)
           wf_perChainQuery1 Hm eq_refl eq_refl).
Defined.
End Instances.

Section ProcessorInstances.
Import Processor.

(** A list whose third entry fails the re-check, and one whose entries all
    pass it. *)
Lemma gov_timer_rechecks_pending_witness :
  (governor (small_processor [1; 2; 300; 4] []) = Some [1; 2; 300; 4] /\
   CheckPending (Handlers := small_handlers) [1; 2; 300; 4] = ([], Ok [1; 2; 300; 4]) /\
   exists err,
     govTimerCase (small_processor [1; 2; 300; 4] [])
     = Return (small_processor [] [1; 2]) err) /\
  (governor (small_processor [1; 2; 3] []) = Some [1; 2; 3] /\
   CheckPending (Handlers := small_handlers) [1; 2; 3] = ([], Ok [1; 2; 3]) /\
   govTimerCase (small_processor [1; 2; 3] [])
   = Continue (small_processor [] [1; 2; 3])).
Proof.
  split.
  - split; [reflexivity|]. split; [reflexivity|].
    refine (proj1 (gov_timer_rechecks_pending (handlers := small_handlers)
                     (small_processor [1; 2; 300; 4] [])
                     [1; 2; 300; 4] [] [1; 2; 300; 4] eq_refl eq_refl)
              2%nat 300 eq_refl _ _).
    + repeat constructor.
    + discriminate.
  - split; [reflexivity|]. split; [reflexivity|].
    refine (proj2 (gov_timer_rechecks_pending (handlers := small_handlers)
                     (small_processor [1; 2; 3] [])
                     [1; 2; 3] [] [1; 2; 3] eq_refl eq_refl) _).
    repeat constructor.
Defined.
End ProcessorInstances.

Section BackfillInstances.
Import AdminRpc.

(** C2 fails when a node answers with a 5xx status.  Node ["a"], tried
    first, answers 503 after a millisecond: the operation returns an
    Internal error and no response, and node ["b"], which has the VAA, is
    never asked.  The deadline is not per node either: when node ["a"] takes
    a second and a half, the request to node ["b"], which would answer in a
    millisecond, fails as well, and sequence 7 stays missing. *)
Lemma find_missing_messages_fails_on_5xx :
  (FindMissingMessages (world := two_nodes 1000000 503) backfill_request
     (service_of 1000000 503 [] [])
   = (service_of 1000000 503 [] [("a"%string, 1, emitter_04, 7)],
      Err (status_Errorf "Internal" "failed to backfill VAA: %v"
             (Errorf "unexpected response status: %d" [ArgInt 503]))) /\
   ~ exists s' resp,
       FindMissingMessages (world := two_nodes 1000000 503) backfill_request
         (service_of 1000000 503 [] [])
       = (s', Ok resp)) /\
  FindMissingMessages (world := two_nodes 1500000000 200) backfill_request
    (service_of 1500000000 200 [] [])
  = (service_of 1500000000 200 []
       [("a"%string, 1, emitter_04, 7); ("b"%string, 1, emitter_04, 7)],
     Ok {| MissingMessages := [(1, emitter_04, 7)];
           FirstSequence := 5; LastSequence := 9 |}).
Proof.
  assert (FindMissingMessages (world := two_nodes 1000000 503) backfill_request
            (service_of 1000000 503 [] [])
          = (service_of 1000000 503 [] [("a"%string, 1, emitter_04, 7)],
             Err (status_Errorf "Internal" "failed to backfill VAA: %v"
                    (Errorf "unexpected response status: %d" [ArgInt 503])))) as H
    by (vm_compute; reflexivity).
  split; [split; [exact H|] | vm_compute; reflexivity].
  intros (s' & resp & H'). rewrite H in H'. discriminate.
Qed.

(** The emitter chain 65537 of a request is narrowed to chain 1 for the
    store and the nodes, and printed as it is in the response. *)
Example find_missing_messages_narrows_chain :
  FindMissingMessages (world := two_nodes 1000000 404)
    {| EmitterChain := 65537; EmitterAddress := emitter_04; RpcBackfill := true;
       BackfillNodes := ["a"]%string |}
    (service_of 1000000 404 [] [])
  = (service_of 1000000 404 [] [("a"%string, 1, emitter_04, 7)],
     Ok {| MissingMessages := [(65537, emitter_04, 7)];
           FirstSequence := 5; LastSequence := 9 |}).
Proof. vm_compute. reflexivity. Qed.

Lemma two_nodes_shuffle (latency_a status_a : Z) (r : unit) (nodes : list string) :
  Permutation (rand_Shuffle (World := two_nodes latency_a status_a) r nodes).2 nodes.
Proof. simpl. symmetry. apply Permutation_rev. Defined.

(** With a 404 from node ["a"] the pass goes on to node ["b"]. *)
Lemma find_missing_messages_backfill_witness :
  (forall r nodes,
     Permutation (rand_Shuffle (World := two_nodes 1000000 404) r nodes).2 nodes) /\
  exists s' missing sent,
    FindMissingMessages (world := two_nodes 1000000 404) backfill_request
      (service_of 1000000 404 [] [])
    = (s', Ok {| MissingMessages := map (fun v => (1, emitter_04, v)) missing;
                 FirstSequence := 5; LastSequence := 9 |}) /\
    sublist missing [7] /\
    signedInC s' = signedInC (service_of 1000000 404 [] []) ++ sent /\
    (length sent + length missing = length [7])%nat.
Proof.
  split; [exact (two_nodes_shuffle 1000000 404)|].
  pose proof (find_missing_messages_backfill (world := two_nodes 1000000 404)
                (two_nodes_shuffle 1000000 404))
    as (_ & _ & _ & _ & _ & _ & _ & _ & _ & _ & _ & H).
  refine (H backfill_request (service_of 1000000 404 [] [])
            (replicate 31 Byte.x00 ++ [Byte.x04]) [7] 5 9 eq_refl eq_refl eq_refl _ _).
  - intros u. reflexivity.
  - intros [[[node chain] addr] seq]. simpl.
    destruct (String.eqb node "a"); simpl; auto.
Defined.
End BackfillInstances.

(** * Further properties *)

(** ** Padding and the bridge bodies *)

Lemma write_zeros_replicate (n : nat) (buf : list byte) :
  Vaa.write_zeros n buf = buf ++ replicate n Byte.x00.
Proof.
  revert buf. induction n as [|n IH]; intros buf; simpl.
  - now rewrite app_nil_r.
  - rewrite IH, <- app_assoc. reflexivity.
Qed.

Lemma bytes_of_string_length (s : string) :
  length (bytes_of_string s) = String.length s.
Proof.
  unfold bytes_of_string, String.list_byte_of_string. rewrite length_map.
  induction s; simpl; congruence.
Qed.

(** The module name of [payload], left-padded to 32 bytes. *)
Lemma LeftPadBytes_32 (module : string) :
  match Vaa.LeftPadBytes module 32 with
  | Returned buf =>
      strlen module <= 32 /\ length buf = 32%nat /\
      buf = replicate (32 - String.length module) Byte.x00 ++ bytes_of_string module
  | Panic v => 32 < strlen module /\ v = Errorf "payload longer than %d bytes" [ArgInt 32]
  end.
Proof.
  unfold Vaa.LeftPadBytes, strlen. change (32 <? 0) with false. cbv iota.
  destruct (Z.ltb_spec 32 (Z.of_nat (String.length module))); [split; [lia | reflexivity]|].
  rewrite write_zeros_replicate. cbn [app].
  replace (Z.to_nat (32 - Z.of_nat (String.length module)))
    with (32 - String.length module)%nat by lia.
  split; [lia|]. split; [|reflexivity].
  rewrite length_app, length_replicate, bytes_of_string_length. lia.
Qed.

(** X1.  [LeftPadBytes] returns, for a non-negative [length] that is at
    least the payload's, the payload preceded by zero bytes, [length] bytes
    in all; it panics exactly when [length] is negative or shorter than the
    payload. *)
Theorem left_pad_bytes_pads_to_length (payload : string) (length : Z) :
  match Vaa.LeftPadBytes payload length with
  | Returned buf =>
      0 <= length /\ strlen payload <= length /\ len buf = length /\
      buf = replicate (Z.to_nat (length - strlen payload)) Byte.x00 ++ bytes_of_string payload
  | Panic _ => length < 0 \/ length < strlen payload
  end.
Proof.
  unfold Vaa.LeftPadBytes.
  destruct (Z.ltb_spec length 0); [now left|].
  destruct (Z.ltb_spec length (strlen payload)); [now right|].
  rewrite write_zeros_replicate. cbn [app].
  repeat split; try assumption.
  unfold len, strlen in *.
  rewrite length_app, length_replicate, bytes_of_string_length. lia.
Qed.

Lemma BigEndian_get_put_1 (v : Z) : BigEndian_get (BigEndian_put 1 v) = v mod 256.
Proof. now rewrite BigEndian_get_put. Qed.

(** X2.  For a module name of at most 32 bytes, [serializeBridgeGovernanceVaa]
    returns 35 bytes followed by the payload: the padded module name, the
    action on one byte and the chain on two; for a longer name it panics
    with "payload longer than 32 bytes". *)
Theorem bridge_governance_layout (module : string) (actionId chainId : Z)
    (payload : list byte) :
  match Vaa.serializeBridgeGovernanceVaa module actionId chainId payload with
  | Returned b =>
      strlen module <= 32 /\
      len b = 35 + len payload /\
      take 32 b = replicate (32 - String.length module) Byte.x00 ++ bytes_of_string module /\
      BigEndian_get (take 1 (drop 32 b)) = actionId mod 2 ^ 8 /\
      BigEndian_get (take 2 (drop 33 b)) = chainId mod 2 ^ 16 /\
      drop 35 b = payload
  | Panic v => 32 < strlen module /\ v = Errorf "payload longer than %d bytes" [ArgInt 32]
  end.
Proof.
  unfold Vaa.serializeBridgeGovernanceVaa.
  pose proof (LeftPadBytes_32 module) as H.
  destruct (Vaa.LeftPadBytes module 32) as [buf|v]; [|exact H].
  destruct H as (Hm & Hl & Hbuf). split; [exact Hm|].
  split; [unfold len; rewrite !length_app, !BigEndian_put_length; lia|].
  split; [rewrite take_app_length' by (symmetry; exact Hl); exact Hbuf|].
  rewrite drop_app_length' by (symmetry; exact Hl).
  split; [rewrite take_app_length' by (symmetry; apply BigEndian_put_length);
          now rewrite BigEndian_get_put|].
  split.
  - rewrite (app_assoc buf), drop_app_length'
      by (rewrite length_app, BigEndian_put_length; lia).
    rewrite take_app_length' by (symmetry; apply BigEndian_put_length).
    now rewrite BigEndian_get_put.
  - rewrite !app_assoc, drop_app_length'; [reflexivity|].
    rewrite !length_app, !BigEndian_put_length. lia.
Qed.

(** X3.  For a module name of at most 32 bytes, the recover-chain-id body is
    67 bytes: the padded module name, the action (5 for the module "Core", 3
    for any other), the EVM chain id on 32 bytes and the new chain id on
    two; it has no target chain.  For a longer name [Serialize] panics. *)
Theorem recover_chain_id_layout (r : Vaa.BodyRecoverChainId) :
  match Vaa.BodyRecoverChainId_Serialize r with
  | Returned b =>
      strlen (Vaa.rci_Module r) <= 32 /\
      len b = 67 /\
      take 32 b = replicate (32 - String.length (Vaa.rci_Module r)) Byte.x00
                  ++ bytes_of_string (Vaa.rci_Module r) /\
      BigEndian_get (take 1 (drop 32 b))
      = (if decide (Vaa.rci_Module r = "Core"%string) then 5 else 3) /\
      BigEndian_get (take 32 (drop 33 b)) = Vaa.rci_EvmChainID r mod 2 ^ 256 /\
      BigEndian_get (drop 65 b) = Vaa.rci_NewChainID r mod 2 ^ 16
  | Panic v => 32 < strlen (Vaa.rci_Module r)
  end.
Proof.
  unfold Vaa.BodyRecoverChainId_Serialize.
  pose proof (LeftPadBytes_32 (Vaa.rci_Module r)) as H.
  destruct (Vaa.LeftPadBytes (Vaa.rci_Module r) 32) as [buf|v]; [|apply H].
  destruct H as (Hm & Hl & Hbuf). split; [exact Hm|].
  split; [unfold len; rewrite !length_app, !BigEndian_put_length; lia|].
  split; [rewrite take_app_length' by (symmetry; exact Hl); exact Hbuf|].
  rewrite drop_app_length' by (symmetry; exact Hl).
  split.
  { rewrite take_app_length' by (symmetry; apply BigEndian_put_length).
    rewrite BigEndian_get_put.
    destruct (String.eqb_spec (Vaa.rci_Module r) "Core"); case_decide; try congruence;
      reflexivity. }
  split.
  - rewrite (app_assoc buf), drop_app_length'
      by (rewrite length_app, BigEndian_put_length; lia).
    rewrite take_app_length' by (symmetry; apply BigEndian_put_length).
    now rewrite BigEndian_get_put.
  - rewrite !app_assoc, drop_app_length'
      by (rewrite !length_app, !BigEndian_put_length; lia).
    now rewrite BigEndian_get_put.
Qed.

Lemma BigEndian_put_inj (n : nat) (v w : Z) :
  0 <= v < 256 ^ Z.of_nat n -> 0 <= w < 256 ^ Z.of_nat n ->
  BigEndian_put n v = BigEndian_put n w -> v = w.
Proof.
  intros Hv Hw H. apply (f_equal BigEndian_get) in H.
  rewrite !BigEndian_get_put, !Z.mod_small in H by assumption. exact H.
Qed.

Lemma concat_chunks_inj {A} (k : nat) (l1 l2 : list (list A)) :
  Forall (fun x => length x = k) l1 -> Forall (fun x => length x = k) l2 ->
  length l1 = length l2 -> concat l1 = concat l2 -> l1 = l2.
Proof.
  intros H1. revert l2. induction H1 as [|x l1 Hx _ IH]; intros l2 H2 Hlen Hc.
  - destruct l2; [reflexivity | discriminate].
  - destruct H2 as [|y l2 Hy H2]; [discriminate|]. simpl in Hc, Hlen.
    apply app_inj_1 in Hc as [-> Hc]; [|congruence].
    f_equal. apply IH; [assumption | lia | assumption].
Qed.

(** X4.  The guardian set update body determines the update: two updates of
    at most 255 keys each (20-byte keys, 32-bit index) with the same
    serialization are the same update. *)
Theorem guardian_set_update_serialize_injective (b1 b2 : Vaa.BodyGuardianSetUpdate) :
  Vaa.wf_BodyGuardianSetUpdate b1 -> Vaa.wf_BodyGuardianSetUpdate b2 ->
  (length (Vaa.Keys b1) <= 255)%nat -> (length (Vaa.Keys b2) <= 255)%nat ->
  Vaa.BodyGuardianSetUpdate_Serialize b1 = Vaa.BodyGuardianSetUpdate_Serialize b2 ->
  b1 = b2.
Proof.
  intros [Hi1 Hk1] [Hi2 Hk2] Hn1 Hn2. unfold Vaa.BodyGuardianSetUpdate_Serialize.
  intros H. do 3 apply app_inv_head in H.
  apply app_inj_1 in H as [Hidx H]; [|now rewrite !BigEndian_put_length].
  apply app_inj_1 in H as [Hcnt H]; [|now rewrite !BigEndian_put_length].
  apply BigEndian_put_inj in Hidx; [|assumption..].
  apply BigEndian_put_inj in Hcnt;
    [|unfold uint8; apply Z.mod_pos_bound; reflexivity..].
  unfold uint8, len in Hcnt. rewrite !Z.mod_small in Hcnt by lia.
  destruct b1 as [k1 i1], b2 as [k2 i2]; simpl in *. subst i2. f_equal.
  apply (concat_chunks_inj 20); [assumption.. | lia | assumption].
Qed.

(** ** The admin converters *)

Lemma bytes_Equal_eq (a b : list byte) : bytes_Equal a b = true <-> a = b.
Proof.
  split; [|intros ->; apply bytes_Equal_refl].
  revert b. induction a as [|x a IH]; intros [|y b]; simpl; try discriminate; [reflexivity|].
  intros H. apply andb_prop in H as [Hxy Hab].
  apply Byte.byte_dec_bl in Hxy. f_equal; [exact Hxy | now apply IH].
Qed.

Section ConverterFacts.
Context {deps : AdminRpc.Deps}.
Import AdminRpc.

Lemma find_duplicate_None (j : Z) (addrs : list (list byte)) (ethAddr : list byte) :
  find_duplicate j addrs ethAddr = None <-> ethAddr ∉ addrs.
Proof.
  revert j. induction addrs as [|pk rest IH]; intros j; simpl.
  - split; [intros _; apply not_elem_of_nil | reflexivity].
  - rewrite not_elem_of_cons. destruct (bytes_Equal pk ethAddr) eqn:E.
    + apply bytes_Equal_eq in E. split; [discriminate | intros [Hne _]; congruence].
    + rewrite IH. split; [|tauto]. intros H. split; [|exact H].
      intros ->. rewrite bytes_Equal_refl in E. discriminate.
Qed.

(** The loop, started after [done] with the entries of the guardians still
    to come at zero. *)
Lemma convert_guardians_spec (guardians : list Guardian) (done : list (list byte)) :
  match convert_guardians (length done) guardians
          (done ++ replicate (length guardians) zero_address) with
  | Ok addrs =>
      (Forall (fun g => IsHexAddress (Pubkey g) = true) guardians /\
       NoDup (guardian_addresses guardians) /\
       (zero_address ∉ guardian_addresses guardians) /\
       (forall a, a ∈ guardian_addresses guardians -> a ∉ done)) /\
      addrs = done ++ guardian_addresses guardians
  | Err _ =>
      ~ (Forall (fun g => IsHexAddress (Pubkey g) = true) guardians /\
         NoDup (guardian_addresses guardians) /\
         (zero_address ∉ guardian_addresses guardians) /\
         (forall a, a ∈ guardian_addresses guardians -> a ∉ done))
  end.
Proof.
  revert done. induction guardians as [|g rest IH]; intros done.
  - simpl. rewrite app_nil_r. split; [|reflexivity].
    split; [constructor|]. split; [constructor|].
    split; [apply not_elem_of_nil|]. intros a Ha. now apply elem_of_nil in Ha.
  - cbn [convert_guardians guardian_addresses map length].
    destruct (IsHexAddress (Pubkey g)) eqn:Ehex; cbn [negb].
    2:{ intros (Hall & _). apply Forall_cons in Hall as [Hg _]. congruence. }
    set (a := HexToAddress (Pubkey g)).
    destruct (find_duplicate 0 (done ++ replicate (S (length rest)) zero_address) a)
      as [j|] eqn:Edup.
    { intros (_ & _ & Hz & Hdone).
      assert (find_duplicate 0 (done ++ replicate (S (length rest)) zero_address) a = None)
        as Hn; [|congruence].
      apply find_duplicate_None. rewrite elem_of_app. intros [Hin | Hin].
      - apply (Hdone a); [apply elem_of_cons; now left | exact Hin].
      - apply elem_of_replicate in Hin as [Hin _]. apply Hz.
        rewrite <- Hin. apply elem_of_cons. now left. }
    apply find_duplicate_None in Edup. rewrite elem_of_app in Edup.
    assert (a ∉ done) as Hdone by tauto.
    assert (a <> zero_address) as Hzero.
    { intros E. apply Edup. right. apply elem_of_replicate. split; [exact E | lia]. }
    replace (<[length done := a]> (done ++ replicate (S (length rest)) zero_address))
      with ((done ++ [a]) ++ replicate (length rest) zero_address).
    2:{ rewrite insert_app_r_alt by lia. rewrite Nat.sub_diag. cbn [replicate].
        now rewrite <- app_assoc. }
    specialize (IH (done ++ [a])).
    replace (length (done ++ [a])) with (S (length done)) in IH
      by (rewrite length_app; simpl; lia).
    fold (guardian_addresses rest).
    destruct (convert_guardians (S (length done)) rest
                ((done ++ [a]) ++ replicate (length rest) zero_address)) as [addrs|e].
    + destruct IH as ((Hall & Hnd & Hz & Hfresh) & ->).
      split; [|now rewrite <- app_assoc].
      split; [now constructor|].
      split.
      { constructor; [|exact Hnd]. intros Hin. apply (Hfresh a Hin).
        apply elem_of_app. right. apply list_elem_of_singleton. reflexivity. }
      split.
      { rewrite not_elem_of_cons. split; [congruence | exact Hz]. }
      intros x Hx. apply elem_of_cons in Hx as [-> | Hx]; [exact Hdone|].
      intros Hin. apply (Hfresh x Hx). apply elem_of_app. now left.
    + intros (Hall & Hnd & Hz & Hfresh). apply IH.
      apply Forall_cons in Hall as [_ Hall]. apply NoDup_cons in Hnd as [Hnew Hnd].
      apply not_elem_of_cons in Hz as [_ Hz].
      split; [exact Hall|]. split; [exact Hnd|]. split; [exact Hz|].
      intros x Hx. rewrite elem_of_app, list_elem_of_singleton. intros [Hin | ->].
      * apply (Hfresh x); [apply elem_of_cons; now right | exact Hin].
      * exact (Hnew Hx).
Qed.

(** X5.  [adminGuardianSetUpdateToVAA] accepts a request exactly when it has
    between one and [MaxGuardianCount] guardians, every public key is a hex
    address, no two keys give the same address and none gives the zero
    address (which the function reports as a duplicate).  The VAA then
    carries the addresses in the order of the request and the guardian set
    index plus one. *)
Theorem guardian_set_update_accepts_iff (req : GuardianSetUpdate)
    (timestamp guardianSetIndex nonce sequence : Z) :
  match adminGuardianSetUpdateToVAA req timestamp guardianSetIndex nonce sequence with
  | Ok v =>
      guardian_set_ok req /\
      v = CreateGovernanceVAA timestamp nonce sequence guardianSetIndex
            (Vaa.BodyGuardianSetUpdate_Serialize
               {| Vaa.Keys := guardian_addresses (Guardians req);
                  Vaa.NewIndex := (guardianSetIndex + 1) mod 2 ^ 32 |})
  | Err _ => ~ guardian_set_ok req
  end.
Proof.
  unfold adminGuardianSetUpdateToVAA, guardian_set_ok.
  destruct (Z.eqb_spec (len (Guardians req)) 0) as [E0|E0]; [lia|].
  destruct (Z.ltb_spec MaxGuardianCount (len (Guardians req))) as [Emax|Emax]; [lia|].
  pose proof (convert_guardians_spec (Guardians req) []) as H.
  cbn [length app] in H. fold zero_address.
  destruct (convert_guardians 0 (Guardians req)
              (replicate (length (Guardians req)) zero_address)) as [addrs|e].
  - destruct H as ((Hall & Hnd & Hz & _) & ->). cbn [app].
    split; [|reflexivity].
    split; [unfold len in *; lia|]. split; [exact Hall|]. split; [exact Hnd | exact Hz].
  - intros (_ & Hall & Hnd & Hz). apply H.
    split; [exact Hall|]. split; [exact Hnd|]. split; [exact Hz|].
    intros a _. apply not_elem_of_nil.
Qed.

End ConverterFacts.

(** *** Hexadecimal arguments *)

Lemma hex_DecodeString_spec_upto (n : nat) (s : string) :
  (String.length s <= n)%nat ->
  match hex_DecodeString s with
  | Some b => String.length s = (2 * length b)%nat /\
              Forall AdminRpc.is_hex_digit (String.list_ascii_of_string s)
  | None => String.length s <> (2 * (String.length s / 2))%nat \/
            ~ Forall AdminRpc.is_hex_digit (String.list_ascii_of_string s)
  end.
Proof.
  revert s. induction n as [|n IH]; intros s Hn.
  - destruct s; [|simpl in Hn; lia]. simpl. split; [reflexivity | constructor].
  - destruct s as [|hi [|lo rest]].
    + simpl. split; [reflexivity | constructor].
    + left. simpl. lia.
    + cbn [hex_DecodeString String.list_ascii_of_string].
      specialize (IH rest). cbn [String.length] in *.
      destruct (hex_value hi) as [h|] eqn:Eh.
      2:{ right. intros H. apply Forall_cons in H as [H _]. exact (H Eh). }
      destruct (hex_value lo) as [l|] eqn:El.
      2:{ right. intros H. apply Forall_cons in H as [_ H].
          apply Forall_cons in H as [H _]. exact (H El). }
      destruct (hex_DecodeString rest) as [bs|].
      * destruct IH as [Hlen Hall]; [lia|]. split; [simpl; lia|].
        constructor; [unfold AdminRpc.is_hex_digit; congruence|].
        constructor; [unfold AdminRpc.is_hex_digit; congruence | exact Hall].
      * destruct IH as [Hodd | Hbad]; [lia | left | right].
        -- change (S (S (String.length rest))) with (2 + String.length rest)%nat.
           replace (2 + String.length rest)%nat with (String.length rest + 1 * 2)%nat by lia.
           rewrite Nat.div_add by lia. lia.
        -- intros H. apply Forall_cons in H as [_ H]. apply Forall_cons in H as [_ H].
           exact (Hbad H).
Qed.

(** [hex.DecodeString] gives [n] bytes exactly on [2 * n] hexadecimal digits. *)
Lemma hex_DecodeString_length (n : nat) (s : string) :
  match hex_DecodeString s with
  | Some b => length b = n <-> AdminRpc.hex_of_length n s
  | None => ~ AdminRpc.hex_of_length n s
  end.
Proof.
  pose proof (hex_DecodeString_spec_upto (String.length s) s (le_n _)) as H.
  unfold AdminRpc.hex_of_length.
  destruct (hex_DecodeString s) as [b|].
  - destruct H as [Hlen Hall]. split; [intros <-; split; assumption | intros [Hl _]; lia].
  - intros [Hl Hall]. destruct H as [Hodd | Hbad]; [|exact (Hbad Hall)].
    apply Hodd. rewrite Hl. rewrite (Nat.mul_comm 2 n), Nat.div_mul by lia. lia.
Qed.

Lemma to_Address_32 (b : list byte) : length b = 32%nat -> AdminRpc.to_Address b = b.
Proof.
  intros H. unfold AdminRpc.to_Address. rewrite take_ge by lia.
  rewrite H. simpl. apply app_nil_r.
Qed.

Section BridgeConverterFacts.
Context {deps : AdminRpc.Deps}.
Import AdminRpc.

(** What the checks on a chain id and an address in hex leave. *)
Lemma address_checks (s : string) :
  match hex_DecodeString s with
  | Some b => if negb (length b =? 32)%nat then ~ hex_of_length 32 s
              else hex_of_length 32 s /\ to_Address b = b /\ unhex s = b
  | None => ~ hex_of_length 32 s
  end.
Proof.
  pose proof (hex_DecodeString_length 32 s) as H. unfold unhex.
  destruct (hex_DecodeString s) as [b|]; [|exact H].
  destruct (Nat.eqb_spec (length b) 32) as [E|E]; cbn [negb default].
  - split; [now apply H|]. split; [now apply to_Address_32 | reflexivity].
  - intros Hh. apply E. now apply H.
Qed.

(** X6.  [tokenBridgeRegisterChain] rejects a chain id above 65535 and an
    emitter address that is not 64 hexadecimal digits.  Past these checks
    it returns the VAA of the 69-byte register-chain body when the module
    name has at most 32 bytes, and panics for a longer name: the module
    name itself is not checked. *)
Theorem token_bridge_register_chain_outcome (req : BridgeRegisterChain)
    (timestamp guardianSetIndex nonce sequence : Z) :
  match tokenBridgeRegisterChain req timestamp guardianSetIndex nonce sequence with
  | Panic v =>
      brc_ChainId req <= 65535 /\ hex_of_length 32 (brc_EmitterAddress req) /\
      32 < strlen (brc_Module req) /\
      v = Errorf "payload longer than %d bytes" [ArgInt 32]
  | Returned (Ok v) =>
      brc_ChainId req <= 65535 /\ hex_of_length 32 (brc_EmitterAddress req) /\
      strlen (brc_Module req) <= 32 /\
      v = CreateGovernanceVAA timestamp nonce sequence guardianSetIndex
            ((replicate (32 - String.length (brc_Module req)) Byte.x00
              ++ bytes_of_string (brc_Module req))
             ++ BigEndian_put 1 1 ++ BigEndian_put 2 0
             ++ BigEndian_put 2 (brc_ChainId req mod 2 ^ 16)
             ++ unhex (brc_EmitterAddress req))
  | Returned (Err _) =>
      65535 < brc_ChainId req \/ ~ hex_of_length 32 (brc_EmitterAddress req)
  end.
Proof.
  unfold tokenBridgeRegisterChain, MaxUint16.
  destruct (Z.ltb_spec 65535 (brc_ChainId req)) as [Hc|Hc]; [now left|].
  pose proof (address_checks (brc_EmitterAddress req)) as Ha.
  destruct (hex_DecodeString (brc_EmitterAddress req)) as [b|]; [|now right].
  destruct (negb (length b =? 32)%nat); [now right|].
  destruct Ha as (Hh & -> & ->).
  unfold Vaa.BodyTokenBridgeRegisterChain_Serialize, Vaa.serializeBridgeGovernanceVaa.
  cbn [Vaa.rc_Module Vaa.rc_ChainID Vaa.rc_EmitterAddress].
  pose proof (LeftPadBytes_32 (brc_Module req)) as Hp.
  destruct (Vaa.LeftPadBytes (brc_Module req) 32) as [buf|v].
  - destruct Hp as (Hm & _ & ->). repeat (split; [assumption|]).
    unfold uint16, Vaa.ActionRegisterChain. now rewrite <- !app_assoc.
  - destruct Hp as [Hm ->]. repeat (split; [assumption|]). reflexivity.
Qed.

(** X7.  [tokenBridgeUpgradeContract] rejects a target chain id above 65535
    and a new contract address that is not 64 hexadecimal digits.  Past
    these checks it returns the VAA of the 67-byte upgrade body when the
    module name has at most 32 bytes, and panics for a longer name. *)
Theorem token_bridge_upgrade_contract_outcome (req : BridgeUpgradeContract)
    (timestamp guardianSetIndex nonce sequence : Z) :
  match tokenBridgeUpgradeContract req timestamp guardianSetIndex nonce sequence with
  | Panic v =>
      buc_TargetChainId req <= 65535 /\ hex_of_length 32 (buc_NewContract req) /\
      32 < strlen (buc_Module req) /\
      v = Errorf "payload longer than %d bytes" [ArgInt 32]
  | Returned (Ok v) =>
      buc_TargetChainId req <= 65535 /\ hex_of_length 32 (buc_NewContract req) /\
      strlen (buc_Module req) <= 32 /\
      v = CreateGovernanceVAA timestamp nonce sequence guardianSetIndex
            ((replicate (32 - String.length (buc_Module req)) Byte.x00
              ++ bytes_of_string (buc_Module req))
             ++ BigEndian_put 1 2
             ++ BigEndian_put 2 (buc_TargetChainId req mod 2 ^ 16)
             ++ unhex (buc_NewContract req))
  | Returned (Err _) =>
      65535 < buc_TargetChainId req \/ ~ hex_of_length 32 (buc_NewContract req)
  end.
Proof.
  unfold tokenBridgeUpgradeContract, MaxUint16.
  destruct (Z.ltb_spec 65535 (buc_TargetChainId req)) as [Hc|Hc]; [now left|].
  pose proof (address_checks (buc_NewContract req)) as Ha.
  destruct (hex_DecodeString (buc_NewContract req)) as [b|]; [|now right].
  destruct (negb (length b =? 32)%nat); [now right|].
  destruct Ha as (Hh & -> & ->).
  unfold Vaa.BodyTokenBridgeUpgradeContract_Serialize, Vaa.serializeBridgeGovernanceVaa.
  cbn [Vaa.uc_Module Vaa.uc_TargetChainID Vaa.uc_NewContract].
  pose proof (LeftPadBytes_32 (buc_Module req)) as Hp.
  destruct (Vaa.LeftPadBytes (buc_Module req) 32) as [buf|v].
  - destruct Hp as (Hm & _ & ->). repeat (split; [assumption|]).
    unfold uint16, Vaa.ActionUpgradeTokenBridge. now rewrite <- !app_assoc.
  - destruct Hp as [Hm ->]. repeat (split; [assumption|]). reflexivity.
Qed.

(** X8.  [wormholeRelayerSetDefaultDeliveryProvider] never panics: it
    returns a VAA exactly when the chain id is at most 65535 and the address
    is 64 hexadecimal digits, and the body is then the module name
    "WormholeRelayer" padded to 32 bytes, action 3, the chain and the
    address. *)
Theorem relayer_set_default_delivery_provider_outcome
    (req : WormholeRelayerSetDefaultDeliveryProvider)
    (timestamp guardianSetIndex nonce sequence : Z) :
  match wormholeRelayerSetDefaultDeliveryProvider req timestamp guardianSetIndex nonce
          sequence with
  | Panic _ => False
  | Returned (Ok v) =>
      sdp_ChainId req <= 65535 /\
      hex_of_length 32 (sdp_NewDefaultDeliveryProviderAddress req) /\
      v = CreateGovernanceVAA timestamp nonce sequence guardianSetIndex
            (Vaa.WormholeRelayerModule
             ++ BigEndian_put 1 3
             ++ BigEndian_put 2 (sdp_ChainId req mod 2 ^ 16)
             ++ unhex (sdp_NewDefaultDeliveryProviderAddress req))
  | Returned (Err _) =>
      65535 < sdp_ChainId req \/
      ~ hex_of_length 32 (sdp_NewDefaultDeliveryProviderAddress req)
  end.
Proof.
  unfold wormholeRelayerSetDefaultDeliveryProvider, MaxUint16.
  destruct (Z.ltb_spec 65535 (sdp_ChainId req)) as [Hc|Hc]; [now left|].
  pose proof (address_checks (sdp_NewDefaultDeliveryProviderAddress req)) as Ha.
  destruct (hex_DecodeString (sdp_NewDefaultDeliveryProviderAddress req)) as [b|];
    [|now right].
  destruct (negb (length b =? 32)%nat); [now right|].
  destruct Ha as (Hh & -> & ->).
  unfold Vaa.BodyWormholeRelayerSetDefaultDeliveryProvider_Serialize,
    Vaa.serializeBridgeGovernanceVaa.
  cbn [Vaa.dp_ChainID Vaa.dp_NewDefaultDeliveryProviderAddress].
  change (Vaa.LeftPadBytes Vaa.WormholeRelayerModuleStr 32)
    with (Returned Vaa.WormholeRelayerModule).
  repeat (split; [assumption|]). reflexivity.
Qed.

(** X9.  [adminContractUpgradeToVAA] returns a VAA exactly when the new
    contract address is 64 hexadecimal digits and the chain id is at most
    65535; the body is then the contract upgrade of that chain to that
    address. *)
Theorem contract_upgrade_accepts_iff (req : ContractUpgrade)
    (timestamp guardianSetIndex nonce sequence : Z) :
  match adminContractUpgradeToVAA req timestamp guardianSetIndex nonce sequence with
  | Ok v =>
      hex_of_length 32 (cu_NewContract req) /\ cu_ChainId req <= 65535 /\
      v = CreateGovernanceVAA timestamp nonce sequence guardianSetIndex
            (Vaa.BodyContractUpgrade_Serialize
               {| Vaa.ChainID := cu_ChainId req mod 2 ^ 16;
                  Vaa.NewContract := unhex (cu_NewContract req) |})
  | Err _ => ~ (hex_of_length 32 (cu_NewContract req) /\ cu_ChainId req <= 65535)
  end.
Proof.
  unfold adminContractUpgradeToVAA, MaxUint16.
  pose proof (address_checks (cu_NewContract req)) as Ha.
  destruct (hex_DecodeString (cu_NewContract req)) as [b|]; [|tauto].
  destruct (negb (length b =? 32)%nat); [tauto|].
  destruct Ha as (Hh & -> & ->).
  destruct (Z.ltb_spec 65535 (cu_ChainId req)) as [Hc|Hc]; [lia|].
  repeat (split; [assumption|]). reflexivity.
Qed.

End BridgeConverterFacts.

(** ** What a backfill sends and requests *)

Section BackfillEffects.
Context {world : AdminRpc.World}.
Import AdminRpc.

(** X10.  [fetchMissing] shuffles the nodes and asks them in the new
    order, one request each, and stops at the first node that settles the
    matter.  It returns [true] when that node answers 200 with a body that
    decodes, every node before it having made the pass go on: that VAA, and
    nothing else, is sent on [signedInC], and no node after it is asked.
    It returns [false] when every node made the pass go on, each asked
    once.  It returns an error at the first node whose request cannot be
    created (that node is not asked) or whose answer has an unexpected
    status; nothing is sent then, and no later node is asked. *)
Theorem fetch_missing_effects (nodes : list string) (chain : Z) (addr : string) (seq : Z)
    (s : service) :
  let '(s', nodes', r) := fetchMissing nodes chain addr seq s in
  let s0 := {| rand := (rand_Shuffle (rand s) nodes).1; signedInC := signedInC s;
               requested := requested s |} in
  nodes' = (rand_Shuffle (rand s) nodes).2 /\
  match r with
  | Ok true =>
      exists tried node rest vaaBytes,
        nodes' = tried ++ node :: rest /\
        passed_over tried chain addr seq 0 /\
        http_NewRequest (node, chain, addr, seq) = None /\
        classify (client_Do (elapsed_after tried chain addr seq 0)
                    (node, chain, addr, seq)).1 = Filled vaaBytes /\
        s' = after_pass s0 (urls (tried ++ [node]) chain addr seq) [vaaBytes]
  | Ok false =>
      passed_over nodes' chain addr seq 0 /\
      s' = after_pass s0 (urls nodes' chain addr seq) []
  | Err e =>
      exists tried node rest,
        nodes' = tried ++ node :: rest /\
        passed_over tried chain addr seq 0 /\
        ((exists err,
            http_NewRequest (node, chain, addr, seq) = Some err /\
            e = Wrapf "failed to create request: %w" [] err /\
            s' = after_pass s0 (urls tried chain addr seq) []) \/
         (exists StatusCode,
            http_NewRequest (node, chain, addr, seq) = None /\
            classify (client_Do (elapsed_after tried chain addr seq 0)
                        (node, chain, addr, seq)).1 = Abort StatusCode /\
            e = Errorf "unexpected response status: %d" [ArgInt StatusCode] /\
            s' = after_pass s0 (urls (tried ++ [node]) chain addr seq) []))
  end.
Proof.
  unfold fetchMissing.
  destruct (rand_Shuffle (rand s) nodes) as [rand' nodes']. cbn [fst snd].
  pose proof (tryNodes_outcome nodes' chain addr seq 0
                {| rand := rand'; signedInC := signedInC s; requested := requested s |}) as H.
  destruct (tryNodes nodes' chain addr seq 0 _) as [s' r].
  split; [reflexivity | exact H].
Qed.

(** X11.  [FindMissingMessages] only appends to [signedInC].  When it
    returns a response, the sequences are those of the store's gap (looked
    up under the low 16 bits of the emitter chain) and every missing id was
    either sent on as a VAA or is reported: the VAAs sent and the messages
    reported are as many as the gap has ids.  Without [rpc_backfill]
    nothing is sent or requested, and a failed call has sent fewer VAAs
    than the gap has ids. *)
Theorem find_missing_messages_accounting (req : FindMissingMessagesRequest) (s : service) :
  let '(s', r) := FindMissingMessages req s in
  (RpcBackfill req = false -> s' = s) /\
  exists sent,
    signedInC s' = signedInC s ++ sent /\
    match r with
    | Ok resp =>
        exists ids,
          FindEmitterSequenceGap (EmitterChain req mod 2 ^ 16)
            (to_Address (unhex (EmitterAddress req)))
          = Ok (ids, FirstSequence resp, LastSequence resp) /\
          (length sent + length (MissingMessages resp) = length ids)%nat
    | Err _ =>
        sent = [] \/
        exists ids first last,
          FindEmitterSequenceGap (EmitterChain req mod 2 ^ 16)
            (to_Address (unhex (EmitterAddress req)))
          = Ok (ids, first, last) /\
          (length sent < length ids)%nat
    end.
Proof.
  unfold FindMissingMessages, unhex, uint16.
  destruct (hex_DecodeString (EmitterAddress req)) as [b|]; cbn [from_option]; unfold id.
  2:{ split; [reflexivity|]. exists []. rewrite app_nil_r. split; [reflexivity | now left]. }
  destruct (FindEmitterSequenceGap (EmitterChain req mod 2 ^ 16) (to_Address b))
    as [[[ids first] last]|err].
  2:{ split; [reflexivity|]. exists []. rewrite app_nil_r. split; [reflexivity | now left]. }
  destruct (RpcBackfill req).
  - destruct (backfill_accounting ids (BackfillNodes req) (EmitterChain req mod 2 ^ 16)
                (hex_EncodeToString (to_Address b)) [] s) as (sent & Hsent & Hr).
    destruct (backfill ids (BackfillNodes req) (EmitterChain req mod 2 ^ 16)
                (hex_EncodeToString (to_Address b)) [] s) as [s' r].
    cbn [fst snd] in *.
    destruct r as [un|e]; cbv beta iota; (split; [discriminate|]);
      exists sent; (split; [exact Hsent|]).
    + destruct Hr as (missing & -> & Hlen). exists ids. cbn [app].
      cbn [MissingMessages FirstSequence LastSequence]. rewrite length_map.
      split; [reflexivity | exact Hlen].
    + right. exists ids, first, last. split; [reflexivity | exact Hr].
  - split; [reflexivity|]. exists []. rewrite app_nil_r. split; [reflexivity|].
    exists ids. cbn [MissingMessages FirstSequence LastSequence]. rewrite length_map.
    split; reflexivity.
Qed.

End BackfillEffects.

(** ** [Equal] decides equality *)

Lemma all_equal_eq {A} (eq : A -> A -> bool) (left right : list A) :
  (forall x y, eq x y = true -> x = y) ->
  length left = length right -> Query.all_equal eq left right = true -> left = right.
Proof.
  intros Heq. revert right.
  induction left as [|l left IH]; intros [|r right] Hlen; try discriminate; [reflexivity|].
  simpl. intros H. apply andb_prop in H as [Hlr H].
  f_equal; [now apply Heq | apply IH; [simpl in Hlen; lia | exact H]].
Qed.

Section EqualFacts.
Import Query.

Lemma SolanaAccountQueryRequest_Equal_eq (left right : SolanaAccountQueryRequest) :
  SolanaAccountQueryRequest_Equal left right = true -> left = right.
Proof.
  destruct left as [c1 m1 o1 l1 a1], right as [c2 m2 o2 l2 a2].
  unfold SolanaAccountQueryRequest_Equal.
  cbn [saq_Commitment saq_MinContextSlot saq_DataSliceOffset saq_DataSliceLength saq_Accounts].
  destruct (String.eqb_spec c1 c2); [|discriminate].
  destruct (Z.eqb_spec m1 m2); [|discriminate].
  destruct (Z.eqb_spec o1 o2); [|discriminate].
  destruct (Z.eqb_spec l1 l2); [|discriminate].
  destruct (Nat.eqb_spec (length a1) (length a2)) as [Hl|]; [|discriminate].
  cbn [negb orb]. intros H. subst. f_equal.
  apply (all_equal_eq bytes_Equal); [apply bytes_Equal_eq | exact Hl | exact H].
Qed.

Lemma SolanaPDAEntry_equal_eq (left right : SolanaPDAEntry) :
  SolanaPDAEntry_equal left right = true -> left = right.
Proof.
  destruct left as [p1 s1], right as [p2 s2]. unfold SolanaPDAEntry_equal.
  cbn [ProgramAddress Seeds].
  destruct (bytes_Equal p1 p2) eqn:Hp; [|discriminate].
  destruct (Nat.eqb_spec (length s1) (length s2)) as [Hl|]; [|discriminate].
  cbn [negb]. intros H. apply bytes_Equal_eq in Hp. subst. f_equal.
  apply (all_equal_eq bytes_Equal); [apply bytes_Equal_eq | exact Hl | exact H].
Qed.

Lemma SolanaPdaQueryRequest_Equal_eq (left right : SolanaPdaQueryRequest) :
  SolanaPdaQueryRequest_Equal left right = true -> left = right.
Proof.
  destruct left as [c1 m1 o1 l1 a1], right as [c2 m2 o2 l2 a2].
  unfold SolanaPdaQueryRequest_Equal.
  cbn [spda_Commitment spda_MinContextSlot spda_DataSliceOffset spda_DataSliceLength
       spda_PDAs].
  destruct (String.eqb_spec c1 c2); [|discriminate].
  destruct (Z.eqb_spec m1 m2); [|discriminate].
  destruct (Z.eqb_spec o1 o2); [|discriminate].
  destruct (Z.eqb_spec l1 l2); [|discriminate].
  destruct (Nat.eqb_spec (length a1) (length a2)) as [Hl|]; [|discriminate].
  cbn [negb orb]. intros H. subst. f_equal.
  apply (all_equal_eq SolanaPDAEntry_equal);
    [apply SolanaPDAEntry_equal_eq | exact Hl | exact H].
Qed.

Lemma PerChainQueryRequest_Equal_eq (left right : PerChainQueryRequest) :
  PerChainQueryRequest_Equal left right = true -> left = right.
Proof.
  destruct left as [c1 q1], right as [c2 q2]. unfold PerChainQueryRequest_Equal.
  cbn [ChainId Query].
  destruct (Z.eqb_spec c1 c2); [|discriminate]. cbn [negb]. subst.
  destruct q1 as [[a1|p1]|], q2 as [[a2|p2]|]; try discriminate; try reflexivity;
    cbn [ChainSpecificQuery_Type]; rewrite Z.eqb_refl; cbn [negb]; intros H.
  - apply SolanaAccountQueryRequest_Equal_eq in H. now subst.
  - apply SolanaPdaQueryRequest_Equal_eq in H. now subst.
Qed.

(** X12.  [QueryRequest.Equal] holds of two requests exactly when they are
    the same request: same nonce and, query by query, same chain, same kind
    and same fields. *)
Theorem query_request_equal_iff (left right : QueryRequest) :
  QueryRequest_Equal left right = true <-> left = right.
Proof.
  split; [|intros ->; apply QueryRequest_Equal_refl].
  destruct left as [n1 p1], right as [n2 p2]. unfold QueryRequest_Equal.
  cbn [Nonce PerChainQueries].
  destruct (Z.eqb_spec n1 n2); [|discriminate].
  destruct (Nat.eqb_spec (length p1) (length p2)) as [Hl|]; [|discriminate].
  cbn [negb]. intros H. subst. f_equal.
  apply (all_equal_eq PerChainQueryRequest_Equal);
    [apply PerChainQueryRequest_Equal_eq | exact Hl | exact H].
Qed.

End EqualFacts.

(** ** What the decoder accepts *)

Lemma Z_of_byte_bound (b : byte) : 0 <= Z_of_byte b < 256.
Proof. unfold Z_of_byte. pose proof (Byte.to_N_bounded b). lia. Qed.

Lemma byte_of_Z_of_byte (b : byte) : byte_of_Z (Z_of_byte b) = b.
Proof.
  unfold byte_of_Z. rewrite Z.mod_small by apply Z_of_byte_bound.
  unfold Z_of_byte. now rewrite N2Z.id, Byte.of_to_N.
Qed.

Lemma Z_of_byte_inj (a b : byte) : Z_of_byte a = Z_of_byte b -> a = b.
Proof. intros H. rewrite <- (byte_of_Z_of_byte a), H. apply byte_of_Z_of_byte. Qed.

Lemma BigEndian_get_cons (b : byte) (bs : list byte) :
  BigEndian_get (b :: bs) = Z_of_byte b * 256 ^ len bs + BigEndian_get bs.
Proof. unfold BigEndian_get at 1. cbn [fold_left]. now rewrite BigEndian_get_acc. Qed.

Lemma BigEndian_get_bound (bs : list byte) : 0 <= BigEndian_get bs < 256 ^ len bs.
Proof.
  induction bs as [|b bs IH].
  - unfold BigEndian_get, len. simpl. lia.
  - rewrite BigEndian_get_cons. pose proof (Z_of_byte_bound b).
    unfold len in *. rewrite length_cons, Nat2Z.inj_succ, Z.pow_succ_r by lia. nia.
Qed.

Lemma BigEndian_get_inj (l1 l2 : list byte) :
  length l1 = length l2 -> BigEndian_get l1 = BigEndian_get l2 -> l1 = l2.
Proof.
  revert l2. induction l1 as [|a l1 IH]; intros [|b l2] Hlen; try discriminate;
    [reflexivity|].
  rewrite !BigEndian_get_cons. intros H. injection Hlen as Hlen.
  pose proof (BigEndian_get_bound l1) as B1. pose proof (BigEndian_get_bound l2) as B2.
  pose proof (Z_of_byte_bound a). pose proof (Z_of_byte_bound b).
  unfold len in *. rewrite <- Hlen in *.
  assert (Z_of_byte a = Z_of_byte b /\ BigEndian_get l1 = BigEndian_get l2) as [Ha Hl].
  { set (m := 256 ^ Z.of_nat (length l1)) in *.
    assert (Z_of_byte a = Z_of_byte b) as E.
    { rewrite (Z.div_unique (Z_of_byte a * m + BigEndian_get l1) m (Z_of_byte a)
                 (BigEndian_get l1)) by lia.
      rewrite H. symmetry. apply (Z.div_unique _ m _ (BigEndian_get l2)); lia. }
    split; [exact E|]. rewrite E in H. lia. }
  f_equal; [now apply Z_of_byte_inj | now apply IH].
Qed.

Lemma BigEndian_put_get (bs : list byte) :
  BigEndian_put (length bs) (BigEndian_get bs) = bs.
Proof.
  apply BigEndian_get_inj; [apply BigEndian_put_length|].
  rewrite BigEndian_get_put. apply Z.mod_small, BigEndian_get_bound.
Qed.

Lemma binary_Read_inv (n : nat) (data : list byte) (v : Z) (rest : list byte) :
  binary_Read n data = Ok (v, rest) ->
  data = BigEndian_put n v ++ rest /\ 0 <= v < 256 ^ Z.of_nat n.
Proof.
  unfold binary_Read. destruct data as [|b data]; [discriminate|].
  case_decide as Hlt; [discriminate|]. intros [= <- <-].
  assert (length (take n (b :: data)) = n) as Hl by (rewrite length_take; lia).
  split.
  - rewrite <- Hl at 1. rewrite BigEndian_put_get. symmetry. apply take_drop.
  - pose proof (BigEndian_get_bound (take n (b :: data))) as Hb.
    unfold len in Hb. now rewrite Hl in Hb.
Qed.

Lemma wrap_inv {A} (msg : string) (p : Reader A) (data : list byte) (x : A)
    (rest : list byte) :
  wrap msg p data = Ok (x, rest) -> p data = Ok (x, rest).
Proof. unfold wrap. destruct (p data); [trivial | discriminate]. Qed.

Lemma bind_inv {A B} (p : Reader A) (f : A -> Reader B) (data : list byte) (y : B)
    (rest : list byte) :
  bind p f data = Ok (y, rest) ->
  exists x mid, p data = Ok (x, mid) /\ f x mid = Ok (y, rest).
Proof. unfold bind. destruct (p data) as [[x mid]|]; [eauto | discriminate]. Qed.

Lemma wrap_binary_Read_inv (msg : string) (n : nat) (data : list byte) (v : Z)
    (rest : list byte) :
  wrap msg (binary_Read n) data = Ok (v, rest) ->
  data = BigEndian_put n v ++ rest /\ 0 <= v < 256 ^ Z.of_nat n.
Proof. intros H. now apply wrap_inv, binary_Read_inv in H. Qed.

Lemma read_exact_inv (msg : string) (n : nat) (data buf rest : list byte) :
  read_exact msg n data = Ok (buf, rest) -> data = buf ++ rest /\ length buf = n.
Proof.
  unfold read_exact, Reader_Read. destruct data as [|b data]; [discriminate|].
  case_decide as Hn; [discriminate|]. intros [= <- <-].
  split; [symmetry; apply take_drop | rewrite length_take; lia].
Qed.

(** A loop of a reader that inverts an encoder inverts the concatenation of
    the encodings. *)
Lemma read_loop_inv {A} (p : Reader A) (enc : A -> list byte) (P : A -> Prop) :
  (forall data x rest, p data = Ok (x, rest) -> P x /\ data = enc x ++ rest) ->
  forall (n : nat) (acc : list A) (data : list byte) (xs : list A) (rest : list byte),
    read_loop n p acc data = Ok (xs, rest) ->
    exists ys, xs = acc ++ ys /\ length ys = n /\ Forall P ys /\
               data = concat (map enc ys) ++ rest.
Proof.
  intros Hp. induction n as [|n IH]; intros acc data xs rest.
  - simpl. unfold ret. intros [= <- <-]. exists []. rewrite app_nil_r.
    repeat split; constructor.
  - cbn [read_loop]. intros H. apply bind_inv in H as (x & mid & Hx & H).
    apply Hp in Hx as [HP ->]. apply IH in H as (ys & -> & Hlen & Hall & ->).
    exists (x :: ys). rewrite <- app_assoc. cbn [map concat length app].
    split; [reflexivity|]. split; [lia|]. split; [now constructor|].
    now rewrite <- app_assoc.
Qed.

Lemma string_of_bytes_length (b : list byte) :
  String.length (string_of_bytes b) = length b.
Proof.
  rewrite <- bytes_of_string_length. unfold bytes_of_string, string_of_bytes.
  now rewrite String.list_byte_of_string_of_list_byte.
Qed.

Lemma bytes_of_string_of_bytes (b : list byte) : bytes_of_string (string_of_bytes b) = b.
Proof. apply String.list_byte_of_string_of_list_byte. Qed.

Section DecoderFacts.
Import Query.
Context {chains : ChainTable}.

Local Opaque BigEndian_put.

Ltac inv_bind H x mid Hx :=
  apply bind_inv in H as (x & mid & Hx & H).

Ltac inv_int Hx :=
  let Hb := fresh "Hb" in
  apply wrap_binary_Read_inv in Hx as [-> Hb].

Lemma read_account_inv (msg : string) (data a rest : list byte) :
  read_exact msg SolanaPublicKeyLength data = Ok (a, rest) ->
  length a = SolanaPublicKeyLength /\ data = id a ++ rest.
Proof. intros H. apply read_exact_inv in H as [-> Hl]. now split. Qed.

Lemma unmarshal_seed_inv (data seed rest : list byte) :
  unmarshal_seed data = Ok (seed, rest) ->
  len seed < 2 ^ 32 /\ data = marshal_seed seed ++ rest.
Proof.
  unfold unmarshal_seed. intros H. inv_bind H seedLen mid Hlen. inv_int Hlen.
  apply read_exact_inv in H as [-> Hl]. unfold marshal_seed, uint32, len.
  rewrite Hl, Z2Nat.id by lia. change (256 ^ Z.of_nat 4) with (2 ^ 32) in *.
  rewrite Z.mod_small by lia. split; [lia | now rewrite <- app_assoc].
Qed.

Lemma unmarshal_pda_inv (data : list byte) (pda : SolanaPDAEntry) (rest : list byte) :
  unmarshal_pda data = Ok (pda, rest) ->
  (wf_SolanaPDAEntry pda /\ len (Seeds pda) < 2 ^ 8 /\
   Forall (fun seed => len seed < 2 ^ 32) (Seeds pda)) /\
  data = marshal_pda pda ++ rest.
Proof.
  unfold unmarshal_pda. intros H.
  inv_bind H programAddress mid1 Hpa. apply read_exact_inv in Hpa as [-> Hpa].
  inv_bind H numSeeds mid2 Hn. inv_int Hn.
  inv_bind H seeds mid3 Hs.
  apply (read_loop_inv _ marshal_seed (fun seed => len seed < 2 ^ 32)) in Hs
    as (ys & -> & Hlen & Hall & ->); [|apply unmarshal_seed_inv].
  unfold ret in H. injection H as <- <-. cbn [app].
  unfold wf_SolanaPDAEntry, marshal_pda, uint8, len. cbn [ProgramAddress Seeds].
  change (256 ^ Z.of_nat 1) with (2 ^ 8) in *.
  rewrite Hlen, Z2Nat.id, Z.mod_small by lia.
  split; [split; [exact Hpa | split; [lia | exact Hall]]|].
  now rewrite <- !app_assoc.
Qed.

End DecoderFacts.

Lemma read_loop_inv_rel {A} (p : Reader A) (R : A -> list byte -> Prop) :
  (forall data x rest, p data = Ok (x, rest) -> exists c, R x c /\ data = c ++ rest) ->
  forall (n : nat) (acc : list A) (data : list byte) (xs : list A) (rest : list byte),
    read_loop n p acc data = Ok (xs, rest) ->
    exists ys cs, xs = acc ++ ys /\ length ys = n /\ Forall2 R ys cs /\
                  data = concat cs ++ rest.
Proof.
  intros Hp. induction n as [|n IH]; intros acc data xs rest.
  - simpl. unfold ret. intros [= <- <-]. exists [], []. rewrite app_nil_r.
    repeat split; constructor.
  - cbn [read_loop]. intros H. apply bind_inv in H as (x & mid & Hx & H).
    apply Hp in Hx as (c & HR & ->). apply IH in H as (ys & cs & -> & Hlen & Hall & ->).
    exists (x :: ys), (c :: cs). rewrite <- app_assoc. cbn [concat length app].
    split; [reflexivity|]. split; [lia|]. split; [now constructor|].
    now rewrite <- app_assoc.
Qed.

Lemma set_query_len_layout (hd l0 l body : list byte) :
  length hd = 3%nat -> length l0 = 4%nat ->
  Query.set_query_len (hd ++ l0 ++ body) l = hd ++ l ++ body.
Proof.
  intros Hhd Hl0. unfold Query.set_query_len.
  rewrite take_app_length' by (symmetry; exact Hhd).
  rewrite (app_assoc hd l0), drop_app_length' by (rewrite length_app; lia). reflexivity.
Qed.

Section DecoderInverse.
Import Query.
Context {chains : ChainTable}.

Local Opaque BigEndian_put.

Ltac inv_bind H x mid Hx :=
  apply bind_inv in H as (x & mid & Hx & H).

Ltac inv_int Hx :=
  let Hb := fresh "Hb" in
  apply wrap_binary_Read_inv in Hx as [-> Hb].

(** The bytes [SolanaAccountQueryRequest.Marshal] writes once the request
    is validated. *)
Lemma SolanaAccountQueryRequest_Unmarshal_inv (data : list byte)
    (q : SolanaAccountQueryRequest) (rest : list byte) :
  SolanaAccountQueryRequest_UnmarshalFromReader data = Ok (q, rest) ->
  exists body,
    data = body ++ rest /\ wf_SolanaAccountQueryRequest q /\
    forall bs, SolanaAccountQueryRequest_Marshal q = Ok bs -> bs = body.
Proof.
  unfold SolanaAccountQueryRequest_UnmarshalFromReader. intros H.
  inv_bind H n mid0 Hn. inv_int Hn.
  destruct (Z.ltb_spec (Z.of_nat SolanaMaxCommitmentLength) n) as [|Hmax];
    [discriminate|].
  inv_bind H commitment mid1 Hc. apply read_exact_inv in Hc as [-> Hc].
  inv_bind H minContextSlot mid2 Hm. inv_int Hm.
  inv_bind H dataSliceOffset mid3 Ho. inv_int Ho.
  inv_bind H dataSliceLength mid4 Hl. inv_int Hl.
  inv_bind H numAccounts mid5 Hna. inv_int Hna.
  inv_bind H accounts mid6 Ha.
  apply (read_loop_inv _ id (fun a => length a = SolanaPublicKeyLength)) in Ha
    as (ys & -> & Hlen & Hall & ->).
  2:{ intros d x r Hx. apply read_exact_inv in Hx as [-> Hx]. now split. }
  unfold ret in H. injection H as <- <-. cbn [app].
  change (256 ^ Z.of_nat 8) with (2 ^ 64) in *.
  eexists. split; [rewrite !app_assoc; reflexivity|].
  split; [unfold wf_SolanaAccountQueryRequest, is_uint; cbn; tauto|].
  intros bs. unfold SolanaAccountQueryRequest_Marshal.
  destruct (SolanaAccountQueryRequest_Validate _); [discriminate|]. intros [= <-].
  cbn [saq_Commitment saq_MinContextSlot saq_DataSliceOffset saq_DataSliceLength
       saq_Accounts].
  unfold uint32, uint8, strlen, len, SolanaMaxCommitmentLength in *.
  rewrite string_of_bytes_length, bytes_of_string_of_bytes, Hc, Hlen.
  change (256 ^ Z.of_nat 4) with (2 ^ 32) in *. change (256 ^ Z.of_nat 1) with (2 ^ 8) in *.
  rewrite !Z2Nat.id, !Z.mod_small by lia.
  rewrite list_fmap_id. now rewrite !app_assoc.
Qed.

Lemma SolanaPdaQueryRequest_Unmarshal_inv (data : list byte)
    (q : SolanaPdaQueryRequest) (rest : list byte) :
  SolanaPdaQueryRequest_UnmarshalFromReader data = Ok (q, rest) ->
  exists body,
    data = body ++ rest /\ wf_SolanaPdaQueryRequest q /\
    forall bs, SolanaPdaQueryRequest_Marshal q = Ok bs -> bs = body.
Proof.
  unfold SolanaPdaQueryRequest_UnmarshalFromReader. intros H.
  inv_bind H n mid0 Hn. inv_int Hn.
  destruct (Z.ltb_spec (Z.of_nat SolanaMaxCommitmentLength) n) as [|Hmax];
    [discriminate|].
  inv_bind H commitment mid1 Hc. apply read_exact_inv in Hc as [-> Hc].
  inv_bind H minContextSlot mid2 Hm. inv_int Hm.
  inv_bind H dataSliceOffset mid3 Ho. inv_int Ho.
  inv_bind H dataSliceLength mid4 Hl. inv_int Hl.
  inv_bind H numPDAs mid5 Hna. inv_int Hna.
  inv_bind H pdas mid6 Ha.
  apply (read_loop_inv _ marshal_pda _ unmarshal_pda_inv) in Ha
    as (ys & -> & Hlen & Hall & ->).
  unfold ret in H. injection H as <- <-. cbn [app].
  change (256 ^ Z.of_nat 8) with (2 ^ 64) in *.
  eexists. split; [rewrite !app_assoc; reflexivity|].
  split.
  { unfold wf_SolanaPdaQueryRequest, is_uint; cbn.
    repeat (split; [tauto|]). eapply Forall_impl; [exact Hall|]. cbn. tauto. }
  intros bs. unfold SolanaPdaQueryRequest_Marshal.
  destruct (SolanaPdaQueryRequest_Validate _); [discriminate|]. intros [= <-].
  cbn [spda_Commitment spda_MinContextSlot spda_DataSliceOffset spda_DataSliceLength
       spda_PDAs].
  unfold uint32, uint8, strlen, len, SolanaMaxCommitmentLength in *.
  rewrite string_of_bytes_length, bytes_of_string_of_bytes, Hc, Hlen.
  change (256 ^ Z.of_nat 4) with (2 ^ 32) in *. change (256 ^ Z.of_nat 1) with (2 ^ 8) in *.
  rewrite !Z2Nat.id, !Z.mod_small by lia.
  now rewrite !app_assoc.
Qed.

(** What [PerChainQueryRequest.Marshal] returns: chain, type, the length of
    the query's bytes and these bytes. *)
Lemma PerChainQueryRequest_Marshal_inv (p : PerChainQueryRequest) (bs : list byte) :
  PerChainQueryRequest_Marshal p = Ok bs ->
  exists q queryBuf,
    Query p = Some q /\ ChainSpecificQuery_Marshal q = Ok queryBuf /\
    len queryBuf < 2 ^ 32 /\
    bs = BigEndian_put 2 (ChainId p) ++ BigEndian_put 1 (ChainSpecificQuery_Type q)
         ++ BigEndian_put 4 (len queryBuf) ++ queryBuf.
Proof.
  unfold PerChainQueryRequest_Marshal.
  destruct (PerChainQueryRequest_Validate p); [discriminate|].
  destruct (Query p) as [q|] eqn:Eq; [|discriminate].
  destruct (ChainSpecificQuery_Marshal q) as [queryBuf|] eqn:Em; [|discriminate].
  unfold MaxUint32. destruct (Z.ltb_spec 4294967295 (len queryBuf)); [discriminate|].
  intros [= <-]. exists q, queryBuf. unfold uint32.
  rewrite Z.mod_small by (unfold len in *; lia).
  split; [reflexivity|]. split; [exact Em|]. split; [lia | reflexivity].
Qed.

(** The decoder of a per-chain query leaves the query length aside and
    reads, after it, exactly the bytes that [Marshal] writes for the query
    it returns. *)
Lemma PerChainQueryRequest_Unmarshal_inv (data : list byte) (p : PerChainQueryRequest)
    (rest : list byte) :
  PerChainQueryRequest_UnmarshalFromReader data = Ok (p, rest) ->
  exists c,
    (wf_PerChainQueryRequest p /\
     forall bs, PerChainQueryRequest_Marshal p = Ok bs ->
                exists l, length l = 4%nat /\ c = set_query_len bs l) /\
    data = c ++ rest.
Proof.
  unfold PerChainQueryRequest_UnmarshalFromReader. intros H.
  inv_bind H chainId mid0 Hc. inv_int Hc.
  inv_bind H qt mid1 Hq. inv_int Hq.
  destruct (ValidatePerChainQueryRequestType qt); [discriminate|].
  inv_bind H queryLength mid2 Hl. inv_int Hl.
  change (256 ^ Z.of_nat 2) with (2 ^ 16) in *.
  assert (forall q body,
            wf_ChainSpecificQuery q -> ChainSpecificQuery_Type q = qt ->
            (forall queryBuf, ChainSpecificQuery_Marshal q = Ok queryBuf -> queryBuf = body) ->
            wf_PerChainQueryRequest {| ChainId := chainId; Query := Some q |} /\
            forall bs,
              PerChainQueryRequest_Marshal {| ChainId := chainId; Query := Some q |} = Ok bs ->
              exists l, length l = 4%nat /\
                        BigEndian_put 2 chainId ++ BigEndian_put 1 qt
                        ++ BigEndian_put 4 queryLength ++ body
                        = set_query_len bs l) as Hgen.
  { intros q body Hwf Hqt Hbody.
    split; [split; [exact Hb | exact Hwf]|].
    intros bs Hbs. apply PerChainQueryRequest_Marshal_inv in Hbs
      as (q' & queryBuf & [= <-] & Em & _ & ->).
    cbn [ChainId] in *. apply Hbody in Em as ->.
    exists (BigEndian_put 4 queryLength). split; [apply BigEndian_put_length|].
    rewrite Hqt, !(app_assoc (BigEndian_put 2 chainId)).
    symmetry. apply set_query_len_layout; [|apply BigEndian_put_length].
    now rewrite length_app, !BigEndian_put_length. }
  destruct (Z.eqb_spec qt SolanaAccountQueryRequestType) as [Et|Et].
  - inv_bind H q mid3 Hq. apply wrap_inv in Hq.
    apply SolanaAccountQueryRequest_Unmarshal_inv in Hq as (body & -> & Hwf & Hm).
    unfold ret in H. injection H as <- <-.
    exists (BigEndian_put 2 chainId ++ BigEndian_put 1 qt
            ++ BigEndian_put 4 queryLength ++ body).
    split; [|now rewrite <- !app_assoc].
    apply (Hgen (SolAccount q)); [exact Hwf | now symmetry | exact Hm].
  - destruct (Z.eqb_spec qt SolanaPdaQueryRequestType) as [Ep|Ep]; [|discriminate].
    inv_bind H q mid3 Hq. apply wrap_inv in Hq.
    apply SolanaPdaQueryRequest_Unmarshal_inv in Hq as (body & -> & Hwf & Hm).
    unfold ret in H. injection H as <- <-.
    exists (BigEndian_put 2 chainId ++ BigEndian_put 1 qt
            ++ BigEndian_put 4 queryLength ++ body).
    split; [|now rewrite <- !app_assoc].
    apply (Hgen (SolPda q)); [exact Hwf | now symmetry | exact Hm].
Qed.

(** The fields ahead of the per-chain queries, as [Marshal] writes them. *)
Lemma QueryRequest_readFields_inv (data : list byte) (q : QueryRequest) (rest : list byte) :
  QueryRequest_readFields data = Ok (q, rest) ->
  wf_QueryRequest q /\
  exists cs,
    Forall2 (fun p c =>
               forall bs, PerChainQueryRequest_Marshal p = Ok bs ->
                          exists l, length l = 4%nat /\ c = set_query_len bs l)
      (PerChainQueries q) cs /\
    data = (BigEndian_put 1 MSG_VERSION ++ BigEndian_put 4 (Nonce q)
            ++ BigEndian_put 1 (uint8 (len (PerChainQueries q))) ++ concat cs) ++ rest.
Proof.
  unfold QueryRequest_readFields. intros H.
  inv_bind H version mid0 Hv. inv_int Hv.
  destruct (Z.eqb_spec version MSG_VERSION) as [->|]; [|discriminate]. cbn [negb] in H.
  inv_bind H nonce mid1 Hn. inv_int Hn.
  inv_bind H numPerChainQueries mid2 Hc. inv_int Hc.
  inv_bind H perChainQueries mid3 Hp.
  apply (read_loop_inv_rel _
           (fun p c => wf_PerChainQueryRequest p /\
                       forall bs, PerChainQueryRequest_Marshal p = Ok bs ->
                                  exists l, length l = 4%nat /\ c = set_query_len bs l)) in Hp
    as (ys & cs & -> & Hlen & Hall & ->).
  2:{ intros d x r Hx. apply wrap_inv in Hx. now apply PerChainQueryRequest_Unmarshal_inv. }
  unfold ret in H. injection H as <- <-. cbn [app Nonce PerChainQueries].
  change (256 ^ Z.of_nat 4) with (2 ^ 32) in *. change (256 ^ Z.of_nat 1) with (2 ^ 8) in *.
  split.
  { split; [exact Hb0|]. cbn [PerChainQueries].
    clear -Hall. induction Hall as [|p c ys cs [Hwf _] _ IH]; constructor; assumption. }
  exists cs. split.
  { clear -Hall. induction Hall as [|p c ys cs [_ Hm] _ IH]; constructor; assumption. }
  unfold uint8, len. rewrite Hlen, Z2Nat.id, Z.mod_small by lia.
  now rewrite <- !app_assoc.
Qed.

End DecoderInverse.

Section DecoderSoundness.
Import Query.
Context {chains : ChainTable}.

Local Opaque BigEndian_put.

Lemma query_len_fields (pcqs : list PerChainQueryRequest) (bufs cs : list (list byte)) :
  Forall2 (fun p buf => PerChainQueryRequest_Marshal p = Ok buf) pcqs bufs ->
  Forall2 (fun p c =>
             forall bs, PerChainQueryRequest_Marshal p = Ok bs ->
                        exists l, length l = 4%nat /\ c = set_query_len bs l) pcqs cs ->
  exists lens, Forall2 (fun (_ l : list byte) => length l = 4%nat) bufs lens /\
               cs = zip_with set_query_len bufs lens.
Proof.
  intros H. revert cs. induction H as [|p buf pcqs bufs Hp _ IH]; intros cs Hcs.
  - inversion Hcs; subst. exists []. split; [constructor | reflexivity].
  - inversion Hcs as [|? c ? cs' Hc Hcs']; subst.
    destruct (Hc buf Hp) as (l & Hl & ->). destruct (IH cs' Hcs') as (lens & Hlens & ->).
    exists (l :: lens). split; [now constructor | reflexivity].
Qed.

(** X13.  Whatever [QueryRequest.Unmarshal] accepts is a request with the
    ranges of its Go types that [Validate] accepts, and the input is what
    [Marshal] returns for that request, up to the four bytes of the query
    length of each per-chain query, which may hold anything.  The encoding
    is otherwise canonical: version 1, the nonce, the count and the
    per-chain queries as [Marshal] writes them, with nothing after. *)
Theorem unmarshal_accepts_marshaled_only (data : list byte) (q : QueryRequest) :
  QueryRequest_Unmarshal data = Ok q ->
  wf_QueryRequest q /\ QueryRequest_Validate q = None /\
  exists bufs lens,
    Forall2 (fun p buf => PerChainQueryRequest_Marshal p = Ok buf) (PerChainQueries q) bufs /\
    Forall2 (fun (_ l : list byte) => length l = 4%nat) bufs lens /\
    QueryRequest_Marshal q
    = Ok (BigEndian_put 1 1 ++ BigEndian_put 4 (Nonce q)
          ++ BigEndian_put 1 (len (PerChainQueries q)) ++ concat bufs) /\
    data = BigEndian_put 1 1 ++ BigEndian_put 4 (Nonce q)
           ++ BigEndian_put 1 (len (PerChainQueries q))
           ++ concat (zip_with set_query_len bufs lens).
Proof.
  intros H. apply QueryRequest_Unmarshal_Ok_inv in H as [Hf Hv].
  apply QueryRequest_readFields_inv in Hf as [Hwf (cs & Hcs & ->)].
  split; [exact Hwf|]. split; [exact Hv|].
  pose proof Hv as Hv'. unfold QueryRequest_Validate in Hv'.
  destruct (Nat.leb_spec (length (PerChainQueries q)) 0) as [|Hpos]; [discriminate|].
  destruct (Z.ltb_spec MaxUint8 (len (PerChainQueries q))) as [|Hmax]; [discriminate|].
  destruct (marshal_perChainQueries_ok _ (proj2 Hwf) _ Hv') as (bufs & Hall & Hm).
  destruct (query_len_fields _ _ _ Hall Hcs) as (lens & Hlens & ->).
  exists bufs, lens. split; [exact Hall|]. split; [exact Hlens|].
  unfold uint8, MaxUint8, len in *. rewrite Z.mod_small by lia.
  split.
  - unfold QueryRequest_Marshal. rewrite Hv, Hm. unfold uint8, len, MSG_VERSION.
    rewrite Z.mod_small by lia. now rewrite <- !app_assoc.
  - rewrite app_nil_r. reflexivity.
Qed.

(** X14.  The bytes [PerChainQueryRequest.Marshal] returns are the chain on
    two bytes, the type of the query on one, the length of what follows on
    four and then the bytes [Marshal] of the query returns: the query length
    the encoder writes is the right one. *)
Theorem per_chain_marshal_layout (p : PerChainQueryRequest) (bs : list byte) :
  PerChainQueryRequest_Marshal p = Ok bs ->
  exists q,
    Query p = Some q /\
    BigEndian_get (take 2 bs) = ChainId p mod 2 ^ 16 /\
    BigEndian_get (take 1 (drop 2 bs)) = ChainSpecificQuery_Type q /\
    BigEndian_get (take 4 (drop 3 bs)) = len bs - 7 /\
    ChainSpecificQuery_Marshal q = Ok (drop 7 bs).
Proof.
  intros H. apply PerChainQueryRequest_Marshal_inv in H as (q & queryBuf & Hq & Hm & Hlen & ->).
  exists q. split; [exact Hq|].
  split.
  { rewrite take_app_length' by now rewrite BigEndian_put_length.
    now rewrite BigEndian_get_put. }
  rewrite drop_app_length' by now rewrite BigEndian_put_length.
  split.
  { rewrite take_app_length' by now rewrite BigEndian_put_length.
    rewrite BigEndian_get_put. destruct q; reflexivity. }
  split.
  { rewrite (app_assoc (BigEndian_put 2 _)), drop_app_length'
      by now rewrite length_app, !BigEndian_put_length.
    rewrite take_app_length' by now rewrite BigEndian_put_length.
    rewrite BigEndian_get_put. unfold len in *.
    rewrite !length_app, !BigEndian_put_length.
    change (256 ^ Z.of_nat 4) with (2 ^ 32). rewrite Z.mod_small by lia. lia. }
  rewrite !app_assoc, drop_app_length' by now rewrite !length_app, !BigEndian_put_length.
  exact Hm.
Qed.

End DecoderSoundness.

Section DecoderInstances.
Import Query.

Lemma unmarshal_accepts_marshaled_only_witness :
  QueryRequest_Unmarshal (chains := solana_only) sdk_pda_vector = Ok sdk_pda_request /\
  wf_QueryRequest sdk_pda_request /\
  QueryRequest_Validate (chains := solana_only) sdk_pda_request = None /\
  exists bufs lens,
    Forall2 (fun p buf => PerChainQueryRequest_Marshal (chains := solana_only) p = Ok buf)
      (PerChainQueries sdk_pda_request) bufs /\
    Forall2 (fun (_ l : list byte) => length l = 4%nat) bufs lens /\
    QueryRequest_Marshal (chains := solana_only) sdk_pda_request
    = Ok (BigEndian_put 1 1 ++ BigEndian_put 4 (Nonce sdk_pda_request)
          ++ BigEndian_put 1 (len (PerChainQueries sdk_pda_request)) ++ concat bufs) /\
    sdk_pda_vector
    = BigEndian_put 1 1 ++ BigEndian_put 4 (Nonce sdk_pda_request)
      ++ BigEndian_put 1 (len (PerChainQueries sdk_pda_request))
      ++ concat (zip_with set_query_len bufs lens).
Proof.
  assert (QueryRequest_Unmarshal (chains := solana_only) sdk_pda_vector = Ok sdk_pda_request)
    as Hu by (vm_compute; reflexivity).
  split; [exact Hu|].
  exact (unmarshal_accepts_marshaled_only (chains := solana_only)
           sdk_pda_vector sdk_pda_request Hu).
Defined.

Lemma per_chain_marshal_layout_witness :
  PerChainQueryRequest_Marshal (chains := solana_only) perChainQuery1 = Ok perChainQuery1_bytes /\
  exists q,
    Query perChainQuery1 = Some q /\
    BigEndian_get (take 2 perChainQuery1_bytes) = ChainId perChainQuery1 mod 2 ^ 16 /\
    BigEndian_get (take 1 (drop 2 perChainQuery1_bytes)) = ChainSpecificQuery_Type q /\
    BigEndian_get (take 4 (drop 3 perChainQuery1_bytes)) = len perChainQuery1_bytes - 7 /\
    ChainSpecificQuery_Marshal q = Ok (drop 7 perChainQuery1_bytes).
Proof.
  assert (PerChainQueryRequest_Marshal (chains := solana_only) perChainQuery1
          = Ok perChainQuery1_bytes) as Hm by (vm_compute; reflexivity).
  split; [exact Hm|].
  exact (per_chain_marshal_layout (chains := solana_only) perChainQuery1
           perChainQuery1_bytes Hm).
Defined.

End DecoderInstances.

Section MarshalInjective.
Import Query.
Context {chains : ChainTable}.

Lemma QueryRequest_Marshal_validated (q : QueryRequest) (bs : list byte) :
  QueryRequest_Marshal q = Ok bs -> QueryRequest_Validate q = None.
Proof.
  unfold QueryRequest_Marshal. destruct (QueryRequest_Validate q); [discriminate | reflexivity].
Qed.

(** X15.  Two requests with the ranges of their Go types that [Marshal]
    turns into the same bytes are the same request: the bytes that are
    signed stand for one request only. *)
Theorem query_request_marshal_injective (q1 q2 : QueryRequest) (bs : list byte) :
  wf_QueryRequest q1 -> wf_QueryRequest q2 ->
  QueryRequest_Marshal q1 = Ok bs -> QueryRequest_Marshal q2 = Ok bs -> q1 = q2.
Proof.
  intros Hwf1 Hwf2 H1 H2.
  destruct (QueryRequest_Marshal_Unmarshal q1 Hwf1 (QueryRequest_Marshal_validated _ _ H1))
    as (bs1 & Hm1 & Hu1).
  destruct (QueryRequest_Marshal_Unmarshal q2 Hwf2 (QueryRequest_Marshal_validated _ _ H2))
    as (bs2 & Hm2 & Hu2).
  rewrite H1 in Hm1. rewrite H2 in Hm2. injection Hm1 as <-. injection Hm2 as <-.
  rewrite Hu1 in Hu2. now injection Hu2.
Qed.

End MarshalInjective.

(** ** The further statements at concrete inputs *)

Section FurtherInstances.
Import Query.

Lemma wf_sdk_request : wf_QueryRequest sdk_request.
Proof.
  split; [split; [discriminate | reflexivity]|].
  repeat constructor; discriminate.
Defined.

Lemma query_request_marshal_injective_witness :
  wf_QueryRequest sdk_request /\
  QueryRequest_Marshal (chains := solana_only) sdk_request = Ok sdk_vector /\
  sdk_request = sdk_request.
Proof.
  assert (QueryRequest_Marshal (chains := solana_only) sdk_request = Ok sdk_vector)
    as Hm by (vm_compute; reflexivity).
  split; [exact wf_sdk_request|]. split; [exact Hm|].
  exact (query_request_marshal_injective (chains := solana_only) sdk_request sdk_request
           sdk_vector wf_sdk_request wf_sdk_request Hm Hm).
Defined.

(** The vectors of the serializer tests for the bridge and relayer bodies. *)
Example bridge_bodies_vectors :
  Vaa.hex_of (Vaa.BodyTokenBridgeRegisterChain_Serialize
                {| Vaa.rc_Module := "test"; Vaa.rc_ChainID := 1;
                   Vaa.rc_EmitterAddress := Vaa.addr |})
  = Returned
      ("0000000000000000000000000000000000000000000000000000000074657374"
       +:+ "01000000010000000000000000000000000000000000000000000000000000000000000004") /\
  Vaa.BodyTokenBridgeRegisterChain_Serialize
    {| Vaa.rc_Module := "123456789012345678901234567890123"; Vaa.rc_ChainID := 1;
       Vaa.rc_EmitterAddress := Vaa.addr |}
  = Panic (Errorf "payload longer than %d bytes" [ArgInt 32]) /\
  Vaa.hex_of (Vaa.BodyTokenBridgeUpgradeContract_Serialize
                {| Vaa.uc_Module := "test"; Vaa.uc_TargetChainID := 1;
                   Vaa.uc_NewContract := Vaa.addr |})
  = Returned
      ("0000000000000000000000000000000000000000000000000000000074657374"
       +:+ "0200010000000000000000000000000000000000000000000000000000000000000004") /\
  Vaa.hex_of (Vaa.BodyWormholeRelayerSetDefaultDeliveryProvider_Serialize
                {| Vaa.dp_ChainID := 4;
                   Vaa.dp_NewDefaultDeliveryProviderAddress := Vaa.addr |})
  = Returned
      ("0000000000000000000000000000000000576f726d686f6c6552656c61796572"
       +:+ "0300040000000000000000000000000000000000000000000000000000000000000004") /\
  Vaa.hex_of (Vaa.BodyRecoverChainId_Serialize
                {| Vaa.rci_Module := "Core"; Vaa.rci_EvmChainID := 1;
                   Vaa.rci_NewChainID := 4000 |})
  = Returned
      ("00000000000000000000000000000000000000000000000000000000436f7265"
       +:+ "0500000000000000000000000000000000000000000000000000000000000000010fa0") /\
  Vaa.hex_of (Vaa.BodyRecoverChainId_Serialize
                {| Vaa.rci_Module := "TokenBridge"; Vaa.rci_EvmChainID := 1;
                   Vaa.rci_NewChainID := 4000 |})
  = Returned
      ("000000000000000000000000000000000000000000546f6b656e427269646765"
       +:+ "0300000000000000000000000000000000000000000000000000000000000000010fa0").
Proof. repeat (split; [vm_compute; reflexivity|]). vm_compute. reflexivity. Qed.

Lemma wf_test_update :
  Vaa.wf_BodyGuardianSetUpdate {| Vaa.Keys := Vaa.test_keys; Vaa.NewIndex := 1 |}.
Proof.
  split; [split; [discriminate | reflexivity]|].
  repeat constructor.
Defined.

Lemma guardian_set_update_serialize_injective_witness :
  Vaa.wf_BodyGuardianSetUpdate {| Vaa.Keys := Vaa.test_keys; Vaa.NewIndex := 1 |} /\
  (length Vaa.test_keys <= 255)%nat /\
  {| Vaa.Keys := Vaa.test_keys; Vaa.NewIndex := 1 |}
  = {| Vaa.Keys := Vaa.test_keys; Vaa.NewIndex := 1 |}.
Proof.
  assert (length Vaa.test_keys <= 255)%nat as Hn by (vm_compute; lia).
  split; [exact wf_test_update|]. split; [exact Hn|].
  exact (guardian_set_update_serialize_injective _ _ wf_test_update wf_test_update Hn Hn
           eq_refl).
Defined.

End FurtherInstances.


(** ** [PerChainQueryRequest.Unmarshal] *)

Section PerChainTrailing.
Import Query.
Context {chains : ChainTable}.

(** X16.  Unlike [QueryRequest.Unmarshal], [PerChainQueryRequest.Unmarshal]
    does not look at what follows the query: an input it accepts is accepted
    with any bytes appended, and gives the same per-chain query. *)
Theorem per_chain_unmarshal_ignores_trailing_bytes (data extra : list byte)
    (p : PerChainQueryRequest) :
  PerChainQueryRequest_Unmarshal data = Ok p ->
  PerChainQueryRequest_Unmarshal (data ++ extra) = Ok p.
Proof.
  unfold PerChainQueryRequest_Unmarshal.
  destruct (PerChainQueryRequest_UnmarshalFromReader data) as [[q rest]|] eqn:E;
    [|discriminate].
  intros [= <-]. now rewrite (stable_PerChainQueryRequest data q rest extra E).
Qed.

End PerChainTrailing.

Section PerChainTrailingInstances.
Import Query.

Lemma per_chain_unmarshal_ignores_trailing_bytes_witness :
  PerChainQueryRequest_Unmarshal perChainQuery1_bytes = Ok perChainQuery1 /\
  PerChainQueryRequest_Unmarshal (perChainQuery1_bytes ++ [Byte.xff]) = Ok perChainQuery1.
Proof.
  assert (PerChainQueryRequest_Unmarshal perChainQuery1_bytes = Ok perChainQuery1)
    as Hu by (vm_compute; reflexivity).
  split; [exact Hu|].
  exact (per_chain_unmarshal_ignores_trailing_bytes perChainQuery1_bytes [Byte.xff]
           perChainQuery1 Hu).
Defined.

End PerChainTrailingInstances.
